(** * NestTask offline resilience layer: a shallow embedding

    The development follows the repository file by file:
    - [JS]             the fragments of JavaScript the sources rely on
                       (values and truthiness, errors, string tests,
                       settled / pending promises);
    - [Operations]     [useOperations] of src/hooks/useData.ts (second part):
                       the pending-operations queue;
    - [OfflineStorage] src/utils/offlineStorage.ts over a model of IndexedDB;
    - [ServiceWorker]  public/service-worker.js over a model of CacheStorage;
    - [Pwa]            the keep-alive loop and the reinstall throttle of the
                       PWA utilities;
    - [UseData]        the [useData] hook of src/hooks/useData.ts. *)

From stdpp Require Import gmap strings list fin_maps pretty.

Local Open Scope string_scope.
Local Open Scope list_scope.
Local Open Scope Z_scope.

(* ===================================================================== *)
(** * JavaScript fragments *)
(* ===================================================================== *)

Module JS.

(** Primitive values stored in record fields.  Numbers are integers. *)
Inductive Value : Type :=
| VUndefined
| VNull
| VBool (b : bool)
| VNum (n : Z)
| VStr (s : string).

#[global] Instance Value_eq_dec : EqDecision Value.
Proof. solve_decision. Defined.

(** [ToBoolean]: what [if (v)] and [!v] test. *)
Definition truthy (v : Value) : bool :=
  match v with
  | VUndefined | VNull => false
  | VBool b => b
  | VNum n => negb (n =? 0)
  | VStr s => negb (String.eqb s "")
  end.

(** [obj.field] on an object that may lack the field. *)
Definition field (o : gmap string Value) (f : string) : Value :=
  default VUndefined (o !! f).

(** Thrown values: the constructor tested by [instanceof] and the
    [message]. *)
Inductive ErrorClass : Type :=
| ErrorC
| TypeErrorC
| DOMExceptionC (name : string).

Record Error : Type := mkError { err_class : ErrorClass; err_message : string }.

Definition instanceofTypeError (e : Error) : bool :=
  match err_class e with TypeErrorC => true | _ => false end.

(** [s.startsWith(t)] *)
Definition startsWith (s t : string) : bool := String.prefix t s.

(** [s.includes(t)] *)
Fixpoint includes (s t : string) : bool :=
  String.prefix t s ||
  match s with
  | EmptyString => false
  | String _ s' => includes s' t
  end.

(** State of a promise once the event loop has run dry: it settled one
    way or the other, or no callback ever settled it. *)
Inductive Promise (A : Type) : Type :=
| Resolved (a : A)
| Rejected (e : Error)
| Pending.
Arguments Resolved {A} a.
Arguments Rejected {A} e.
Arguments Pending {A}.

(** [resolve(a)] and [reject(e)] of a promise executor: only the first
    call settles the promise. *)
Definition resolve {A} (a : A) (p : Promise A) : Promise A :=
  match p with Pending => Resolved a | _ => p end.
Definition reject {A} (e : Error) (p : Promise A) : Promise A :=
  match p with Pending => Rejected e | _ => p end.

End JS.

(* ===================================================================== *)
(** * List facts shared by the modules *)
(* ===================================================================== *)

Lemma filter_ext_in {A} (P Q : A → Prop)
    `{!∀ x, Decision (P x), !∀ x, Decision (Q x)} (l : list A) :
  (∀ x, x ∈ l → P x ↔ Q x) → filter P l = filter Q l.
Proof.
  induction l as [|a l IH]; intros Hext; [done|].
  rewrite !filter_cons.
  rewrite IH by (intros x Hx; apply Hext; by right).
  apply decide_ext, Hext. by left.
Qed.

Lemma NoDup_fmap_inj_on {A B} (f : A → B) (l : list A) (a b : A) :
  NoDup (f <$> l) → a ∈ l → b ∈ l → f a = f b → a = b.
Proof.
  induction l as [|x l IH]; [by inversion 2|].
  rewrite fmap_cons, NoDup_cons, !elem_of_cons.
  intros [Hx Hnd] [->|Ha] [->|Hb] Hf; auto.
  - exfalso. apply Hx. rewrite Hf. by apply list_elem_of_fmap_2.
  - exfalso. apply Hx. rewrite <- Hf. by apply list_elem_of_fmap_2.
Qed.

(* ===================================================================== *)
(** * src/hooks/useData.ts, [useOperations] *)
(* ===================================================================== *)

Module Operations.
Import JS.

Inductive OperationType : Type := OpCreate | OpUpdate | OpDelete.

Inductive EntityType : Type := task | routine | course | teacher.

Definition entityName (e : EntityType) : string :=
  match e with
  | task => "task" | routine => "routine"
  | course => "course" | teacher => "teacher"
  end.

(** The [RequestInit] built for each call. *)
Inductive Method : Type := POST | PUT | DELETE.
Record RequestInit : Type :=
  { method : Method; headers : list (string * string); body : option string }.

(** What [await fetch(...)] gives: a response carrying an HTTP status,
    or a thrown error. *)
Record Response : Type := { status : Z }.
Definition ok (r : Response) : bool := (200 <=? status r) && (status r <=? 299).

Inductive FetchResult : Type :=
| Fulfilled (response : Response)
| Thrown (error : Error).

Section Queue.
(** [payload : any]; [JSON.stringify] is taken total on the payloads
    the queue holds. *)
Context {Payload : Type}.
Variable JSON_stringify : Payload → string.

Record Operation : Type :=
  { op_id : string;
    op_type : OperationType;
    endpoint : string;
    payload : Payload;
    timestamp : Z;
    userId : string }.

Variable entityType : EntityType.
Variable user : string.

(** [const operationStore = new Map<string, Operation[]>()] *)
Local Abbreviation OperationStore := (gmap string (list Operation)).

(** React state of one hook instance. *)
Record Hook : Type :=
  { pendingOperations : list Operation; isExecuting : bool }.

Definition hasPendingOperations (h : Hook) : bool :=
  negb (length (pendingOperations h) =? 0)%nat.

Definition getStoreKey : string := entityName entityType +:+ "_" +:+ user.

(** [operationStore.get(storeKey) || []] *)
Definition stored (store : OperationStore) : list Operation :=
  default [] (store !! getStoreKey).

Definition loadOperations (store : OperationStore) (h : Hook) : Hook :=
  {| pendingOperations := stored store; isExecuting := isExecuting h |}.

(** [saveOperation], with the generated id and the clock reading passed
    in. *)
Definition saveOperation (operationId : string) (now : Z)
    (ty : OperationType) (ep : string) (pl : Payload)
    (store : OperationStore) (h : Hook) : OperationStore * Hook :=
  let fullOperation :=
    {| op_id := operationId; op_type := ty; endpoint := ep; payload := pl;
       timestamp := now; userId := user |} in
  (<[getStoreKey := stored store ++ [fullOperation]]> store,
   {| pendingOperations := pendingOperations h ++ [fullOperation];
      isExecuting := isExecuting h |}).

Definition buildInit (operation : Operation) : RequestInit :=
  {| method := match op_type operation with
               | OpCreate => POST | OpUpdate => PUT | OpDelete => DELETE
               end;
     headers := [("Content-Type", "application/json")];
     body := match op_type operation with
             | OpDelete => None
             | _ => Some (JSON_stringify (payload operation))
             end |}.

(** Observable steps of a pass. *)
Inductive Event : Type :=
| EvFetch (operation : Operation) (init : RequestInit) (result : FetchResult)
| EvRemove (operation : Operation)
| EvConsoleLog (operation : Operation)
| EvConsoleError (error : Error) (operation : Operation).

(** The test of the inner [catch]:
    [error instanceof TypeError && error.message.includes('network')]. *)
Definition isNetworkError (error : Error) : bool :=
  instanceofTypeError error && includes (err_message error) "network".

(** The inner [catch] block: log, then decide whether to [break]. *)
Definition catchInner (error : Error) (operation : Operation)
    : list Event * bool :=
  ([EvConsoleError error operation], isNetworkError error).

Section Pass.
(** The network, as one execution pass meets it. *)
Variable fetch : string → RequestInit → FetchResult.

(** One iteration of the [for] loop.  The boolean is [true] when the
    iteration ends in [break]. *)
Definition iteration (store : OperationStore) (operation : Operation)
    : OperationStore * list Event * bool :=
  let init := buildInit operation in
  let result := fetch (endpoint operation) init in
  match result with
  | Fulfilled response =>
      if ok response then
        let currentOperations := stored store in
        let updatedOperations :=
          filter (λ op, op_id op ≠ op_id operation) currentOperations in
        (<[getStoreKey := updatedOperations]> store,
         [EvFetch operation init result; EvRemove operation;
          EvConsoleLog operation],
         false)
      else
        let error :=
          mkError ErrorC
            ("Failed to execute operation. Status: "
               +:+ pretty (status response)) in
        let '(log, brk) := catchInner error operation in
        (store, EvFetch operation init result :: log, brk)
  | Thrown error =>
      let '(log, brk) := catchInner error operation in
      (store, EvFetch operation init result :: log, brk)
  end.

(** [for (const operation of pendingOperations) { ... }] *)
Fixpoint walk (store : OperationStore) (ops : list Operation)
    : OperationStore * list Event :=
  match ops with
  | [] => (store, [])
  | operation :: rest =>
      let '(store1, evs, brk) := iteration store operation in
      if brk then (store1, evs)
      else let '(store2, evs2) := walk store1 rest in (store2, evs ++ evs2)
  end.

(** [executeOperation]: guard, walk, reload, clear the flag. *)
Definition executeOperation (store : OperationStore) (h : Hook)
    : OperationStore * Hook * list Event :=
  if (length (pendingOperations h) =? 0)%nat || isExecuting h then
    (store, h, [])
  else
    let '(store', evs) := walk store (pendingOperations h) in
    let h' := loadOperations store' h in
    (store',
     {| pendingOperations := pendingOperations h'; isExecuting := false |},
     evs).

End Pass.

(** ** Reading a trace *)

(** Operations whose remote call was made, in order. *)
Definition fetched (tr : list Event) : list Operation :=
  omap (λ ev, match ev with EvFetch o _ _ => Some o | _ => None end) tr.

(** Operations a trace mentions at all. *)
Definition event_operation (ev : Event) : Operation :=
  match ev with
  | EvFetch o _ _ | EvRemove o | EvConsoleLog o | EvConsoleError _ o => o
  end.


(** ** Outcome of the remote call of an operation *)

Section Outcome.
Variable fetch : string → RequestInit → FetchResult.

Definition outcome (operation : Operation) : FetchResult :=
  fetch (endpoint operation) (buildInit operation).

Definition succeeds (operation : Operation) : bool :=
  match outcome operation with
  | Fulfilled response => ok response
  | Thrown _ => false
  end.

Definition stops (operation : Operation) : bool :=
  match outcome operation with
  | Fulfilled _ => false
  | Thrown error => isNetworkError error
  end.

(** The operations the loop reaches: up to and including the first one
    that ends in [break]. *)
Fixpoint reached (ops : list Operation) : list Operation :=
  match ops with
  | [] => []
  | operation :: rest =>
      operation :: (if stops operation then [] else reached rest)
  end.

(** The operations of a list whose call does not succeed. *)
Definition failed (ops : list Operation) : list Operation :=
  filter (λ o, succeeds o = false) ops.

End Outcome.

(** ** Facts about one execution pass *)

Section Facts.
Variable fetch : string → RequestInit → FetchResult.

(** The error the inner [catch] receives when the call did not succeed. *)
Definition caught (operation : Operation) : Error :=
  match outcome fetch operation with
  | Fulfilled response =>
      mkError ErrorC
        ("Failed to execute operation. Status: " +:+ pretty (status response))
  | Thrown error => error
  end.

Lemma iteration_success store operation :
  succeeds fetch operation = true →
  iteration fetch store operation =
    (<[getStoreKey :=
         filter (λ op, op_id op ≠ op_id operation) (stored store)]> store,
     [EvFetch operation (buildInit operation) (outcome fetch operation);
      EvRemove operation; EvConsoleLog operation],
     false).
Proof.
  unfold succeeds, iteration, outcome.
  destruct (fetch _ _) as [response|error]; [|done].
  by intros ->.
Qed.

Lemma iteration_failure store operation :
  succeeds fetch operation = false →
  iteration fetch store operation =
    (store,
     [EvFetch operation (buildInit operation) (outcome fetch operation);
      EvConsoleError (caught operation) operation],
     stops fetch operation).
Proof.
  unfold succeeds, stops, caught, iteration, outcome, catchInner.
  destruct (fetch _ _) as [response|error]; [|done].
  by intros ->.
Qed.

Lemma stored_insert store ops : stored (<[getStoreKey := ops]> store) = ops.
Proof. unfold stored. by rewrite lookup_insert_eq. Qed.

Lemma succeeds_not_stops operation :
  succeeds fetch operation = true → stops fetch operation = false.
Proof. unfold succeeds, stops. by destruct (outcome _ _). Qed.

(** The calls made are those of the operations reached, in order. *)
Lemma walk_fetched ops : ∀ store,
  fetched (walk fetch store ops).2 = reached fetch ops.
Proof.
  induction ops as [|operation rest IH]; intros store; [done|].
  cbn [walk reached].
  destruct (succeeds fetch operation) eqn:Hs.
  - rewrite (iteration_success _ _ Hs), (succeeds_not_stops _ Hs).
    specialize (IH (<[getStoreKey :=
      filter (λ op, op_id op ≠ op_id operation) (stored store)]> store)).
    destruct (walk _ _ rest) as [store2 evs2]. cbn in *. by rewrite IH.
  - rewrite (iteration_failure _ _ Hs).
    destruct (stops fetch operation); [done|].
    specialize (IH store).
    destruct (walk _ _ rest) as [store2 evs2]. cbn in *. by rewrite IH.
Qed.

(** Every event of a pass is about an operation the loop reached. *)
Lemma walk_events_reached ops : ∀ store ev,
  ev ∈ (walk fetch store ops).2 → event_operation ev ∈ reached fetch ops.
Proof.
  induction ops as [|operation rest IH]; intros store ev; [by inversion 1|].
  cbn [walk reached].
  destruct (succeeds fetch operation) eqn:Hs.
  - rewrite (iteration_success _ _ Hs), (succeeds_not_stops _ Hs).
    specialize (IH (<[getStoreKey :=
      filter (λ op, op_id op ≠ op_id operation) (stored store)]> store) ev).
    destruct (walk _ _ rest) as [store2 evs2]. cbn in *.
    rewrite !elem_of_cons. intros [->|[->|[->|Hin]]]; cbn; auto.
  - rewrite (iteration_failure _ _ Hs).
    destruct (stops fetch operation).
    + cbn. rewrite !elem_of_cons.
      intros [->|[->|Hin]]; cbn; auto. by inversion Hin.
    + specialize (IH store ev).
      destruct (walk _ _ rest) as [store2 evs2]. cbn in *.
      rewrite !elem_of_cons. intros [->|[->|Hin]]; cbn; auto.
Qed.

(** Ids the pass filters out of the store: those of the reached
    operations whose call succeeded. *)
Definition removedIds (ops : list Operation) : list string :=
  op_id <$> filter (λ a, succeeds fetch a = true) (reached fetch ops).

Lemma removedIds_success operation rest :
  succeeds fetch operation = true →
  removedIds (operation :: rest) = op_id operation :: removedIds rest.
Proof.
  intros Hs. unfold removedIds. cbn [reached].
  rewrite (succeeds_not_stops _ Hs), filter_cons_True by done. done.
Qed.

Lemma removedIds_failure operation rest :
  succeeds fetch operation = false →
  removedIds (operation :: rest) =
    if stops fetch operation then [] else removedIds rest.
Proof.
  intros Hs. unfold removedIds. cbn [reached].
  rewrite filter_cons_False by (by rewrite Hs).
  by destruct (stops fetch operation).
Qed.

Lemma filter_not_in_nil (l : list Operation) :
  filter (λ o, op_id o ∉ @nil string) l = l.
Proof.
  induction l as [|o l IHl]; [done|].
  rewrite filter_cons_True; [by rewrite IHl|]. by inversion 1.
Qed.

(** What the store holds under the hook's key after a pass: the entries
    whose id is not that of a reached operation whose call succeeded. *)
Lemma walk_stored ops : ∀ store,
  stored (walk fetch store ops).1 =
    filter (λ o, op_id o ∉ removedIds ops) (stored store).
Proof.
  induction ops as [|operation rest IH]; intros store.
  - cbn [walk fst]. by rewrite filter_not_in_nil.
  - cbn [walk].
    destruct (succeeds fetch operation) eqn:Hs.
    + rewrite (iteration_success _ _ Hs), (removedIds_success _ _ Hs).
      specialize (IH (<[getStoreKey :=
        filter (λ op, op_id op ≠ op_id operation) (stored store)]> store)).
      destruct (walk _ _ rest) as [store2 evs2]. cbn [fst] in *.
      rewrite IH, stored_insert, list_filter_filter.
      apply list_filter_iff. intros o. rewrite not_elem_of_cons. tauto.
    + rewrite (iteration_failure _ _ Hs), (removedIds_failure _ _ Hs).
      destruct (stops fetch operation).
      * cbn [fst]. by rewrite filter_not_in_nil.
      * specialize (IH store).
        destruct (walk _ _ rest) as [store2 evs2]. cbn [fst] in *. done.
Qed.

(** The pass only ever writes under the hook's own key, and never drops
    the entry. *)
Lemma walk_other_keys ops : ∀ store k,
  k ≠ getStoreKey → (walk fetch store ops).1 !! k = store !! k.
Proof.
  induction ops as [|operation rest IH]; intros store k Hk; [done|].
  cbn [walk].
  destruct (succeeds fetch operation) eqn:Hs.
  - rewrite (iteration_success _ _ Hs).
    specialize (IH (<[getStoreKey :=
      filter (λ op, op_id op ≠ op_id operation) (stored store)]> store) k Hk).
    destruct (walk _ _ rest) as [store2 evs2]. cbn in *.
    by rewrite IH, lookup_insert_ne.
  - rewrite (iteration_failure _ _ Hs).
    destruct (stops fetch operation); [done|].
    specialize (IH store k Hk).
    by destruct (walk _ _ rest) as [store2 evs2].
Qed.

Lemma walk_key_kept ops : ∀ store,
  is_Some (store !! getStoreKey) →
  (walk fetch store ops).1 !! getStoreKey = Some (stored (walk fetch store ops).1).
Proof.
  assert (∀ store, is_Some (store !! getStoreKey) →
            is_Some ((walk fetch store ops).1 !! getStoreKey)) as Hkeep.
  { induction ops as [|operation rest IH]; intros store Hsome; [done|].
    cbn [walk].
    destruct (succeeds fetch operation) eqn:Hs.
    - rewrite (iteration_success _ _ Hs).
      specialize (IH (<[getStoreKey :=
        filter (λ op, op_id op ≠ op_id operation) (stored store)]> store)).
      destruct (walk _ _ rest) as [store2 evs2]. cbn in *.
      apply IH. rewrite lookup_insert_eq. eauto.
    - rewrite (iteration_failure _ _ Hs).
      destruct (stops fetch operation); [done|].
      specialize (IH store Hsome).
      by destruct (walk _ _ rest) as [store2 evs2]. }
  intros store Hsome. destruct (Hkeep store Hsome) as [l Hl].
  unfold stored. by rewrite Hl.
Qed.



Lemma reached_stop before B after :
  (∀ o, o ∈ before → stops fetch o = false) →
  stops fetch B = true →
  reached fetch (before ++ B :: after) = before ++ [B].
Proof.
  induction before as [|operation rest IH]; intros Hno HB; cbn [reached app].
  - by rewrite HB.
  - rewrite (Hno operation) by (by left).
    rewrite IH; [done| |done]. intros o Ho. apply Hno. by right.
Qed.

Lemma failed_all (l : list Operation) :
  (∀ o, o ∈ l → succeeds fetch o = false) → failed fetch l = l.
Proof.
  unfold failed. induction l as [|o l IHl]; intros Hall; [done|].
  rewrite filter_cons_True by (apply Hall; by left).
  rewrite IHl; [done|]. intros a Ha. apply Hall. by right.
Qed.

(** With distinct ids, filtering the queue by the ids removed keeps the
    failed part of the prefix the loop reached and everything behind it. *)
Lemma filter_removedIds pre suf :
  NoDup (op_id <$> pre ++ suf) →
  filter (λ o, op_id o ∉
                 op_id <$> filter (λ a, succeeds fetch a = true) pre)
         (pre ++ suf)
  = failed fetch pre ++ suf.
Proof.
  intros Hnd. rewrite filter_app. f_equal.
  - unfold failed. apply filter_ext_in. intros o Ho. split.
    + intros Hnot. destruct (succeeds fetch o) eqn:Hs; [|done].
      exfalso. apply Hnot. apply list_elem_of_fmap_2.
      by apply list_elem_of_filter.
    + intros Hs [a [Hid [Ha Hin]%list_elem_of_filter]]%list_elem_of_fmap.
      assert (o = a) as ->; [|congruence].
      apply (NoDup_fmap_inj_on op_id (pre ++ suf)); auto;
        apply elem_of_app; by left.
  - rewrite <- (filter_not_in_nil suf) at 2.
    apply filter_ext_in. intros o Ho. split; [by inversion 2|].
    intros _ [a [Hid [Ha Hin]%list_elem_of_filter]]%list_elem_of_fmap.
    assert (o = a) as ->.
    { apply (NoDup_fmap_inj_on op_id (pre ++ suf)); auto;
        apply elem_of_app; auto. }
    apply NoDup_fmap_1, NoDup_app in Hnd as (_ & Hdisj & _).
    by apply (Hdisj a).
Qed.

(** The guard of [executeOperation] lets a non-empty, idle hook through. *)
Lemma executeOperation_runs store h :
  pendingOperations h ≠ [] → isExecuting h = false →
  executeOperation fetch store h =
    ((walk fetch store (pendingOperations h)).1,
     {| pendingOperations := stored (walk fetch store (pendingOperations h)).1;
        isExecuting := false |},
     (walk fetch store (pendingOperations h)).2).
Proof.
  intros Hne Hidle. unfold executeOperation. rewrite Hidle.
  destruct (pendingOperations h) as [|o l] eqn:Hp; [done|].
  cbn [length Nat.eqb orb]. by destruct (walk fetch store (o :: l)).
Qed.


End Facts.

(** ** The two walks of the specification *)


(** Where the loop does stop.  When the call of an operation B throws an
    error that the inner [catch] classifies as a network error (a
    [TypeError] whose message contains "network"), and no earlier
    operation stopped the loop, the pass ends at B: the calls made are those of the operations before B
    and of B itself, no event concerns an operation behind B, and the
    store and the hook keep B, everything behind B, and the operations
    before B whose call did not succeed. *)
Theorem executeOperation_network_error_stops_walk
    (fetch : string → RequestInit → FetchResult)
    (store : gmap string (list Operation)) (h : Hook)
    (before : list Operation) (B : Operation) (after : list Operation)
    (error : Error) :
  pendingOperations h = before ++ B :: after →
  isExecuting h = false →
  store !! getStoreKey = Some (before ++ B :: after) →
  NoDup (op_id <$> before ++ B :: after) →
  (∀ o, o ∈ before → stops fetch o = false) →
  outcome fetch B = Thrown error →
  isNetworkError error = true →
  ∃ store' h' tr,
    executeOperation fetch store h = (store', h', tr) ∧
    fetched tr = before ++ [B] ∧
    (∀ ev, ev ∈ tr → event_operation ev ∉ after) ∧
    store' !! getStoreKey = Some (failed fetch before ++ B :: after) ∧
    pendingOperations h' = failed fetch before ++ B :: after ∧
    isExecuting h' = false.
Proof.
  intros Hp Hidle Hstore Hnd Hno HB Hnet.
  assert (stops fetch B = true) as HstopB.
  { unfold stops. by rewrite HB. }
  assert (succeeds fetch B = false) as HfailB.
  { unfold succeeds. by rewrite HB. }
  pose proof (reached_stop fetch before B after Hno HstopB) as Hreach.
  assert (stored (walk fetch store (before ++ B :: after)).1
          = failed fetch before ++ B :: after) as Hleft.
  { rewrite walk_stored. unfold removedIds, stored.
    rewrite Hreach, Hstore. cbn [default]. unfold id.
    pose proof (filter_removedIds fetch (before ++ [B]) after) as Hf.
    rewrite <- !app_assoc in Hf. cbn [app] in Hf. rewrite Hf by done.
    unfold failed. rewrite filter_app, filter_cons_True by done.
    by rewrite <- app_assoc. }
  eexists _, _, _. split.
  { apply executeOperation_runs; [|done]. rewrite Hp. by destruct before. }
  rewrite Hp. cbn [pendingOperations isExecuting].
  repeat split.
  - by rewrite walk_fetched.
  - intros ev Hev Hafter.
    apply walk_events_reached in Hev. rewrite Hreach in Hev.
    apply NoDup_fmap_1 in Hnd.
    replace (before ++ B :: after) with ((before ++ [B]) ++ after) in Hnd
      by (by rewrite <- app_assoc).
    apply NoDup_app in Hnd as (_ & Hdisj & _). by apply (Hdisj _ Hev).
  - rewrite walk_key_kept by (rewrite Hstore; eauto). by rewrite Hleft.
  - done.
Qed.

End Queue.

(** ** The queues of the specification, run *)

Definition opA : Operation :=
  {| op_id := "task_1700000000001_k3x9q2a"; op_type := OpCreate;
     endpoint := "/rest/tasks"; payload := "{}";
     timestamp := 1700000000001; userId := "u1" |}.
Definition opB : Operation :=
  {| op_id := "task_1700000000002_b7m1c0z"; op_type := OpUpdate;
     endpoint := "/rest/tasks/7"; payload := "{}";
     timestamp := 1700000000002; userId := "u1" |}.
Definition opC : Operation :=
  {| op_id := "task_1700000000003_p0d4w8e"; op_type := OpDelete;
     endpoint := "/rest/tasks/9"; payload := "{}";
     timestamp := 1700000000003; userId := "u1" |}.

(** B is answered with HTTP 500, every other call with 200. *)
Definition net500 (ep : string) (init : RequestInit) : FetchResult :=
  if String.eqb ep "/rest/tasks/7" then Fulfilled {| status := 500 |}
  else Fulfilled {| status := 200 |}.

(** The call of B fails to connect; every other call is answered 200. *)
Definition netDown (ep : string) (init : RequestInit) : FetchResult :=
  if String.eqb ep "/rest/tasks/7"
  then Thrown (mkError TypeErrorC "A network error occurred.")
  else Fulfilled {| status := 200 |}.

Definition run (fetch : string → RequestInit → FetchResult)
    (ops : list Operation) :=
  executeOperation (λ s : string, s) task "u1" fetch
    {[ getStoreKey task "u1" := ops ]}
    {| pendingOperations := ops; isExecuting := false |}.

Example run_A_B500_C :
  (run net500 [opA; opB; opC]).1.1 !! "task_u1" = Some [opB] ∧
  pendingOperations (run net500 [opA; opB; opC]).1.2 = [opB] ∧
  fetched (run net500 [opA; opB; opC]).2 = [opA; opB; opC].
Proof. cbv zeta. split_and!; vm_compute; reflexivity. Qed.

Example run_A_Bdown_C :
  (run netDown [opA; opB; opC]).1.1 !! "task_u1" = Some [opB; opC] ∧
  pendingOperations (run netDown [opA; opB; opC]).1.2 = [opB; opC] ∧
  fetched (run netDown [opA; opB; opC]).2 = [opA; opB].
Proof. cbv zeta. split_and!; vm_compute; reflexivity. Qed.
(** The call of B is rejected the way Chrome rejects a call it cannot
    make, with a [TypeError] whose message is "Failed to fetch". *)
Definition netFailedToFetch (ep : string) (init : RequestInit) : FetchResult :=
  if String.eqb ep "/rest/tasks/7"
  then Thrown (mkError TypeErrorC "Failed to fetch")
  else Fulfilled {| status := 200 |}.

(** C2, where the code departs from it.  The call of B cannot reach the
    network and is rejected with "Failed to fetch"; the message has no
    "network" in it, the inner [catch], whose comment reads "If this is
    a network error, break the loop", does not take the error for one,
    and the loop goes on: C is called and removed. *)
Theorem executeOperation_failed_to_fetch_goes_on :
  outcome (λ s : string, s) netFailedToFetch opB
    = Thrown (mkError TypeErrorC "Failed to fetch") ∧
  isNetworkError (mkError TypeErrorC "Failed to fetch") = false ∧
  fetched (run netFailedToFetch [opA; opB; opC]).2 = [opA; opB; opC] ∧
  (run netFailedToFetch [opA; opB; opC]).1.1 !! "task_u1" = Some [opB] ∧
  pendingOperations (run netFailedToFetch [opA; opB; opC]).1.2 = [opB].
Proof. split_and!; vm_compute; reflexivity. Qed.


Lemma executeOperation_network_error_witness :
  ∃ store' h' tr,
    run netDown [opA; opB; opC] = (store', h', tr) ∧
    fetched tr = [opA] ++ [opB] ∧
    (∀ ev, ev ∈ tr → event_operation ev ∉ [opC]) ∧
    store' !! getStoreKey task "u1"
      = Some (failed (λ s : string, s) netDown [opA] ++ opB :: [opC]) ∧
    pendingOperations h'
      = failed (λ s : string, s) netDown [opA] ++ opB :: [opC] ∧
    isExecuting h' = false.
Proof.
  apply (executeOperation_network_error_stops_walk
           (λ s : string, s) task "u1" netDown _ _ [opA] opB [opC]
           (mkError TypeErrorC "A network error occurred.")).
  - reflexivity.
  - reflexivity.
  - vm_compute. reflexivity.
  - apply (bool_decide_unpack _). by vm_compute.
  - intros o Ho. rewrite !elem_of_cons in Ho.
    destruct Ho as [->|Ho]; [vm_compute; reflexivity|by inversion Ho].
  - vm_compute. reflexivity.
  - vm_compute. reflexivity.
Defined.

(** ** What a pass and a save leave alone *)

Section Frame.
Context {Payload : Type}.
Variable JSON_stringify : Payload → string.

(** The store key [`${entityType}_${userId}`] tells entity types and
    users apart: no entity name followed by "_" is a prefix of another
    key. *)
Lemma getStoreKey_inj (e1 e2 : EntityType) (u1 u2 : string) :
  getStoreKey e1 u1 = getStoreKey e2 u2 → e1 = e2 ∧ u1 = u2.
Proof.
  unfold getStoreKey.
  destruct e1, e2; cbn; intros Heq; by simplify_eq.
Qed.

Lemma reached_elem (fetch : string → RequestInit → FetchResult)
    (ops : list (@Operation Payload)) (o : Operation) :
  o ∈ reached JSON_stringify fetch ops → o ∈ ops.
Proof.
  induction ops as [|operation rest IH]; [done|].
  cbn [reached]. rewrite !elem_of_cons. intros [->|Hin]; [by left|].
  right. destruct (stops _ _ operation); [by inversion Hin|auto].
Qed.

Lemma executeOperation_cases (entityType : EntityType) (user : string)
    (fetch : string → RequestInit → FetchResult)
    (store : gmap string (list (@Operation Payload))) (h : Hook) :
  executeOperation JSON_stringify entityType user fetch store h
    = (store, h, []) ∨
  (pendingOperations h ≠ [] ∧ isExecuting h = false ∧
   executeOperation JSON_stringify entityType user fetch store h
     = ((walk JSON_stringify entityType user fetch store
           (pendingOperations h)).1,
        {| pendingOperations :=
             stored entityType user
               (walk JSON_stringify entityType user fetch store
                  (pendingOperations h)).1;
           isExecuting := false |},
        (walk JSON_stringify entityType user fetch store
           (pendingOperations h)).2)).
Proof.
  destruct (pendingOperations h) as [|o l] eqn:Hp; [left|].
  { unfold executeOperation. by rewrite Hp. }
  destruct (isExecuting h) eqn:He; [left|right].
  { unfold executeOperation. by rewrite Hp, He. }
  split_and!; [done..|]. rewrite <- Hp.
  apply executeOperation_runs; [by rewrite Hp|done].
Qed.

(** The hook's list and the store entry under the hook's key hold the
    same operations. *)
Definition inStep (entityType : EntityType) (user : string)
    (store : gmap string (list (@Operation Payload))) (h : Hook) : Prop :=
  pendingOperations h = stored entityType user store.

Lemma saveOperation_inStep (entityType : EntityType) (user : string)
    (operationId : string) (now : Z) (ty : OperationType) (ep : string)
    (pl : Payload) (store : gmap string (list (@Operation Payload)))
    (h : Hook) :
  inStep entityType user store h →
  inStep entityType user
    (saveOperation entityType user operationId now ty ep pl store h).1
    (saveOperation entityType user operationId now ty ep pl store h).2.
Proof.
  unfold inStep, saveOperation. cbn [fst snd pendingOperations].
  intros ->. by rewrite stored_insert.
Qed.

Lemma executeOperation_inStep (entityType : EntityType) (user : string)
    (fetch : string → RequestInit → FetchResult)
    (store : gmap string (list (@Operation Payload))) (h : Hook) :
  inStep entityType user store h →
  inStep entityType user
    (executeOperation JSON_stringify entityType user fetch store h).1.1
    (executeOperation JSON_stringify entityType user fetch store h).1.2.
Proof.
  intros Hstep.
  destruct (executeOperation_cases entityType user fetch store h)
    as [->|(_ & _ & ->)]; done.
Qed.

Lemma executeOperation_idle (entityType : EntityType) (user : string)
    (fetch : string → RequestInit → FetchResult)
    (store : gmap string (list (@Operation Payload))) (h : Hook) :
  isExecuting h = false →
  isExecuting
    (executeOperation JSON_stringify entityType user fetch store h).1.2
  = false.
Proof.
  intros Hidle.
  destruct (executeOperation_cases entityType user fetch store h)
    as [->|(_ & _ & ->)]; done.
Qed.

Lemma executeOperation_other_keys (entityType : EntityType) (user : string)
    (fetch : string → RequestInit → FetchResult)
    (store : gmap string (list (@Operation Payload))) (h : Hook) k :
  k ≠ getStoreKey entityType user →
  (executeOperation JSON_stringify entityType user fetch store h).1.1 !! k
  = store !! k.
Proof.
  intros Hk.
  destruct (executeOperation_cases entityType user fetch store h)
    as [->|(_ & _ & ->)]; cbn [fst snd]; [done|].
  by apply walk_other_keys.
Qed.

(** What a component does with its hook, call after call. *)
Inductive Action : Type :=
| Save (operationId : string) (now : Z) (ty : OperationType) (ep : string)
    (pl : Payload)
| Execute (fetch : string → RequestInit → FetchResult).

Definition act (entityType : EntityType) (user : string)
    (st : gmap string (list (@Operation Payload)) * Hook) (a : Action)
    : gmap string (list (@Operation Payload)) * Hook :=
  match a with
  | Save operationId now ty ep pl =>
      saveOperation entityType user operationId now ty ep pl st.1 st.2
  | Execute fetch =>
      (executeOperation JSON_stringify entityType user fetch st.1 st.2).1
  end.

(** X1.  The hook's list follows the store.  From the mount of the hook
    (its effect loads the list from the store) and through any sequence
    of [saveOperation] and [executeOperation] calls, whatever the remote
    calls do, the list the hook returns is the entry of the store under
    the hook's key, [isExecuting] is clear between the calls, and no other
    key of the store has changed. *)
Theorem useOperations_list_follows_store
    (entityType : EntityType) (user : string)
    (store : gmap string (list (@Operation Payload)))
    (actions : list Action) :
  pendingOperations
    (foldl (act entityType user)
       (store, loadOperations entityType user store
                 {| pendingOperations := []; isExecuting := false |})
       actions).2
  = stored entityType user
      (foldl (act entityType user)
         (store, loadOperations entityType user store
                   {| pendingOperations := []; isExecuting := false |})
         actions).1 ∧
  isExecuting
    (foldl (act entityType user)
       (store, loadOperations entityType user store
                 {| pendingOperations := []; isExecuting := false |})
       actions).2 = false ∧
  (∀ k, k ≠ getStoreKey entityType user →
     (foldl (act entityType user)
        (store, loadOperations entityType user store
                  {| pendingOperations := []; isExecuting := false |})
        actions).1 !! k = store !! k).
Proof.
  assert (∀ st,
            inStep entityType user st.1 st.2 → isExecuting st.2 = false →
            inStep entityType user
              (foldl (act entityType user) st actions).1
              (foldl (act entityType user) st actions).2 ∧
            isExecuting (foldl (act entityType user) st actions).2 = false ∧
            ∀ k, k ≠ getStoreKey entityType user →
                 (foldl (act entityType user) st actions).1 !! k = st.1 !! k)
    as Hall.
  { induction actions as [|a actions IH]; intros [st h] Hstep Hidle; [done|].
    cbn [foldl fst snd] in *.
    destruct (IH (act entityType user (st, h) a)) as (H1 & H2 & H3).
    - destruct a; cbn [act fst snd].
      + by apply saveOperation_inStep.
      + by apply executeOperation_inStep.
    - destruct a; cbn [act fst snd]; [done|].
      by apply executeOperation_idle.
    - split_and!; [done..|]. intros k Hk. rewrite (H3 k Hk).
      destruct a; cbn [act fst snd].
      + unfold saveOperation. cbn [fst]. by rewrite lookup_insert_ne.
      + by apply executeOperation_other_keys. }
  apply (Hall (store, _)); done.
Qed.

(** X2.  A pass never adds to the queue and never reorders it: whatever the
    remote calls do, the entry under the hook's key afterwards is a
    sublist of the entry before.  An entry whose id is the id of no
    operation in the hook's list (one saved through another instance of
    the hook since this one last loaded) is never dropped, and no other
    key of the store changes. *)
Theorem executeOperation_only_removes
    (entityType : EntityType) (user : string)
    (fetch : string → RequestInit → FetchResult)
    (store : gmap string (list (@Operation Payload))) (h : Hook) :
  sublist
    (stored entityType user
       (executeOperation JSON_stringify entityType user fetch store h).1.1)
    (stored entityType user store) ∧
  (∀ o, o ∈ stored entityType user store →
        op_id o ∉ op_id <$> pendingOperations h →
        o ∈ stored entityType user
              (executeOperation JSON_stringify entityType user fetch store h).1.1) ∧
  (∀ k, k ≠ getStoreKey entityType user →
        (executeOperation JSON_stringify entityType user fetch store h).1.1 !! k
        = store !! k).
Proof.
  destruct (executeOperation_cases entityType user fetch store h)
    as [->|(_ & _ & ->)]; cbn [fst snd]; [done|].
  rewrite walk_stored. split_and!.
  - apply sublist_filter.
  - intros o Ho Hid. apply list_elem_of_filter. split; [|done].
    intros Hrem. apply Hid. unfold removedIds in Hrem.
    apply list_elem_of_fmap in Hrem as (a & -> & Ha).
    apply list_elem_of_filter in Ha as [_ Ha].
    apply list_elem_of_fmap_2. by eapply reached_elem.
  - intros k Hk. by apply walk_other_keys.
Qed.

(** X3.  Queues do not leak into each other: a save or a pass of the hook for
    one entity type and user leaves the entry of every other entity type or
    user as it was. *)
Theorem useOperations_queues_isolated
    (e1 e2 : EntityType) (u1 u2 : string)
    (fetch : string → RequestInit → FetchResult)
    (store : gmap string (list (@Operation Payload))) (h : Hook)
    (operationId : string) (now : Z) (ty : OperationType) (ep : string)
    (pl : Payload) :
  (e1, u1) ≠ (e2, u2) →
  stored e2 u2 (executeOperation JSON_stringify e1 u1 fetch store h).1.1
    = stored e2 u2 store ∧
  stored e2 u2 (saveOperation e1 u1 operationId now ty ep pl store h).1
    = stored e2 u2 store.
Proof.
  intros Hne.
  assert (getStoreKey e2 u2 ≠ getStoreKey e1 u1) as Hk.
  { intros Heq. apply getStoreKey_inj in Heq as [-> ->]. done. }
  split.
  - destruct (executeOperation_cases e1 u1 fetch store h)
      as [->|(_ & _ & ->)]; cbn [fst snd]; [done|].
    unfold stored. by rewrite walk_other_keys.
  - unfold saveOperation, stored. cbn [fst].
    by rewrite lookup_insert_ne.
Qed.

End Frame.

Lemma useOperations_queues_isolated_witness :
  stored course "u1"
    (executeOperation (λ s : string, s) task "u1" net500
       {["task_u1" := [opA; opB]; "course_u1" := [opC]]}
       {| pendingOperations := [opA; opB]; isExecuting := false |}).1.1
    = stored course "u1" {["task_u1" := [opA; opB]; "course_u1" := [opC]]} ∧
  stored course "u1"
    (saveOperation task "u1" "task_1700000000004_p0o9i8u" 1700000000004
       OpUpdate "/rest/tasks/9" "{}"
       {["task_u1" := [opA; opB]; "course_u1" := [opC]]}
       {| pendingOperations := [opA; opB]; isExecuting := false |}).1
    = stored course "u1" {["task_u1" := [opA; opB]; "course_u1" := [opC]]}.
Proof.
  apply (useOperations_queues_isolated (λ s : string, s) task course "u1" "u1").
  discriminate.
Defined.

End Operations.

(* ===================================================================== *)
(** * src/utils/offlineStorage.ts *)
(* ===================================================================== *)

Module OfflineStorage.
Import JS.

Definition DB_NAME : string := "nesttask_offline_db".
Definition DB_VERSION : Z := 4.

(** [STORES] *)
Definition TASKS : string := "tasks".
Definition ROUTINES : string := "routines".
Definition USER_DATA : string := "userData".
Definition COURSES : string := "courses".
Definition MATERIALS : string := "materials".
Definition TEACHERS : string := "teachers".
Definition PENDING_TASK_OPS : string := "pendingTaskOperations".
Definition PENDING_ROUTINE_OPS : string := "pendingRoutineOperations".
Definition PENDING_COURSE_OPS : string := "pendingCourseOperations".
Definition PENDING_TEACHER_OPS : string := "pendingTeacherOperations".

(** Cache expiration time in milliseconds (4 hours). *)
Definition CACHE_EXPIRATION : Z := 4 * 60 * 60 * 1000.

(** ** IndexedDB, as far as the file uses it *)

(** Keys are numbers or strings; a record is an object. *)
Abbreviation Key := (Z + string)%type.
Abbreviation Item := (gmap string Value).

Definition toKey (v : Value) : option Key :=
  match v with
  | VNum n => Some (inl n)
  | VStr s => Some (inr s)
  | _ => None
  end.

(** An object store with [keyPath: 'id']. *)
Record ObjectStore : Type :=
  { autoIncrement : bool;
    keyGenerator : Z;
    rows : gmap Key Item }.

Record Database : Type :=
  { version : Z;
    stores : gmap string ObjectStore }.

Definition DataError : Error :=
  mkError (DOMExceptionC "DataError") "The data provided does not meet requirements.".
Definition NotFoundError : Error :=
  mkError (DOMExceptionC "NotFoundError") "One of the specified object stores was not found.".
Definition VersionError : Error :=
  mkError (DOMExceptionC "VersionError") "The requested version is less than the existing version.".

(** What the platform does to one call: whether [indexedDB.open] fails,
    and whether the request placed as number [i] in the transaction on a
    store fires [onerror] instead of [onsuccess]. *)
Record Env : Type :=
  { open_error : option Error;
    request_error : string → nat → option Error }.

Definition healthy : Env :=
  {| open_error := None; request_error := λ _ _, None |}.

(** [if (!db.objectStoreNames.contains(name)) db.createObjectStore(name, ...)] *)
Definition createIfMissing (name : string) (auto : bool)
    (ss : gmap string ObjectStore) : gmap string ObjectStore :=
  match ss !! name with
  | Some _ => ss
  | None => <[name := {| autoIncrement := auto; keyGenerator := 1; rows := ∅ |}]> ss
  end.

Definition onupgradeneeded (ss : gmap string ObjectStore)
    : gmap string ObjectStore :=
  createIfMissing PENDING_TEACHER_OPS true
  (createIfMissing PENDING_COURSE_OPS true
  (createIfMissing PENDING_ROUTINE_OPS true
  (createIfMissing PENDING_TASK_OPS true
  (createIfMissing TEACHERS false
  (createIfMissing MATERIALS false
  (createIfMissing COURSES false
  (createIfMissing USER_DATA false
  (createIfMissing ROUTINES false
  (createIfMissing TASKS false ss))))))))).

(** [openDatabase]: the promise is rejected with the open error, else
    resolved with the connection, after the upgrade if one was needed. *)
Definition openDatabase (env : Env) (db : Database) : Error + Database :=
  match open_error env with
  | Some e => inl e
  | None =>
      if DB_VERSION <? version db then inl VersionError
      else if version db <? DB_VERSION then
        inr {| version := DB_VERSION; stores := onupgradeneeded (stores db) |}
      else inr db
  end.

(** [store.put(item)] on a store with key path [id]: the key is read from
    the item; an auto-increment store generates one for an item that has
    none; any other value at [id] throws [DataError].  The key generator
    is a counter without bound: the generator of the platform gives no
    key once its number has passed 2^53 (the request then fails with
    [ConstraintError]), so what is said below of a generated key is said
    of a store whose generator has not passed 2^53. *)
Definition put (os : ObjectStore) (item : Item) : Error + ObjectStore :=
  match field item "id" with
  | VUndefined =>
      if autoIncrement os then
        inr {| autoIncrement := true;
               keyGenerator := keyGenerator os + 1;
               rows := <[inl (keyGenerator os) :=
                           <["id" := VNum (keyGenerator os)]> item]> (rows os) |}
      else inl DataError
  | v =>
      match toKey v with
      | Some k =>
          inr {| autoIncrement := autoIncrement os;
                 keyGenerator :=
                   match k with
                   | inl n => Z.max (keyGenerator os) (n + 1)
                   | inr _ => keyGenerator os
                   end;
                 rows := <[k := item]> (rows os) |}
      | None => inl DataError
      end
  end.

(** [store.getAll()] *)
Definition getAll (os : ObjectStore) : list Item := (map_to_list (rows os)).*2.

Definition setStore (name : string) (os : ObjectStore) (db : Database)
    : Database :=
  {| version := version db; stores := <[name := os]> (stores db) |}.

(** The record under a key of a store, if the store and the record exist. *)
Definition row (db : Database) (name : string) (k : Key) : option Item :=
  stores db !! name ≫= λ os, rows os !! k.

Section Clock.
(** [new Date(t).toISOString()] and [new Date(v).getTime()] ([None] for an
    invalid date, whose time is [NaN]). *)
Variable toISOString : Z → string.
Variable getTime : Value → option Z.

(** [if (!item.cached_at) item.cached_at = new Date().toISOString()] *)
Definition stamp (now : Z) (item : Item) : Item :=
  if truthy (field item "cached_at") then item
  else <["cached_at" := VStr (toISOString now)]> item.

Inductive Data : Type :=
| Single (item : Item)
| Array (items : list Item).

(** [data.forEach(item => { ...; store.put(item); ... })]: the requests
    placed before a [put] throws, their number, and what was thrown. *)
Fixpoint placeAll (now : Z) (os : ObjectStore) (items : list Item)
    : ObjectStore * nat * option Error :=
  match items with
  | [] => (os, 0%nat, None)
  | item :: rest =>
      match put os (stamp now item) with
      | inl e => (os, 0%nat, Some e)
      | inr os1 =>
          let '(os2, n, thrown) := placeAll now os1 rest in
          (os2, S n, thrown)
      end
  end.

(** All the upserts of an array applied in order, when none throws. *)
Fixpoint putAll (now : Z) (os : ObjectStore) (items : list Item)
    : option ObjectStore :=
  match items with
  | [] => Some os
  | item :: rest =>
      match put os (stamp now item) with
      | inl _ => None
      | inr os1 => putAll now os1 rest
      end
  end.

(** The events of the [n] requests placed by the array branch, from
    request number [i] on.  [onsuccess] counts and resolves at [total];
    [onerror] rejects, the error reaches [transaction.onerror], and the
    transaction is rolled back.  The boolean tells whether the
    transaction commits. *)
Fixpoint fireArray (err : nat → option Error) (total : nat)
    (i n completed : nat) (p : Promise unit) : Promise unit * bool :=
  match n with
  | O => (p, true)
  | S n' =>
      match err i with
      | Some e => (reject e (reject e p), false)
      | None =>
          let completed := S completed in
          let p := if (completed =? total)%nat then resolve tt p else p in
          fireArray err total (S i) n' completed p
      end
  end.

(** [saveToIndexedDB].  The promise built inside is returned as it is, so
    its rejections are the function's; the [catch] rethrows. *)
Definition saveToIndexedDB (env : Env) (now : Z) (storeName : string)
    (data : Data) (db : Database) : Promise unit * Database :=
  match openDatabase env db with
  | inl e => (Rejected e, db)
  | inr db1 =>
      match stores db1 !! storeName with
      | None => (Rejected NotFoundError, db1)
      | Some os =>
          match data with
          | Array items =>
              let total := length items in
              let '(os', placed, thrown) := placeAll now os items in
              let p0 := match thrown with
                        | Some e => reject e Pending
                        | None => Pending
                        end in
              let '(p, committed) :=
                fireArray (request_error env storeName) total 0 placed 0 p0 in
              (p, if committed then setStore storeName os' db1 else db1)
          | Single item =>
              match put os (stamp now item) with
              | inl e => (Rejected e, db1)
              | inr os' =>
                  match request_error env storeName 0 with
                  | Some e => (reject e (reject e Pending), db1)
                  | None => (resolve tt Pending, setStore storeName os' db1)
                  end
              end
          end
      end
  end.

(** [getAllFromIndexedDB].  Only [await openDatabase()] is inside the
    reach of the [try]: the promise built afterwards is returned without
    [await], so when it is rejected the function's promise is rejected. *)
Definition getAllFromIndexedDB (env : Env) (storeName : string)
    (db : Database) : Promise (list Item) * Database :=
  match openDatabase env db with
  | inl e => (Resolved [], db)
  | inr db1 =>
      match stores db1 !! storeName with
      | None => (Rejected NotFoundError, db1)
      | Some os =>
          match request_error env storeName 0 with
          | Some e => (Rejected e, db1)
          | None => (Resolved (getAll os), db1)
          end
      end
  end.

(** [getByIdFromIndexedDB]; [None] stands for [null]. *)
Definition getByIdFromIndexedDB (env : Env) (storeName : string)
    (id : Value) (db : Database) : Promise (option Item) * Database :=
  match openDatabase env db with
  | inl e => (Resolved None, db)
  | inr db1 =>
      match stores db1 !! storeName with
      | None => (Rejected NotFoundError, db1)
      | Some os =>
          match toKey id with
          | None => (Rejected DataError, db1)
          | Some k =>
              match request_error env storeName 0 with
              | Some e => (Rejected e, db1)
              | None => (Resolved (rows os !! k), db1)
              end
          end
      end
  end.

(** [deleteFromIndexedDB] *)
Definition deleteFromIndexedDB (env : Env) (storeName : string)
    (id : Value) (db : Database) : Promise unit * Database :=
  match openDatabase env db with
  | inl e => (Rejected e, db)
  | inr db1 =>
      match stores db1 !! storeName with
      | None => (Rejected NotFoundError, db1)
      | Some os =>
          match toKey id with
          | None => (Rejected DataError, db1)
          | Some k =>
              match request_error env storeName 0 with
              | Some e => (Rejected e, db1)
              | None =>
                  (Resolved tt,
                   setStore storeName
                     {| autoIncrement := autoIncrement os;
                        keyGenerator := keyGenerator os;
                        rows := delete k (rows os) |} db1)
              end
          end
      end
  end.

(** The test of the inner loop of [cleanupStaleCacheData]: the item has a
    truthy [cached_at] and [now - cachedAt.getTime() > CACHE_EXPIRATION]. *)
Definition stale (now : Z) (item : Item) : bool :=
  truthy (field item "cached_at") &&
  match getTime (field item "cached_at") with
  | Some cachedAt => CACHE_EXPIRATION <? now - cachedAt
  | None => false
  end.

(** [request.onsuccess] of one store: one [deleteFromIndexedDB] per stale
    item, each on a connection of its own. *)
Definition sweep (denv : string → Value → Env) (now : Z)
    (storeName : string) (items : list Item) (db : Database) : Database :=
  foldl (λ acc item,
           if stale now item then
             (deleteFromIndexedDB (denv storeName (field item "id"))
                storeName (field item "id") acc).2
           else acc)
        db items.

(** The body of the loop of [cleanupStaleCacheData] over the store
    names, with what its [getAll] request leads to.  [db1] is the
    database as the loop finds it: every [getAll] is placed before any
    deletion starts. *)
Definition cleanupStore (env : Env) (denv : string → Value → Env)
    (now : Z) (db1 : Database) (acc : Database) (storeName : string)
    : Database :=
  if startsWith storeName "pending" then acc
  else
    match stores db1 !! storeName with
    | None => acc
    | Some os =>
        match request_error env storeName 0 with
        | Some e => acc
        | None => sweep denv now storeName (getAll os) acc
        end
    end.

(** [cleanupStaleCacheData].  Its promise is fulfilled as soon as the
    loop has placed the [getAll] requests; the database returned is the
    one left when the callbacks and the deletions they start have run. *)
Definition cleanupStaleCacheData (env : Env) (denv : string → Value → Env)
    (now : Z) (db : Database) : Promise unit * Database :=
  match openDatabase env db with
  | inl e => (Resolved tt, db)
  | inr db1 =>
      let storeNames := (map_to_list (stores db1)).*1 in
      (Resolved tt, foldl (cleanupStore env denv now db1) db1 storeNames)
  end.

(** ** Facts about the model of IndexedDB *)

Lemma createIfMissing_lookup name auto ss n :
  createIfMissing name auto ss !! n =
    match ss !! n with
    | Some os => Some os
    | None => if decide (name = n)
              then Some {| autoIncrement := auto; keyGenerator := 1; rows := ∅ |}
              else None
    end.
Proof.
  unfold createIfMissing. destruct (ss !! name) as [os|] eqn:Hn.
  - destruct (ss !! n) eqn:Hn'; [done|]. case_decide; [congruence|done].
  - rewrite lookup_insert. case_decide as Heq.
    + subst. by rewrite Hn.
    + by destruct (ss !! n).
Qed.

Lemma createIfMissing_rows name auto ss n k :
  (createIfMissing name auto ss !! n ≫= λ os, rows os !! k)
  = (ss !! n ≫= λ os, rows os !! k).
Proof.
  rewrite createIfMissing_lookup. destruct (ss !! n); [done|].
  by case_decide.
Qed.

(** Opening never changes a record: the upgrade only adds empty stores. *)
Lemma openDatabase_row env db db1 name k :
  openDatabase env db = inr db1 → row db1 name k = row db name k.
Proof.
  unfold openDatabase, row. destruct (open_error env); [done|].
  destruct (DB_VERSION <? version db); [done|].
  destruct (version db <? DB_VERSION); intros [= <-]; [|done].
  cbn [stores]. unfold onupgradeneeded.
  by rewrite !createIfMissing_rows.
Qed.

Lemma openDatabase_version env db db1 :
  openDatabase env db = inr db1 → version db1 = DB_VERSION.
Proof.
  unfold openDatabase. destruct (open_error env); [done|].
  destruct (DB_VERSION <? version db) eqn:H1; [done|].
  destruct (version db <? DB_VERSION) eqn:H2; intros [= <-]; [done|].
  apply Z.ltb_ge in H1, H2. lia.
Qed.

(** A connection at the current version opens again as it is. *)
Lemma openDatabase_current env db :
  open_error env = None → version db = DB_VERSION →
  openDatabase env db = inr db.
Proof.
  intros Ho Hv. unfold openDatabase. rewrite Ho, Hv.
  by rewrite Z.ltb_irrefl.
Qed.

Lemma row_setStore name os db n k :
  row (setStore name os db) n k =
    if decide (name = n) then rows os !! k else row db n k.
Proof.
  unfold row, setStore. cbn [stores]. rewrite lookup_insert.
  by case_decide.
Qed.

(** ** The promise of the array branch *)

Lemma fireArray_settled err total : ∀ n i completed (p : Promise unit),
  p ≠ Pending → (fireArray err total i n completed p).1 = p.
Proof.
  induction n as [|n IH]; intros i completed p Hp; [done|].
  cbn [fireArray]. destruct (err i) as [e|].
  - by destruct p.
  - rewrite IH; by destruct p, (_ =? _)%nat.
Qed.

(** From a pending promise with [completed] successes counted, [n]
    requests to go and no more than [total] requests in all, the promise
    is resolved exactly when the requests to go are the missing ones, at
    least one, and all of them succeed. *)
Lemma fireArray_resolved err total : ∀ n i completed,
  (completed + n ≤ total)%nat →
  (fireArray err total i n completed Pending).1 = Resolved tt ↔
  (0 < n)%nat ∧ (completed + n = total)%nat ∧
  ∀ j, (j < n)%nat → err (i + j)%nat = None.
Proof.
  induction n as [|n IH]; intros i completed Hle.
  - cbn. split; [done|]. intros [? _]. lia.
  - cbn [fireArray]. destruct (err i) as [e|] eqn:He.
    + cbn. split; [done|]. intros (_ & _ & Hall).
      specialize (Hall 0%nat). rewrite Nat.add_0_r, He in Hall.
      by specialize (Hall ltac:(lia)).
    + destruct (S completed =? total)%nat eqn:Heq.
      * apply Nat.eqb_eq in Heq. assert (n = 0)%nat as -> by lia.
        cbn. split; [|done]. intros _. repeat split; [lia..|].
        intros j Hj. assert (j = 0)%nat as -> by lia.
        by rewrite Nat.add_0_r.
      * apply Nat.eqb_neq in Heq. rewrite IH by lia. split.
        -- intros (Hn & Htot & Hall). repeat split; [lia..|].
           intros [|j] Hj; [by rewrite Nat.add_0_r|].
           rewrite <- Nat.add_succ_comm. apply Hall. lia.
        -- intros (_ & Htot & Hall). repeat split; [lia..|].
           intros j Hj. rewrite Nat.add_succ_comm. apply Hall. lia.
Qed.

(** Requests that all succeed leave the transaction to commit. *)
Lemma fireArray_commits err total : ∀ n i completed (p : Promise unit),
  (∀ j, (j < n)%nat → err (i + j)%nat = None) →
  (fireArray err total i n completed p).2 = true.
Proof.
  induction n as [|n IH]; intros i completed p Hall; [done|].
  cbn [fireArray]. rewrite <- (Nat.add_0_r i) at 1.
  rewrite (Hall 0%nat) by lia. apply IH.
  intros j Hj. rewrite Nat.add_succ_comm. apply Hall. lia.
Qed.

(** [forEach] places a request per item unless a [put] throws. *)
Lemma placeAll_placed now : ∀ items os,
  ((placeAll now os items).1.2 ≤ length items)%nat.
Proof.
  induction items as [|item rest IH]; intros os; cbn [placeAll]; [done|].
  destruct (put os (stamp now item)) as [e|os1]; cbn; [lia|].
  specialize (IH os1). destruct (placeAll now os1 rest) as [[os2 n] thrown].
  cbn in *. lia.
Qed.

Lemma placeAll_all now : ∀ items os,
  (placeAll now os items).2 = None ↔
  (placeAll now os items).1.2 = length items.
Proof.
  induction items as [|item rest IH]; intros os; cbn [placeAll]; [done|].
  destruct (put os (stamp now item)) as [e|os1]; cbn; [done|].
  specialize (IH os1). pose proof (placeAll_placed now rest os1) as Hle.
  destruct (placeAll now os1 rest) as [[os2 n] thrown].
  cbn in *. rewrite IH. split; lia.
Qed.

Lemma placeAll_putAll now : ∀ items os os' n,
  placeAll now os items = (os', n, None) ↔
  putAll now os items = Some os' ∧ n = length items.
Proof.
  induction items as [|item rest IH]; intros os os' n; cbn [placeAll putAll].
  - cbn. split; [by intros [= -> <-]|by intros [[= ->] ->]].
  - destruct (put os (stamp now item)) as [e|os1].
    + split; [done|by intros [? _]].
    + destruct (placeAll now os1 rest) as [[os2 m] thrown] eqn:Hpl.
      cbn [length]. split.
      * intros [= -> <- ->]. apply IH in Hpl as [-> ->]. done.
      * intros [Hput ->]. destruct thrown as [e|].
        -- pose proof (IH os1 os' (length rest)) as Hiff.
           apply proj2 in Hiff. specialize (Hiff (conj Hput eq_refl)).
           rewrite Hpl in Hiff. done.
        -- apply IH in Hpl as [Hput' ->]. congruence.
Qed.

(** An empty array is never answered with a resolved promise, whatever
    the platform does. *)
Lemma saveToIndexedDB_empty_array_not_resolved env now storeName db :
  (saveToIndexedDB env now storeName (Array []) db).1 ≠ Resolved tt.
Proof.
  unfold saveToIndexedDB. destruct (openDatabase env db) as [e|db1]; [done|].
  by destruct (stores db1 !! storeName).
Qed.

(** C10.  Once the database is open and the store exists, the promise of
    [saveToIndexedDB] for an empty array stays pending for ever, and the
    promise for a non-empty array is resolved exactly when every upsert
    was placed and every request fired [onsuccess]; the store then holds
    the result of all of them. *)
Theorem saveToIndexedDB_array_resolution
    (env : Env) (now : Z) (storeName : string)
    (db db1 : Database) (os : ObjectStore) :
  openDatabase env db = inr db1 →
  stores db1 !! storeName = Some os →
  (saveToIndexedDB env now storeName (Array []) db).1 = Pending ∧
  ∀ items db', items ≠ [] →
    saveToIndexedDB env now storeName (Array items) db = (Resolved tt, db') ↔
    ∃ os', putAll now os items = Some os' ∧
           (∀ j, (j < length items)%nat →
                 request_error env storeName j = None) ∧
           db' = setStore storeName os' db1.
Proof.
  intros Hopen Hstore. unfold saveToIndexedDB. rewrite Hopen, Hstore.
  split; [done|]. intros items db' Hne.
  destruct (placeAll now os items) as [[os2 placed] thrown] eqn:Hpl.
  destruct thrown as [e|].
  - destruct (fireArray _ _ _ _ _ _) as [p committed] eqn:Hfire.
    assert (p = Rejected e) as ->.
    { pose proof (fireArray_settled (request_error env storeName)
                    (length items) placed 0%nat 0%nat (Rejected e)) as Hs.
      cbn [reject] in Hfire. rewrite Hfire in Hs. by apply Hs. }
    split; [done|]. intros (os' & Hput & _).
    pose proof (proj2 (placeAll_putAll now items os os' (length items))
                  (conj Hput eq_refl)) as Hpl'.
    rewrite Hpl in Hpl'. done.
  - apply placeAll_putAll in Hpl as [Hput ->].
    pose proof (fireArray_resolved (request_error env storeName)
                  (length items) (length items) 0%nat 0%nat ltac:(lia)) as Hres.
    pose proof (fireArray_commits (request_error env storeName)
                  (length items) (length items) 0%nat 0%nat Pending) as Hcom.
    destruct (fireArray _ _ _ _ _ _) as [p committed]. cbn [fst snd] in *.
    split.
    + intros [= -> <-]. apply proj1 in Hres.
      destruct (Hres eq_refl) as (_ & _ & Hall).
      rewrite (Hcom Hall). eauto.
    + intros (os' & Hput' & Hall & ->).
      assert (os' = os2) as -> by congruence.
      rewrite (Hcom Hall). f_equal. apply Hres.
      repeat split; [|done..]. destruct items; [done|cbn; lia].
Qed.

(** ** Writing a record and reading it back *)

Lemma stamp_other now (r : Item) f :
  f ≠ "cached_at" → stamp now r !! f = r !! f.
Proof.
  intros Hf. unfold stamp. destruct (truthy _); [done|].
  by rewrite lookup_insert_ne.
Qed.

Lemma stamp_cached_at now (r : Item) :
  stamp now r !! "cached_at" =
    Some (if truthy (field r "cached_at") then field r "cached_at"
          else VStr (toISOString now)).
Proof.
  unfold stamp, field. destruct (r !! "cached_at") as [v|] eqn:Hc; cbn.
  - destruct (truthy v); [done|]. by rewrite lookup_insert_eq.
  - by rewrite lookup_insert_eq.
Qed.

Lemma put_keyed os (item : Item) k :
  toKey (field item "id") = Some k →
  ∃ os', put os item = inr os' ∧ rows os' = <[k := item]> (rows os).
Proof.
  unfold put. destruct (field item "id"); cbn; try done;
    intros [= <-]; eauto.
Qed.

(** C3.  When [saveToIndexedDB] of a single record with a valid id
    resolves, a [getByIdFromIndexedDB] of that id whose open and read do
    not fail resolves with the record as it was stamped: every field but
    [cached_at] is the input's, and [cached_at] is set, to the input's
    value when that was truthy and to the time of the write otherwise. *)
Theorem saveToIndexedDB_getByIdFromIndexedDB
    (env env' : Env) (now : Z) (storeName : string) (r : Item) (k : Key)
    (db db' : Database) :
  toKey (field r "id") = Some k →
  saveToIndexedDB env now storeName (Single r) db = (Resolved tt, db') →
  open_error env' = None →
  request_error env' storeName 0 = None →
  ∃ r',
    getByIdFromIndexedDB env' storeName (field r "id") db'
      = (Resolved (Some r'), db') ∧
    (∀ f, f ≠ "cached_at" → r' !! f = r !! f) ∧
    r' !! "cached_at" =
      Some (if truthy (field r "cached_at") then field r "cached_at"
            else VStr (toISOString now)).
Proof.
  intros Hk Hsave Hopen' Hreq'. exists (stamp now r).
  split; [|split; [apply stamp_other|apply stamp_cached_at]].
  revert Hsave. unfold saveToIndexedDB.
  destruct (openDatabase env db) as [e|db1] eqn:Hopen; [done|].
  destruct (stores db1 !! storeName) as [os|] eqn:Hstore; [|done].
  assert (toKey (field (stamp now r) "id") = Some k) as Hk'.
  { unfold field. by rewrite stamp_other. }
  destruct (put_keyed os _ _ Hk') as (os' & -> & Hrows).
  destruct (request_error env storeName 0); [done|].
  cbn [resolve]. intros [= <-].
  unfold getByIdFromIndexedDB.
  rewrite openDatabase_current;
    [|done|by apply openDatabase_version in Hopen].
  unfold setStore at 1. cbn [stores]. rewrite lookup_insert_eq, Hk, Hreq'.
  by rewrite Hrows, lookup_insert_eq.
Qed.

(** ** Reading a whole store *)

Lemma getAllFromIndexedDB_open_failure env storeName db e :
  open_error env = Some e →
  getAllFromIndexedDB env storeName db = (Resolved [], db).
Proof. intros He. unfold getAllFromIndexedDB, openDatabase. by rewrite He. Qed.

Lemma getAllFromIndexedDB_success env storeName db db1 os :
  openDatabase env db = inr db1 →
  stores db1 !! storeName = Some os →
  request_error env storeName 0 = None →
  getAllFromIndexedDB env storeName db = (Resolved (getAll os), db1).
Proof.
  intros Ho Hs Hr. unfold getAllFromIndexedDB. by rewrite Ho, Hs, Hr.
Qed.

Lemma getAllFromIndexedDB_request_failure env storeName db db1 os e :
  openDatabase env db = inr db1 →
  stores db1 !! storeName = Some os →
  request_error env storeName 0 = Some e →
  getAllFromIndexedDB env storeName db = (Rejected e, db1).
Proof.
  intros Ho Hs Hr. unfold getAllFromIndexedDB. by rewrite Ho, Hs, Hr.
Qed.

Lemma getAllFromIndexedDB_missing_store env storeName db db1 :
  openDatabase env db = inr db1 →
  stores db1 !! storeName = None →
  getAllFromIndexedDB env storeName db = (Rejected NotFoundError, db1).
Proof.
  intros Ho Hs. unfold getAllFromIndexedDB. by rewrite Ho, Hs.
Qed.

(** ** Cleaning up stale records *)

(** Records sit under the key read from their [id]: what [put] ensures
    for a store with key path [id]. *)
Definition wellKeyed (db : Database) : Prop :=
  ∀ name k item, row db name k = Some item → toKey (field item "id") = Some k.

Lemma deleteFromIndexedDB_db env storeName id db :
  version db = DB_VERSION →
  (deleteFromIndexedDB env storeName id db).2 =
    match open_error env, stores db !! storeName, toKey id,
          request_error env storeName 0 with
    | None, Some os, Some k, None =>
        setStore storeName
          {| autoIncrement := autoIncrement os;
             keyGenerator := keyGenerator os;
             rows := delete k (rows os) |} db
    | _, _, _, _ => db
    end.
Proof.
  intros Hv. unfold deleteFromIndexedDB.
  destruct (open_error env) as [e|] eqn:Ho.
  - unfold openDatabase. by rewrite Ho.
  - rewrite openDatabase_current by done.
    destruct (stores db !! storeName) as [os|]; [|done].
    destruct (toKey id) as [k|]; [|done].
    by destruct (request_error env storeName 0).
Qed.

(** One deletion leaves every record as it was, but the one under the key
    deleted, which is gone if the deletion went through. *)
Lemma deleteFromIndexedDB_row env storeName id db n k :
  version db = DB_VERSION →
  row (deleteFromIndexedDB env storeName id db).2 n k = row db n k ∨
  (n = storeName ∧ toKey id = Some k ∧
   row (deleteFromIndexedDB env storeName id db).2 n k = None).
Proof.
  intros Hv. rewrite deleteFromIndexedDB_db by done.
  destruct (open_error env); [by left|].
  destruct (stores db !! storeName) as [os|] eqn:Hs; [|by left].
  destruct (toKey id) as [k'|]; [|by left].
  destruct (request_error env storeName 0); [by left|].
  rewrite row_setStore. case_decide as Hn; [|by left]. subst n.
  cbn [rows]. rewrite lookup_delete. case_decide as Hk.
  - subst. right. done.
  - left. unfold row. by rewrite Hs.
Qed.

Lemma deleteFromIndexedDB_kept env storeName id db :
  version db = DB_VERSION →
  version (deleteFromIndexedDB env storeName id db).2 = DB_VERSION ∧
  ∀ n, is_Some (stores db !! n) →
       is_Some (stores (deleteFromIndexedDB env storeName id db).2 !! n).
Proof.
  intros Hv. rewrite deleteFromIndexedDB_db by done.
  destruct (open_error env); [done|].
  destruct (stores db !! storeName) as [os|] eqn:Hs; [|done].
  destruct (toKey id) as [k'|]; [|done].
  destruct (request_error env storeName 0); [done|].
  split; [done|]. intros n Hn. unfold setStore. cbn [stores].
  rewrite lookup_insert. case_decide; eauto.
Qed.

Lemma deleteFromIndexedDB_gone storeName id db k :
  version db = DB_VERSION →
  is_Some (stores db !! storeName) →
  toKey id = Some k →
  row (deleteFromIndexedDB healthy storeName id db).2 storeName k = None.
Proof.
  intros Hv [os Hs] Hk. rewrite deleteFromIndexedDB_db by done.
  cbn [healthy open_error request_error]. rewrite Hs, Hk.
  rewrite row_setStore, decide_True by done.
  cbn [rows]. by rewrite lookup_delete_eq.
Qed.

Section Sweep.
Variable denv : string → Value → Env.
Variable now : Z.
Variable storeName : string.

Lemma sweep_cons item items db :
  sweep denv now storeName (item :: items) db =
    sweep denv now storeName items
      (if stale now item then
         (deleteFromIndexedDB (denv storeName (field item "id"))
            storeName (field item "id") db).2
       else db).
Proof. done. Qed.

Lemma sweep_kept : ∀ items db,
  version db = DB_VERSION →
  version (sweep denv now storeName items db) = DB_VERSION ∧
  ∀ n, is_Some (stores db !! n) →
       is_Some (stores (sweep denv now storeName items db) !! n).
Proof.
  induction items as [|item items IH]; intros db Hv; [done|].
  rewrite sweep_cons. destruct (stale now item).
  - pose proof (deleteFromIndexedDB_kept
                  (denv storeName (field item "id")) storeName
                  (field item "id") db Hv) as [Hv' Hkeep].
    destruct (IH _ Hv') as [Hv'' Hkeep'']. split; [done|].
    intros n Hn. by apply Hkeep'', Hkeep.
  - by apply IH.
Qed.

(** A sweep leaves a record as it was, unless it is under the key of a
    stale item of the list swept, and then it is gone. *)
Lemma sweep_row : ∀ items db n k,
  version db = DB_VERSION →
  row (sweep denv now storeName items db) n k = row db n k ∨
  (n = storeName ∧
   row (sweep denv now storeName items db) n k = None ∧
   ∃ item, item ∈ items ∧ stale now item = true ∧
           toKey (field item "id") = Some k).
Proof.
  induction items as [|item items IH]; intros db n k Hv; [by left|].
  rewrite sweep_cons. destruct (stale now item) eqn:Hst.
  - pose proof (deleteFromIndexedDB_kept
                  (denv storeName (field item "id")) storeName
                  (field item "id") db Hv) as [Hv' _].
    destruct (IH _ n k Hv') as [Hsame|(-> & Hnone & item' & Hin & Hs' & Hk')].
    + rewrite Hsame.
      destruct (deleteFromIndexedDB_row
                  (denv storeName (field item "id")) storeName
                  (field item "id") db n k Hv) as [Hd|(-> & Hk & Hd)];
        [by left|].
      right. repeat split; [done|]. exists item. split; [by left|done].
    + right. repeat split; [done|]. exists item'. split; [by right|done].
  - destruct (IH db n k Hv) as [Hsame|(-> & Hnone & item' & Hin & Hs' & Hk')];
      [by left|].
    right. repeat split; [done|]. exists item'. split; [by right|done].
Qed.

End Sweep.

(** When no deletion fails, the record under the key of a stale item of
    the list swept is gone. *)
Lemma sweep_gone now storeName : ∀ items db item k,
  version db = DB_VERSION →
  is_Some (stores db !! storeName) →
  item ∈ items → stale now item = true →
  toKey (field item "id") = Some k →
  row (sweep (λ _ _, healthy) now storeName items db) storeName k = None.
Proof.
  induction items as [|item' items IH]; intros db item k Hv Hs Hin Hst Hk;
    [by inversion Hin|].
  rewrite sweep_cons. apply elem_of_cons in Hin as [<-|Hin].
  - rewrite Hst.
    pose proof (deleteFromIndexedDB_kept healthy storeName
                  (field item "id") db Hv) as [Hv' _].
    destruct (sweep_row (λ _ _, healthy) now storeName items _ storeName k Hv')
      as [Hsame|(_ & Hnone & _)]; [|done].
    rewrite Hsame. by apply deleteFromIndexedDB_gone.
  - destruct (stale now item').
    + pose proof (deleteFromIndexedDB_kept healthy storeName
                    (field item' "id") db Hv) as [Hv' Hkeep].
      apply (IH _ item); auto.
    + by apply (IH _ item).
Qed.

Section Loop.
Variable env : Env.
Variable denv : string → Value → Env.
Variable now : Z.
Variable db1 : Database.

Lemma cleanup_loop_kept : ∀ names acc,
  version acc = DB_VERSION →
  version (foldl (cleanupStore env denv now db1) acc names) = DB_VERSION ∧
  ∀ n, is_Some (stores acc !! n) →
       is_Some (stores (foldl (cleanupStore env denv now db1) acc names) !! n).
Proof.
  induction names as [|name names IH]; intros acc Hv; [done|].
  cbn [foldl].
  assert (version (cleanupStore env denv now db1 acc name) = DB_VERSION ∧
          ∀ n, is_Some (stores acc !! n) →
               is_Some (stores (cleanupStore env denv now db1 acc name) !! n))
    as [Hv' Hkeep].
  { unfold cleanupStore. destruct (startsWith name "pending"); [done|].
    destruct (stores db1 !! name); [|done].
    destruct (request_error env name 0); [done|]. by apply sweep_kept. }
  destruct (IH _ Hv') as [Hv'' Hkeep'']. split; [done|].
  intros n Hn. by apply Hkeep'', Hkeep.
Qed.

(** The loop leaves a record as it was, unless it is in a store whose
    name does not start with "pending" and under the key of a stale item
    the loop read from that store, and then it is gone. *)
Lemma cleanup_loop_row : ∀ names acc n k,
  version acc = DB_VERSION →
  row (foldl (cleanupStore env denv now db1) acc names) n k = row acc n k ∨
  (row (foldl (cleanupStore env denv now db1) acc names) n k = None ∧
   startsWith n "pending" = false ∧
   ∃ os item, stores db1 !! n = Some os ∧ item ∈ getAll os ∧
              stale now item = true ∧ toKey (field item "id") = Some k).
Proof.
  induction names as [|name names IH]; intros acc n k Hv; [by left|].
  cbn [foldl].
  assert (version (cleanupStore env denv now db1 acc name) = DB_VERSION)
    as Hv'.
  { unfold cleanupStore. destruct (startsWith name "pending"); [done|].
    destruct (stores db1 !! name); [|done].
    destruct (request_error env name 0); [done|]. by apply sweep_kept. }
  destruct (IH _ n k Hv') as [Hsame|Hgone]; [|by right].
  rewrite Hsame. unfold cleanupStore.
  destruct (startsWith name "pending") eqn:Hp; [by left|].
  destruct (stores db1 !! name) as [os|] eqn:Hs; [|by left].
  destruct (request_error env name 0); [by left|].
  destruct (sweep_row denv now name (getAll os) acc n k Hv)
    as [Hsw|(-> & Hnone & item & Hin & Hst & Hk)]; [by left|].
  right. split; [done|]. split; [done|]. by exists os, item.
Qed.

End Loop.

(** When nothing fails, the loop removes the record under the key of
    every stale item of every store it visits. *)
Lemma cleanup_loop_gone now db1 : ∀ names acc n os item k,
  version acc = DB_VERSION →
  (∀ m, is_Some (stores db1 !! m) → is_Some (stores acc !! m)) →
  n ∈ names → startsWith n "pending" = false →
  stores db1 !! n = Some os → item ∈ getAll os →
  stale now item = true → toKey (field item "id") = Some k →
  row (foldl (cleanupStore healthy (λ _ _, healthy) now db1) acc names) n k
  = None.
Proof.
  induction names as [|name names IH];
    intros acc n os item k Hv Hsub Hin Hp Hs Hitem Hst Hk;
    [by inversion Hin|].
  cbn [foldl].
  pose proof (cleanup_loop_kept healthy (λ _ _, healthy) now db1
                [name] acc Hv) as [Hv' Hkeep]. cbn [foldl] in Hv', Hkeep.
  apply elem_of_cons in Hin as [<-|Hin].
  - destruct (cleanup_loop_row healthy (λ _ _, healthy) now db1 names
                (cleanupStore healthy (λ _ _, healthy) now db1 acc n) n k Hv')
      as [Hsame|(Hnone & _)]; [|done].
    rewrite Hsame. unfold cleanupStore. rewrite Hp, Hs.
    cbn [healthy request_error].
    apply (sweep_gone now n (getAll os) acc item); eauto.
  - apply (IH _ n os item); eauto.
Qed.

Lemma getAll_elem os (item : Item) :
  item ∈ getAll os ↔ ∃ k, rows os !! k = Some item.
Proof.
  unfold getAll. rewrite list_elem_of_fmap. split.
  - intros [[k x] [-> Hin]]. exists k. by apply elem_of_map_to_list.
  - intros [k Hk]. exists (k, item). split; [done|].
    by apply elem_of_map_to_list.
Qed.

Lemma row_Some db name k item :
  row db name k = Some item ↔
  ∃ os, stores db !! name = Some os ∧ rows os !! k = Some item.
Proof.
  unfold row. destruct (stores db !! name) as [os|]; cbn.
  - split; [eauto|]. by intros (os' & [= <-] & ?).
  - split; [done|]. by intros (os' & ? & _).
Qed.

Lemma stale_truthy now item :
  stale now item = true → truthy (field item "cached_at") = true.
Proof. unfold stale. by intros [? _]%andb_true_iff. Qed.

(** Whatever fails on the way, a record that is not stale, or sits in a
    store whose name starts with "pending", is left as it is. *)
Lemma cleanupStaleCacheData_keeps env denv now db name k item :
  wellKeyed db →
  row db name k = Some item →
  startsWith name "pending" = true ∨ stale now item = false →
  row (cleanupStaleCacheData env denv now db).2 name k = Some item.
Proof.
  intros Hwf Hrow Hkeep. unfold cleanupStaleCacheData.
  destruct (openDatabase env db) as [e|db1] eqn:Hopen; [done|].
  cbn [snd].
  destruct (cleanup_loop_row env denv now db1
              (map_to_list (stores db1)).*1 db1 name k
              (openDatabase_version _ _ _ Hopen))
    as [->|(_ & Hp & os & item' & Hs & Hin & Hst & Hk)].
  - by rewrite (openDatabase_row _ _ _ _ _ Hopen).
  - exfalso. apply getAll_elem in Hin as [k' Hk'].
    assert (row db name k' = Some item') as Hrow'.
    { rewrite <- (openDatabase_row _ _ _ _ _ Hopen).
      apply row_Some. eauto. }
    pose proof (Hwf _ _ _ Hrow') as Hkey.
    assert (k' = k) as -> by congruence.
    assert (item' = item) as -> by congruence.
    destruct Hkeep; congruence.
Qed.

(** The database [cleanupStaleCacheData] leaves, row by row, through the
    test of its inner loop. *)
Lemma cleanupStaleCacheData_rows (now : Z) (db : Database) :
  wellKeyed db →
  version db ≤ DB_VERSION →
  (∀ name k,
     row (cleanupStaleCacheData healthy (λ _ _, healthy) now db).2 name k =
       match row db name k with
       | Some item =>
           if negb (startsWith name "pending") && stale now item
           then None else Some item
       | None => None
       end) ∧
  (∀ env denv name k item,
     row db name k = Some item →
     startsWith name "pending" = true ∨
       truthy (field item "cached_at") = false →
     row (cleanupStaleCacheData env denv now db).2 name k = Some item).
Proof.
  intros Hwf Hver. split.
  - intros name k.
    destruct (row db name k) as [item|] eqn:Hrow.
    + destruct (startsWith name "pending") eqn:Hp; cbn [negb andb].
      { apply cleanupStaleCacheData_keeps; auto. }
      destruct (stale now item) eqn:Hst.
      2:{ apply cleanupStaleCacheData_keeps; auto. }
      unfold cleanupStaleCacheData.
      destruct (openDatabase healthy db) as [e|db1] eqn:Hopen.
      { exfalso. revert Hopen. unfold openDatabase. cbn [healthy open_error].
        destruct (DB_VERSION <? version db) eqn:Hlt;
          [apply Z.ltb_lt in Hlt; lia|].
        by destruct (version db <? DB_VERSION). }
      cbn [snd].
      rewrite <- (openDatabase_row _ _ _ name k Hopen) in Hrow.
      pose proof Hrow as Hrow1.
      apply row_Some in Hrow as (os & Hs & Hk).
      apply (cleanup_loop_gone now db1 _ db1 name os item k); auto.
      * by apply (openDatabase_version _ _ _ Hopen).
      * apply list_elem_of_fmap. exists (name, os). split; [done|].
        by apply elem_of_map_to_list.
      * apply getAll_elem. eauto.
      * apply Hwf with name.
        by rewrite <- (openDatabase_row _ _ _ name k Hopen).
    + unfold cleanupStaleCacheData.
      destruct (openDatabase healthy db) as [e|db1] eqn:Hopen; [done|].
      cbn [snd].
      destruct (cleanup_loop_row healthy (λ _ _, healthy) now db1
                  (map_to_list (stores db1)).*1 db1 name k
                  (openDatabase_version _ _ _ Hopen))
        as [->|(Hnone & _)]; [|done].
      by rewrite (openDatabase_row _ _ _ _ _ Hopen).
  - intros env denv name k item Hrow [Hp|Hc].
    + apply cleanupStaleCacheData_keeps; auto.
    + apply cleanupStaleCacheData_keeps; auto. right.
      destruct (stale now item) eqn:Hst; [|done].
      apply stale_truthy in Hst. congruence.
Qed.

(** The test of the inner loop holds of the records that have a
    [cached_at] whose age exceeds four hours, and of no other. *)
Lemma stale_true now item :
  stale now item = true ↔
  truthy (field item "cached_at") = true ∧
  ∃ cachedAt, getTime (field item "cached_at") = Some cachedAt ∧
              now - cachedAt > 4 * 60 * 60 * 1000.
Proof.
  unfold stale, CACHE_EXPIRATION. rewrite andb_true_iff.
  destruct (getTime (field item "cached_at")) as [cachedAt|].
  - rewrite Z.ltb_lt. split.
    + intros [Ht Hlt]. split; [done|]. exists cachedAt. split; [done|lia].
    + intros [Ht (c & [= <-] & Hlt)]. split; [done|lia].
  - split; [by intros [_ ?]|]. by intros [_ (c & ? & _)].
Qed.

(** C4.  On a database whose records sit under their ids, and when no
    open and no request fails, [cleanupStaleCacheData] deletes exactly
    the records whose age exceeds four hours, across the stores whose
    name does not start with "pending".  A record of such a store that
    has a [cached_at], read as the time [cachedAt], with
    [now - cachedAt > 4 * 60 * 60 * 1000] is gone.  Every other record
    is as it was: one in a pending store, one without a [cached_at], one
    whose [cached_at] is no date, one whose age is four hours or less.
    No record appears.  Records in the pending-operation stores and
    records without a [cached_at] are left as they are even when opens
    or requests fail. *)
Theorem cleanupStaleCacheData_exact (now : Z) (db : Database) :
  wellKeyed db →
  version db ≤ DB_VERSION →
  (∀ name k item cachedAt,
     row db name k = Some item →
     startsWith name "pending" = false →
     truthy (field item "cached_at") = true →
     getTime (field item "cached_at") = Some cachedAt →
     now - cachedAt > 4 * 60 * 60 * 1000 →
     row (cleanupStaleCacheData healthy (λ _ _, healthy) now db).2 name k
       = None) ∧
  (∀ name k item,
     row db name k = Some item →
     startsWith name "pending" = true ∨
     truthy (field item "cached_at") = false ∨
     getTime (field item "cached_at") = None ∨
     (∃ cachedAt, getTime (field item "cached_at") = Some cachedAt ∧
                  now - cachedAt ≤ 4 * 60 * 60 * 1000) →
     row (cleanupStaleCacheData healthy (λ _ _, healthy) now db).2 name k
       = Some item) ∧
  (∀ name k,
     row db name k = None →
     row (cleanupStaleCacheData healthy (λ _ _, healthy) now db).2 name k
       = None) ∧
  (∀ env denv name k item,
     row db name k = Some item →
     startsWith name "pending" = true ∨
       truthy (field item "cached_at") = false →
     row (cleanupStaleCacheData env denv now db).2 name k = Some item).
Proof.
  intros Hwf Hver.
  destruct (cleanupStaleCacheData_rows now db Hwf Hver) as [Hrows Hsafe].
  split_and!.
  - intros name k item cachedAt Hrow Hp Ht Hg Hlt.
    rewrite Hrows, Hrow, Hp. cbn [negb andb].
    assert (stale now item = true) as ->; [|done].
    apply stale_true. eauto.
  - intros name k item Hrow Hkeep.
    rewrite Hrows, Hrow.
    destruct (startsWith name "pending") eqn:Hp; [done|]. cbn [negb andb].
    destruct (stale now item) eqn:Hst; [|done].
    apply stale_true in Hst as (Ht & c & Hg & Hlt).
    destruct Hkeep as [?|[?|[?|(c' & Hg' & Hle)]]]; [congruence..|].
    assert (c' = c) as -> by congruence. lia.
  - intros name k Hrow. by rewrite Hrows, Hrow.
  - exact Hsafe.
Qed.

End Clock.

(** ** The store, run *)

(** A clock for the runs below: two instants ten hours apart. *)
Definition isoOf (t : Z) : string :=
  if t =? 1700000000000 then "2023-11-14T22:13:20.000Z"
  else if t =? 1700036000000 then "2023-11-15T08:13:20.000Z"
  else "1970-01-01T00:00:00.000Z".

Definition timeOf (v : Value) : option Z :=
  match v with
  | VNum n => Some n
  | VStr s =>
      if String.eqb s "2023-11-14T22:13:20.000Z" then Some 1700000000000
      else if String.eqb s "2023-11-15T08:13:20.000Z" then Some 1700036000000
      else if String.eqb s "1970-01-01T00:00:00.000Z" then Some 0
      else None
  | _ => None
  end.

Definition emptyDatabase : Database := {| version := 0; stores := ∅ |}.

Definition task1 : Item :=
  {[ "id" := VStr "t1"; "name" := VStr "Read chapter 4" ]}.
Definition task2 : Item :=
  {[ "id" := VStr "t2"; "name" := VStr "Lab report";
     "cached_at" := VStr "2023-11-15T08:13:20.000Z" ]}.

(** A read request that fires [onerror]. *)
Definition readError : Error :=
  mkError (DOMExceptionC "UnknownError") "Internal error reading the store.".
Definition failingReads : Env :=
  {| open_error := None; request_error := λ _ _, Some readError |}.

(** A database with an old and a fresh task, an old pending operation and
    a task that was never stamped. *)
Definition sampleDatabase : Database :=
  {| version := 4;
     stores :=
       {[ "tasks" :=
            {| autoIncrement := false; keyGenerator := 1;
               rows := {[ inr "t0" := {[ "id" := VStr "t0";
                                         "cached_at" := VStr "2023-11-14T22:13:20.000Z" ]};
                          inr "t1" := task1;
                          inr "t2" := task2 ]} |};
          "pendingTaskOperations" :=
            {| autoIncrement := true; keyGenerator := 2;
               rows := {[ inl 1 := {[ "id" := VNum 1;
                                      "cached_at" := VStr "2023-11-14T22:13:20.000Z" ]} ]} |} ]} |}.

(** Ten hours after the old records were stamped, only the old task goes. *)
Example cleanupStaleCacheData_sample :
  let db' := (cleanupStaleCacheData timeOf healthy (λ _ _, healthy)
                1700036000000 sampleDatabase).2 in
  row db' "tasks" (inr "t0") = None ∧
  row db' "tasks" (inr "t1") = Some task1 ∧
  row db' "tasks" (inr "t2") = Some task2 ∧
  row db' "pendingTaskOperations" (inl 1)
    = row sampleDatabase "pendingTaskOperations" (inl 1).
Proof. cbv zeta. split_and!; vm_compute; reflexivity. Qed.

Example saveToIndexedDB_sample :
  let db' := (saveToIndexedDB isoOf healthy 1700000000000 "tasks"
                (Array [task1; task2]) emptyDatabase).2 in
  (saveToIndexedDB isoOf healthy 1700000000000 "tasks"
     (Array [task1; task2]) emptyDatabase).1 = Resolved tt ∧
  row db' "tasks" (inr "t1")
    = Some (<["cached_at" := VStr "2023-11-14T22:13:20.000Z"]> task1) ∧
  row db' "tasks" (inr "t2") = Some task2.
Proof. cbv zeta. split_and!; vm_compute; reflexivity. Qed.

Lemma saveToIndexedDB_getByIdFromIndexedDB_witness :
  ∃ r',
    getByIdFromIndexedDB healthy "tasks" (field task1 "id")
      (saveToIndexedDB isoOf healthy 1700000000000 "tasks" (Single task1)
         emptyDatabase).2
      = (Resolved (Some r'),
         (saveToIndexedDB isoOf healthy 1700000000000 "tasks" (Single task1)
            emptyDatabase).2) ∧
    (∀ f, f ≠ "cached_at" → r' !! f = task1 !! f) ∧
    r' !! "cached_at" =
      Some (if truthy (field task1 "cached_at") then field task1 "cached_at"
            else VStr (isoOf 1700000000000)).
Proof.
  apply (saveToIndexedDB_getByIdFromIndexedDB isoOf healthy healthy
           1700000000000 "tasks" task1 (inr "t1") emptyDatabase).
  - vm_compute. reflexivity.
  - vm_compute. reflexivity.
  - reflexivity.
  - reflexivity.
Defined.

Lemma saveToIndexedDB_array_resolution_witness :
  (saveToIndexedDB isoOf healthy 1700000000000 "tasks" (Array [])
     emptyDatabase).1 = Pending ∧
  ∀ items db', items ≠ [] →
    saveToIndexedDB isoOf healthy 1700000000000 "tasks" (Array items)
      emptyDatabase = (Resolved tt, db') ↔
    ∃ os',
      putAll isoOf 1700000000000
        {| autoIncrement := false; keyGenerator := 1; rows := ∅ |} items
        = Some os' ∧
      (∀ j, (j < length items)%nat → request_error healthy "tasks" j = None) ∧
      db' = setStore "tasks" os'
              {| version := DB_VERSION;
                 stores := onupgradeneeded (stores emptyDatabase) |}.
Proof.
  apply (saveToIndexedDB_array_resolution isoOf healthy 1700000000000 "tasks"
           emptyDatabase).
  - reflexivity.
  - vm_compute. reflexivity.
Defined.
Lemma sampleDatabase_wellKeyed : wellKeyed sampleDatabase.
Proof.
  intros name k item (os & Hs & Hk)%row_Some.
  unfold sampleDatabase in Hs. cbn [stores] in Hs.
  apply lookup_insert_Some in Hs as [[<- <-]|[_ Hs]].
  - cbn [rows] in Hk.
    apply lookup_insert_Some in Hk as [[<- <-]|[_ Hk]]; [by vm_compute|].
    apply lookup_insert_Some in Hk as [[<- <-]|[_ Hk]]; [by vm_compute|].
    apply lookup_singleton_Some in Hk as [<- <-]. by vm_compute.
  - apply lookup_singleton_Some in Hs as [<- <-]. cbn [rows] in Hk.
    apply lookup_singleton_Some in Hk as [<- <-]. by vm_compute.
Qed.

(** Ten hours after the old records were stamped: the task stamped then
    is gone, the task never stamped, the task stamped just now and the
    pending operation stamped ten hours ago are as they were, and no task
    appears. *)
Lemma cleanupStaleCacheData_exact_witness :
  row (cleanupStaleCacheData timeOf healthy (λ _ _, healthy)
         1700036000000 sampleDatabase).2 "tasks" (inr "t0") = None ∧
  row (cleanupStaleCacheData timeOf healthy (λ _ _, healthy)
         1700036000000 sampleDatabase).2 "tasks" (inr "t1") = Some task1 ∧
  row (cleanupStaleCacheData timeOf healthy (λ _ _, healthy)
         1700036000000 sampleDatabase).2 "tasks" (inr "t2") = Some task2 ∧
  row (cleanupStaleCacheData timeOf healthy (λ _ _, healthy)
         1700036000000 sampleDatabase).2 "pendingTaskOperations" (inl 1)
    = Some {[ "id" := VNum 1;
              "cached_at" := VStr "2023-11-14T22:13:20.000Z" ]} ∧
  row (cleanupStaleCacheData timeOf healthy (λ _ _, healthy)
         1700036000000 sampleDatabase).2 "tasks" (inr "t3") = None.
Proof.
  destruct (cleanupStaleCacheData_exact timeOf 1700036000000 sampleDatabase
              sampleDatabase_wellKeyed ltac:(vm_compute; discriminate))
    as (Hgone & Hkept & Hnone & _).
  split_and!.
  - apply (Hgone "tasks" (inr "t0")
             {[ "id" := VStr "t0";
                "cached_at" := VStr "2023-11-14T22:13:20.000Z" ]}
             1700000000000);
      [vm_compute; reflexivity..|lia].
  - apply Hkept; [vm_compute; reflexivity|].
    right. left. vm_compute; reflexivity.
  - apply Hkept; [vm_compute; reflexivity|].
    right. right. right.
    exists 1700036000000. split; [vm_compute; reflexivity|lia].
  - apply Hkept; [vm_compute; reflexivity|]. left. vm_compute; reflexivity.
  - apply Hnone. vm_compute; reflexivity.
Defined.

(** C5, where the code departs from it.  With the database open, a
    [getAll] request that fires [onerror], or a store name the database
    does not have, leaves the promise of [getAllFromIndexedDB] rejected:
    the caller gets the error, not the empty list. *)
Theorem getAllFromIndexedDB_rejects_past_open :
  (getAllFromIndexedDB failingReads "tasks" emptyDatabase).1
    = Rejected readError ∧
  (getAllFromIndexedDB healthy "notes" emptyDatabase).1
    = Rejected NotFoundError.
Proof. split; vm_compute; reflexivity. Qed.

(* --------------------------------------------------------------------- *)
(** ** Clearing a store, the pending queues, the data of one user *)

Definition ConstraintError : Error :=
  mkError (DOMExceptionC "ConstraintError") "Key already exists in the object store.".

(** The names in [STORES], in the order [onupgradeneeded] goes through
    them. *)
Definition STORES : list string :=
  [TASKS; ROUTINES; USER_DATA; COURSES; MATERIALS; TEACHERS;
   PENDING_TASK_OPS; PENDING_ROUTINE_OPS; PENDING_COURSE_OPS;
   PENDING_TEACHER_OPS].

(** The key [put] and [add] store an item under, if there is one. *)
Definition keyOf (os : ObjectStore) (item : Item) : option Key :=
  match field item "id" with
  | VUndefined =>
      if autoIncrement os then Some (inl (keyGenerator os)) else None
  | v => toKey v
  end.

(** [store.add(item)]: as [put], but a key already in the store makes
    the request fail with [ConstraintError]. *)
Definition store_add (os : ObjectStore) (item : Item) : Error + ObjectStore :=
  match keyOf os item with
  | None => inl DataError
  | Some k =>
      match rows os !! k with
      | Some _ => inl ConstraintError
      | None => put os item
      end
  end.

(** [store.clear()]: the records go, the key generator keeps its value. *)
Definition store_clear (os : ObjectStore) : ObjectStore :=
  {| autoIncrement := autoIncrement os;
     keyGenerator := keyGenerator os;
     rows := ∅ |}.

(** [clearIndexedDBStore] *)
Definition clearIndexedDBStore (env : Env) (storeName : string)
    (db : Database) : Promise unit * Database :=
  match openDatabase env db with
  | inl e => (Rejected e, db)
  | inr db1 =>
      match stores db1 !! storeName with
      | None => (Rejected NotFoundError, db1)
      | Some os =>
          match request_error env storeName 0 with
          | Some e => (Rejected e, db1)
          | None => (Resolved tt, setStore storeName (store_clear os) db1)
          end
      end
  end.

(** [clearPendingOperations]: [await clearIndexedDBStore(storePrefix)];
    the [catch] rethrows. *)
Definition clearPendingOperations (env : Env) (storePrefix : string)
    (db : Database) : Promise unit * Database :=
  match clearIndexedDBStore env storePrefix db with
  | (Rejected error, db') => (Rejected error, db')
  | (p, db') => (p, db')
  end.

(** ['create' | 'update' | 'delete'] *)
Definition operationName (operation : Operations.OperationType) : string :=
  match operation with
  | Operations.OpCreate => "create"
  | Operations.OpUpdate => "update"
  | Operations.OpDelete => "delete"
  end.

(** [getPendingOperations]: the shape of [getAllFromIndexedDB]. *)
Definition getPendingOperations (env : Env) (storePrefix : string)
    (db : Database) : Promise (list Item) * Database :=
  match openDatabase env db with
  | inl e => (Resolved [], db)
  | inr db1 =>
      match stores db1 !! storePrefix with
      | None => (Rejected NotFoundError, db1)
      | Some os =>
          match request_error env storePrefix 0 with
          | Some e => (Rejected e, db1)
          | None => (Resolved (getAll os), db1)
          end
      end
  end.

(** [removePendingOperation]: the shape of [deleteFromIndexedDB]. *)
Definition removePendingOperation (env : Env) (storePrefix : string)
    (id : Value) (db : Database) : Promise unit * Database :=
  match openDatabase env db with
  | inl e => (Rejected e, db)
  | inr db1 =>
      match stores db1 !! storePrefix with
      | None => (Rejected NotFoundError, db1)
      | Some os =>
          match toKey id with
          | None => (Rejected DataError, db1)
          | Some k =>
              match request_error env storePrefix 0 with
              | Some e => (Rejected e, db1)
              | None =>
                  (Resolved tt,
                   setStore storePrefix
                     {| autoIncrement := autoIncrement os;
                        keyGenerator := keyGenerator os;
                        rows := delete k (rows os) |} db1)
              end
          end
      end
  end.

(** [value === userId] for a string [userId]. *)
Definition strictEqualsString (v : Value) (s : string) : bool :=
  match v with
  | VStr t => String.eqb t s
  | _ => false
  end.

(** [item.userId === userId || item.user_id === userId] *)
Definition ownedBy (userId : string) (item : Item) : bool :=
  strictEqualsString (field item "userId") userId
  || strictEqualsString (field item "user_id") userId.

(** [for (const item of itemsToDelete) await deleteFromIndexedDB(storeName, item.id)]:
    a rejected deletion is thrown by the [await] and ends the loop. *)
Fixpoint deleteEach (denv : Value → Env) (storeName : string)
    (items : list Item) (db : Database) : Promise unit * Database :=
  match items with
  | [] => (Resolved tt, db)
  | item :: rest =>
      match deleteFromIndexedDB (denv (field item "id")) storeName
              (field item "id") db with
      | (Resolved _, db1) => deleteEach denv storeName rest db1
      | (Rejected e, db1) => (Rejected e, db1)
      | (Pending, db1) => (Pending, db1)
      end
  end.

(** [clearUserDataFromStore]; [denv] gives the platform's behaviour for
    the deletion of each id. *)
Definition clearUserDataFromStore (env : Env) (denv : Value → Env)
    (storeName userId : string) (db : Database) : Promise unit * Database :=
  match getAllFromIndexedDB env storeName db with
  | (Resolved items, db1) =>
      let itemsToDelete := filter (λ item, ownedBy userId item = true) items in
      deleteEach denv storeName itemsToDelete db1
  | (Rejected e, db1) => (Rejected e, db1)
  | (Pending, db1) => (Pending, db1)
  end.

Section Queues.
Variable toISOString : Z → string.

(** [{ operation, data, timestamp: new Date().toISOString() }]; [data]
    is stored as it is given. *)
Definition pendingOp (now : Z) (operation : Operations.OperationType)
    (data : Value) : Item :=
  {[ "operation" := VStr (operationName operation);
     "data" := data;
     "timestamp" := VStr (toISOString now) ]}.

(** [addToPendingOperations] *)
Definition addToPendingOperations (env : Env) (now : Z)
    (storePrefix : string) (operation : Operations.OperationType)
    (data : Value) (db : Database) : Promise unit * Database :=
  match openDatabase env db with
  | inl e => (Rejected e, db)
  | inr db1 =>
      match stores db1 !! storePrefix with
      | None => (Rejected NotFoundError, db1)
      | Some os =>
          match store_add os (pendingOp now operation data) with
          | inl e => (Rejected e, db1)
          | inr os' =>
              match request_error env storePrefix 0 with
              | Some e => (Rejected e, db1)
              | None => (Resolved tt, setStore storePrefix os' db1)
              end
          end
      end
  end.

(** [refreshUserCache]; [now] is the clock when [value] is set, [now']
    when [saveToIndexedDB] stamps the record. *)
Definition refreshUserCache (env env' : Env) (now now' : Z)
    (userId : string) (db : Database) : Promise unit * Database :=
  match getByIdFromIndexedDB env USER_DATA
          (VStr (userId +:+ "_timestamp")) db with
  | (Resolved (Some userData), db1) =>
      saveToIndexedDB toISOString env' now' USER_DATA
        (Single (<["value" := VStr (toISOString now)]> userData)) db1
  | (Resolved None, db1) => (Resolved tt, db1)
  | (Rejected e, db1) => (Rejected e, db1)
  | (Pending, db1) => (Pending, db1)
  end.

End Queues.

(** ** Opening the database *)

Lemma createIfMissing_kept name auto ss n os :
  ss !! n = Some os → createIfMissing name auto ss !! n = Some os.
Proof. intros Hn. by rewrite createIfMissing_lookup, Hn. Qed.

Lemma createIfMissing_created name auto ss :
  is_Some (createIfMissing name auto ss !! name).
Proof.
  rewrite createIfMissing_lookup. destruct (ss !! name); [eauto|].
  rewrite decide_True by done. eauto.
Qed.

Lemma createIfMissing_is_Some name auto ss n :
  is_Some (ss !! n) → is_Some (createIfMissing name auto ss !! n).
Proof. intros [os Hn]. rewrite (createIfMissing_kept _ _ _ _ _ Hn). eauto. Qed.

Lemma createIfMissing_new name auto ss n os :
  ss !! n = None → createIfMissing name auto ss !! n = Some os →
  name = n ∧ os = {| autoIncrement := auto; keyGenerator := 1; rows := ∅ |}.
Proof.
  intros Hn. rewrite createIfMissing_lookup, Hn.
  case_decide; [|done]. by intros [= <-].
Qed.

Lemma onupgradeneeded_kept ss n os :
  ss !! n = Some os → onupgradeneeded ss !! n = Some os.
Proof.
  intros Hn. unfold onupgradeneeded. by repeat apply createIfMissing_kept.
Qed.

Lemma onupgradeneeded_all ss n :
  n ∈ STORES → is_Some (onupgradeneeded ss !! n).
Proof.
  unfold STORES. rewrite !elem_of_cons, elem_of_nil. intros Hn.
  unfold onupgradeneeded.
  destruct_or!; try done; subst n;
    repeat first [apply createIfMissing_created
                 |apply createIfMissing_is_Some].
Qed.

(** A store the upgrade creates is empty, and has a key generator
    exactly when it is one of the pending queues. *)
Lemma onupgradeneeded_new ss n os :
  ss !! n = None → onupgradeneeded ss !! n = Some os →
  n ∈ STORES ∧
  os = {| autoIncrement := startsWith n "pending";
          keyGenerator := 1; rows := ∅ |}.
Proof.
  intros Hn. unfold onupgradeneeded. revert os.
  repeat match goal with
  | |- ∀ os, createIfMissing ?name ?auto ?inner !! n = Some os → _ =>
      let o := fresh "o" in
      let os' := fresh "os" in
      intros os'; destruct (inner !! n) as [o|] eqn:?;
        [rewrite (createIfMissing_kept name auto inner n o) by done;
         intros [= <-]; generalize dependent o
        |intros [<- ->]%createIfMissing_new; [|done];
         split; [unfold STORES; rewrite !elem_of_cons; naive_solver
                |reflexivity]]
  end.
  intros o Ho. congruence.
Qed.

(** X4.  What [openDatabase] gives.  It fails exactly when the platform
    refuses the open or the database on disk is newer than version 4
    ([VersionError]).  When it succeeds the connection is at version 4,
    every store that was there is there unchanged, a store that was
    not there before is one of the ten of [STORES], empty, with a key
    generator exactly when its name starts with "pending", and a
    database below version 4 comes out with all ten; a database already
    at version 4 is not touched. *)
Theorem openDatabase_upgrade_only_adds (env : Env) (db : Database) :
  (∀ e, openDatabase env db = inl e ↔
        open_error env = Some e ∨
        (open_error env = None ∧ DB_VERSION < version db ∧ e = VersionError)) ∧
  (∀ db1, openDatabase env db = inr db1 →
     version db1 = DB_VERSION ∧
     (∀ name os, stores db !! name = Some os → stores db1 !! name = Some os) ∧
     (∀ name os, stores db !! name = None → stores db1 !! name = Some os →
        version db < DB_VERSION ∧ name ∈ STORES ∧
        os = {| autoIncrement := startsWith name "pending";
                keyGenerator := 1; rows := ∅ |}) ∧
     (version db < DB_VERSION →
        ∀ name, name ∈ STORES → is_Some (stores db1 !! name)) ∧
     (version db = DB_VERSION → db1 = db)).
Proof.
  split.
  - intros e. unfold openDatabase.
    destruct (open_error env) as [e'|].
    { split; [intros [= ->]; by left|]. intros [[= ->]|[? _]]; done. }
    destruct (DB_VERSION <? version db) eqn:Hnew.
    + apply Z.ltb_lt in Hnew. split; [intros [= <-]; by right|].
      intros [?|(_ & _ & ->)]; done.
    + apply Z.ltb_ge in Hnew.
      split; [by destruct (version db <? DB_VERSION)|].
      intros [?|(_ & ? & _)]; [done|lia].
  - intros db1 Hopen. split; [by eapply openDatabase_version|].
    revert Hopen. unfold openDatabase.
    destruct (open_error env); [done|].
    destruct (DB_VERSION <? version db) eqn:Hnew; [done|].
    apply Z.ltb_ge in Hnew.
    destruct (version db <? DB_VERSION) eqn:Hold; intros [= <-].
    + apply Z.ltb_lt in Hold. cbn [stores]. split_and!.
      * intros name os. apply onupgradeneeded_kept.
      * intros name os Hnone Hsome. split; [done|].
        by eapply onupgradeneeded_new.
      * intros _ name. apply onupgradeneeded_all.
      * lia.
    + apply Z.ltb_ge in Hold. split_and!; [done| |lia|done].
      intros name os Hnone Hsome. congruence.
Qed.

(** ** Records sit under their id *)

Definition keyed (os : ObjectStore) : Prop :=
  ∀ k item, rows os !! k = Some item → toKey (field item "id") = Some k.

Lemma wellKeyed_keyed db :
  wellKeyed db ↔ ∀ name os, stores db !! name = Some os → keyed os.
Proof.
  unfold wellKeyed, keyed. split.
  - intros Hw name os Hs k item Hk. apply (Hw name).
    apply row_Some. eauto.
  - intros Hk name k item (os & Hs & Hr)%row_Some. eauto.
Qed.

(** Rows only going away keeps the invariant. *)
Lemma wellKeyed_shrink db db' :
  (∀ n k item, row db' n k = Some item → row db n k = Some item) →
  wellKeyed db → wellKeyed db'.
Proof. intros Hsub Hw name k item Hr. eauto. Qed.

Lemma wellKeyed_openDatabase env db db1 :
  openDatabase env db = inr db1 → wellKeyed db → wellKeyed db1.
Proof.
  intros Hopen. apply wellKeyed_shrink. intros n k item.
  by rewrite (openDatabase_row _ _ _ _ _ Hopen).
Qed.

Lemma wellKeyed_setStore name os db :
  wellKeyed db → keyed os → wellKeyed (setStore name os db).
Proof.
  intros Hw Hk n k item. rewrite row_setStore.
  case_decide; [apply Hk|apply Hw].
Qed.

(** What [put] does, by the key it stores the item under. *)
Lemma put_cases os (item : Item) :
  match keyOf os item with
  | None => put os item = inl DataError
  | Some k =>
      ∃ item',
        put os item =
          inr {| autoIncrement := autoIncrement os;
                 keyGenerator :=
                   match k with
                   | inl n => Z.max (keyGenerator os) (n + 1)
                   | inr _ => keyGenerator os
                   end;
                 rows := <[k := item']> (rows os) |} ∧
        toKey (field item' "id") = Some k ∧
        (∀ f, f ≠ "id" → item' !! f = item !! f) ∧
        (is_Some (toKey (field item "id")) → item' = item)
  end.
Proof.
  unfold keyOf, put.
  destruct (field item "id") as [| |b|n|s] eqn:Hid; cbn [toKey]; try done.
  - destruct (autoIncrement os) eqn:Hauto; [|done].
    exists (<["id" := VNum (keyGenerator os)]> item). split_and!.
    + do 2 f_equal. lia.
    + unfold field. by rewrite lookup_insert_eq.
    + intros f Hf. by rewrite lookup_insert_ne.
    + by intros [? ?].
  - exists item. by rewrite Hid.
  - exists item. by rewrite Hid.
Qed.

Lemma put_keyed_store os (item : Item) os' :
  keyed os → put os item = inr os' → keyed os'.
Proof.
  intros Hk Hput. pose proof (put_cases os item) as Hc.
  destruct (keyOf os item) as [k|]; [|congruence].
  destruct Hc as (item' & Hput' & Hid & _). rewrite Hput in Hput'.
  injection Hput' as ->. intros k' x. cbn [rows].
  rewrite lookup_insert. case_decide; [|apply Hk].
  intros [= <-]. by subst.
Qed.

Section Invariant.
Variable toISOString : Z → string.

Lemma placeAll_keyed now : ∀ items os,
  keyed os → keyed (placeAll toISOString now os items).1.1.
Proof.
  induction items as [|item rest IH]; intros os Hk; cbn [placeAll]; [done|].
  destruct (put os (stamp toISOString now item)) as [e|os1] eqn:Hput; [done|].
  specialize (IH os1 (put_keyed_store _ _ _ Hk Hput)).
  by destruct (placeAll toISOString now os1 rest) as [[os2 n] thrown].
Qed.

Lemma saveToIndexedDB_wellKeyed env now storeName data db :
  wellKeyed db →
  wellKeyed (saveToIndexedDB toISOString env now storeName data db).2.
Proof.
  intros Hw. unfold saveToIndexedDB.
  destruct (openDatabase env db) as [e|db1] eqn:Hopen; [done|].
  pose proof (wellKeyed_openDatabase _ _ _ Hopen Hw) as Hw1.
  destruct (stores db1 !! storeName) as [os|] eqn:Hs; [|done].
  pose proof (proj1 (wellKeyed_keyed db1) Hw1 _ _ Hs) as Hk.
  destruct data as [item|items].
  - destruct (put os (stamp toISOString now item)) as [e|os'] eqn:Hput; [done|].
    destruct (request_error env storeName 0); [done|].
    cbn [snd]. apply wellKeyed_setStore; [done|].
    by eapply put_keyed_store.
  - pose proof (placeAll_keyed now items os Hk) as Hk'.
    destruct (placeAll toISOString now os items) as [[os' placed] thrown].
    destruct (fireArray _ _ _ _ _ _) as [p [|]]; cbn [snd]; [|done].
    by apply wellKeyed_setStore.
Qed.

End Invariant.

Lemma deleteFromIndexedDB_shrinks env storeName id db n k item :
  row (deleteFromIndexedDB env storeName id db).2 n k = Some item →
  row db n k = Some item.
Proof.
  unfold deleteFromIndexedDB.
  destruct (openDatabase env db) as [e|db1] eqn:Hopen; [done|].
  rewrite <- (openDatabase_row _ _ _ n k Hopen).
  destruct (stores db1 !! storeName) as [os|] eqn:Hs; [|done].
  destruct (toKey id) as [k'|]; [|done].
  destruct (request_error env storeName 0); [done|].
  cbn [snd]. rewrite row_setStore. case_decide as Hn; [|done]. subst n.
  cbn [rows]. intros [_ Hr]%lookup_delete_Some.
  apply row_Some. eauto.
Qed.

Lemma removePendingOperation_deleteFromIndexedDB env storePrefix id db :
  removePendingOperation env storePrefix id db
  = deleteFromIndexedDB env storePrefix id db.
Proof. done. Qed.

Lemma getPendingOperations_getAllFromIndexedDB env storePrefix db :
  getPendingOperations env storePrefix db
  = getAllFromIndexedDB env storePrefix db.
Proof. done. Qed.

Lemma clearPendingOperations_clearIndexedDBStore env storePrefix db :
  clearPendingOperations env storePrefix db
  = clearIndexedDBStore env storePrefix db.
Proof.
  unfold clearPendingOperations.
  by destruct (clearIndexedDBStore env storePrefix db) as [[| |] db'].
Qed.

Lemma clearIndexedDBStore_shrinks env storeName db n k item :
  row (clearIndexedDBStore env storeName db).2 n k = Some item →
  row db n k = Some item.
Proof.
  unfold clearIndexedDBStore.
  destruct (openDatabase env db) as [e|db1] eqn:Hopen; [done|].
  rewrite <- (openDatabase_row _ _ _ n k Hopen).
  destruct (stores db1 !! storeName) as [os|] eqn:Hs; [|done].
  destruct (request_error env storeName 0); [done|].
  cbn [snd]. rewrite row_setStore. by case_decide.
Qed.

Lemma deleteEach_shrinks denv storeName : ∀ items db n k item,
  row (deleteEach denv storeName items db).2 n k = Some item →
  row db n k = Some item.
Proof.
  induction items as [|x items IH]; intros db n k item; [done|].
  cbn [deleteEach].
  pose proof (deleteFromIndexedDB_shrinks (denv (field x "id")) storeName
                (field x "id") db n k item) as Hd.
  destruct (deleteFromIndexedDB _ _ _ db) as [[[]|e|] db1]; cbn [snd] in *;
    [|done..].
  intros Hr. apply Hd. by eapply IH.
Qed.

Lemma getAllFromIndexedDB_row env storeName db n k :
  row (getAllFromIndexedDB env storeName db).2 n k = row db n k.
Proof.
  unfold getAllFromIndexedDB.
  destruct (openDatabase env db) as [e|db1] eqn:Hopen; [done|].
  rewrite <- (openDatabase_row _ _ _ n k Hopen).
  destruct (stores db1 !! storeName); [|done].
  by destruct (request_error env storeName 0).
Qed.

Lemma clearUserDataFromStore_shrinks env denv storeName userId db n k item :
  row (clearUserDataFromStore env denv storeName userId db).2 n k = Some item →
  row db n k = Some item.
Proof.
  unfold clearUserDataFromStore.
  pose proof (getAllFromIndexedDB_row env storeName db n k) as Hg.
  destruct (getAllFromIndexedDB env storeName db) as [[items|e|] db1];
    cbn [snd] in *; rewrite <- Hg; [|done..].
  apply deleteEach_shrinks.
Qed.

Lemma cleanupStaleCacheData_shrinks getTime env denv now db n k item :
  row (cleanupStaleCacheData getTime env denv now db).2 n k = Some item →
  row db n k = Some item.
Proof.
  unfold cleanupStaleCacheData.
  destruct (openDatabase env db) as [e|db1] eqn:Hopen; [done|].
  cbn [snd]. rewrite <- (openDatabase_row _ _ _ n k Hopen).
  destruct (cleanup_loop_row getTime env denv now db1
              (map_to_list (stores db1)).*1 db1 n k) as [->|[-> _]];
    [by eapply openDatabase_version|done..].
Qed.

Lemma getByIdFromIndexedDB_row env storeName id db n k :
  row (getByIdFromIndexedDB env storeName id db).2 n k = row db n k.
Proof.
  unfold getByIdFromIndexedDB.
  destruct (openDatabase env db) as [e|db1] eqn:Hopen; [done|].
  rewrite <- (openDatabase_row _ _ _ n k Hopen).
  destruct (stores db1 !! storeName); [|done].
  destruct (toKey id); [|done].
  by destruct (request_error env storeName 0).
Qed.

Lemma store_add_put os (item : Item) os' :
  store_add os item = inr os' → put os item = inr os'.
Proof.
  unfold store_add. destruct (keyOf os item) as [k|]; [|done].
  by destruct (rows os !! k).
Qed.

Lemma put_autoIncrement os (item : Item) os' :
  put os item = inr os' → autoIncrement os' = autoIncrement os.
Proof.
  intros Hput. pose proof (put_cases os item) as Hc.
  destruct (keyOf os item) as [k|]; [|congruence].
  destruct Hc as (item' & Hput' & _). rewrite Hput in Hput'.
  by injection Hput' as ->.
Qed.

Section Invariants.
Variable toISOString : Z → string.
Variable getTime : Value → option Z.

Lemma addToPendingOperations_wellKeyed env now storePrefix operation data db :
  wellKeyed db →
  wellKeyed
    (addToPendingOperations toISOString env now storePrefix operation data db).2.
Proof.
  intros Hw. unfold addToPendingOperations.
  destruct (openDatabase env db) as [e|db1] eqn:Hopen; [done|].
  pose proof (wellKeyed_openDatabase _ _ _ Hopen Hw) as Hw1.
  destruct (stores db1 !! storePrefix) as [os|] eqn:Hs; [|done].
  destruct (store_add os _) as [e|os'] eqn:Hadd; [done|].
  destruct (request_error env storePrefix 0); [done|].
  cbn [snd]. apply wellKeyed_setStore; [done|].
  eapply put_keyed_store; [|by apply store_add_put].
  by eapply wellKeyed_keyed.
Qed.

Lemma refreshUserCache_wellKeyed env env' now now' userId db :
  wellKeyed db →
  wellKeyed (refreshUserCache toISOString env env' now now' userId db).2.
Proof.
  intros Hw. unfold refreshUserCache.
  pose proof (getByIdFromIndexedDB_row env USER_DATA
                (VStr (userId +:+ "_timestamp")) db) as Hg.
  destruct (getByIdFromIndexedDB _ _ _ db) as [[[userData|]|e|] db1];
    cbn [snd] in *.
  - apply saveToIndexedDB_wellKeyed.
    eapply wellKeyed_shrink; [|exact Hw]. intros n k item. by rewrite Hg.
  - eapply wellKeyed_shrink; [|exact Hw]. intros n k item. by rewrite Hg.
  - eapply wellKeyed_shrink; [|exact Hw]. intros n k item. by rewrite Hg.
  - eapply wellKeyed_shrink; [|exact Hw]. intros n k item. by rewrite Hg.
Qed.

(** X5.  Every record sits under the key read from its [id], and every
    function of the file that writes keeps it so, whatever the platform
    does to its requests: the saves of one record or of an array, the
    deletions, the clearing of a store, the pending queues, the removal
    of a user's records, the refresh of the user's timestamp and the
    clean-up of stale records. *)
Theorem writers_keep_records_under_their_id (db : Database) :
  wellKeyed db →
  (∀ env now storeName data,
     wellKeyed (saveToIndexedDB toISOString env now storeName data db).2) ∧
  (∀ env storeName id,
     wellKeyed (deleteFromIndexedDB env storeName id db).2) ∧
  (∀ env storeName,
     wellKeyed (clearIndexedDBStore env storeName db).2) ∧
  (∀ env now storePrefix operation data,
     wellKeyed
       (addToPendingOperations toISOString env now storePrefix operation
          data db).2) ∧
  (∀ env storePrefix id,
     wellKeyed (removePendingOperation env storePrefix id db).2) ∧
  (∀ env storePrefix,
     wellKeyed (clearPendingOperations env storePrefix db).2) ∧
  (∀ env denv storeName userId,
     wellKeyed (clearUserDataFromStore env denv storeName userId db).2) ∧
  (∀ env env' now now' userId,
     wellKeyed (refreshUserCache toISOString env env' now now' userId db).2) ∧
  (∀ env denv now,
     wellKeyed (cleanupStaleCacheData getTime env denv now db).2).
Proof.
  intros Hw. split_and!.
  - intros. by apply saveToIndexedDB_wellKeyed.
  - intros env storeName id. eapply wellKeyed_shrink; [|exact Hw].
    apply deleteFromIndexedDB_shrinks.
  - intros env storeName. eapply wellKeyed_shrink; [|exact Hw].
    apply clearIndexedDBStore_shrinks.
  - intros. by apply addToPendingOperations_wellKeyed.
  - intros env storePrefix id. eapply wellKeyed_shrink; [|exact Hw].
    rewrite removePendingOperation_deleteFromIndexedDB.
    apply deleteFromIndexedDB_shrinks.
  - intros env storePrefix. eapply wellKeyed_shrink; [|exact Hw].
    rewrite clearPendingOperations_clearIndexedDBStore.
    apply clearIndexedDBStore_shrinks.
  - intros env denv storeName userId. eapply wellKeyed_shrink; [|exact Hw].
    apply clearUserDataFromStore_shrinks.
  - intros. by apply refreshUserCache_wellKeyed.
  - intros env denv now. eapply wellKeyed_shrink; [|exact Hw].
    apply cleanupStaleCacheData_shrinks.
Qed.

(** ** What a save touches *)

Definition itemsOf (data : Data) : list Item :=
  match data with
  | Single item => [item]
  | Array items => items
  end.

(** The item stored for an item given: the same but for the stamp and,
    in a store with a key generator, the generated id. *)
Definition storedFor (item' item : Item) : Prop :=
  ∀ f, f ≠ "id" → f ≠ "cached_at" → item' !! f = item !! f.

Lemma put_row os (item : Item) os' k :
  put os item = inr os' →
  rows os' !! k = rows os !! k ∨
  ∃ item', rows os' !! k = Some item' ∧ ∀ f, f ≠ "id" → item' !! f = item !! f.
Proof.
  intros Hput. pose proof (put_cases os item) as Hc.
  destruct (keyOf os item) as [k0|]; [|congruence].
  destruct Hc as (item' & Hput' & _ & Hsame & _). rewrite Hput in Hput'.
  injection Hput' as ->. cbn [rows]. rewrite lookup_insert.
  case_decide; [right; eauto|by left].
Qed.

Lemma placeAll_row now : ∀ items os k,
  rows (placeAll toISOString now os items).1.1 !! k = rows os !! k ∨
  ∃ item item', item ∈ items ∧
    rows (placeAll toISOString now os items).1.1 !! k = Some item' ∧
    storedFor item' item.
Proof.
  induction items as [|item rest IH]; intros os k; cbn [placeAll];
    [by left|].
  destruct (put os (stamp toISOString now item)) as [e|os1] eqn:Hput;
    [by left|].
  specialize (IH os1 k).
  destruct (placeAll toISOString now os1 rest) as [[os2 n] thrown].
  cbn [fst] in *. destruct IH as [->|(x & x' & Hx & Hr & Hs)].
  - destruct (put_row _ _ _ k Hput) as [->|(item' & Hr & Hs)]; [by left|].
    right. exists item, item'. split_and!; [by left|done|].
    intros f Hid Hc. by rewrite Hs, stamp_other.
  - right. exists x, x'. split_and!; [by right|done..].
Qed.

(** X6.  A save never removes a record and never reaches beyond the items
    it is given: whatever the platform does, every record of the database
    afterwards is either the record that was there before, or sits in the
    store named and is one of the items given (stamped, and with the
    generated id in a store that generates keys). *)
Theorem saveToIndexedDB_only_upserts (env : Env) (now : Z)
    (storeName : string) (data : Data) (db : Database) (n : string) (k : Key) :
  row (saveToIndexedDB toISOString env now storeName data db).2 n k
    = row db n k ∨
  (n = storeName ∧
   ∃ item item', item ∈ itemsOf data ∧
     row (saveToIndexedDB toISOString env now storeName data db).2 n k
       = Some item' ∧
     storedFor item' item).
Proof.
  unfold saveToIndexedDB.
  destruct (openDatabase env db) as [e|db1] eqn:Hopen; [by left|].
  rewrite <- (openDatabase_row _ _ _ n k Hopen).
  destruct (stores db1 !! storeName) as [os|] eqn:Hs; [|by left].
  assert (row db1 storeName k = rows os !! k) as Hrow.
  { unfold row. by rewrite Hs. }
  destruct data as [item|items]; cbn [itemsOf].
  - destruct (put os (stamp toISOString now item)) as [e|os'] eqn:Hput;
      [by left|].
    destruct (request_error env storeName 0); [by left|].
    cbn [snd]. rewrite row_setStore. case_decide as Hn; [|by left]. subst n.
    rewrite Hrow.
    destruct (put_row _ _ _ k Hput) as [->|(item' & Hr & Hsame)]; [by left|].
    right. split; [done|]. exists item, item'. split_and!; [by left|done|].
    intros f Hid Hc. by rewrite Hsame, stamp_other.
  - pose proof (placeAll_row now items os k) as Hp.
    destruct (placeAll toISOString now os items) as [[os' placed] thrown].
    destruct (fireArray _ _ _ _ _ _) as [p [|]]; cbn [snd fst] in *;
      [|by left].
    rewrite row_setStore. case_decide as Hn; [|by left]. subst n.
    rewrite Hrow. destruct Hp as [->|Hp]; [by left|by right].
Qed.

(** ** An array with an item that cannot be stored *)

Lemma placeAll_throw now bad post e : ∀ pre os os',
  putAll toISOString now os pre = Some os' →
  put os' (stamp toISOString now bad) = inl e →
  placeAll toISOString now os (pre ++ bad :: post)
    = (os', length pre, Some e).
Proof.
  induction pre as [|item pre IH]; intros os os'; cbn [putAll placeAll app].
  - intros [= ->] ->. done.
  - destruct (put os (stamp toISOString now item)) as [e'|os1]; [done|].
    intros Hput Hbad. by rewrite (IH os1 os' Hput Hbad).
Qed.

Lemma putAll_valid now : ∀ pre os,
  (∀ item, item ∈ pre → is_Some (toKey (field item "id"))) →
  ∃ os', putAll toISOString now os pre = Some os' ∧
         autoIncrement os' = autoIncrement os.
Proof.
  induction pre as [|item pre IH]; intros os Hvalid; cbn [putAll]; [eauto|].
  destruct (Hvalid item) as [k Hk]; [by left|].
  destruct (put_keyed os (stamp toISOString now item) k) as (os1 & Hput & _).
  { unfold field. by rewrite stamp_other. }
  rewrite Hput.
  destruct (IH os1) as (os' & -> & Hauto).
  { intros x Hx. apply Hvalid. by right. }
  exists os'. split; [done|].
  by rewrite Hauto, (put_autoIncrement _ _ _ Hput).
Qed.

(** X7.  An array with an item that cannot be stored.  In a store without
    key generator, an item whose [id] is no valid key makes [put] throw
    inside the promise's executor: the promise is rejected with
    [DataError], but the requests placed for the items before it run and
    commit, so those items are in the store afterwards, as a save of them
    alone would have left them; the items behind it are never attempted. *)
Theorem saveToIndexedDB_array_invalid_item (env : Env) (now : Z)
    (storeName : string) (pre : list Item) (bad : Item) (post : list Item)
    (db db1 : Database) (os : ObjectStore) :
  openDatabase env db = inr db1 →
  stores db1 !! storeName = Some os →
  autoIncrement os = false →
  (∀ item, item ∈ pre → is_Some (toKey (field item "id"))) →
  toKey (field bad "id") = None →
  (∀ j, (j < length pre)%nat → request_error env storeName j = None) →
  ∃ os',
    putAll toISOString now os pre = Some os' ∧
    saveToIndexedDB toISOString env now storeName
      (Array (pre ++ bad :: post)) db
    = (Rejected DataError, setStore storeName os' db1).
Proof.
  intros Hopen Hs Hauto Hvalid Hbad Hreq.
  destruct (putAll_valid now pre os Hvalid) as (os' & Hput & Hauto').
  exists os'. split; [done|].
  assert (put os' (stamp toISOString now bad) = inl DataError) as Hthrow.
  { pose proof (put_cases os' (stamp toISOString now bad)) as Hc.
    revert Hc. unfold keyOf, field. rewrite stamp_other by done.
    fold (field bad "id"). rewrite Hauto', Hauto.
    destruct (field bad "id"); cbn in Hbad |- *; done. }
  unfold saveToIndexedDB. rewrite Hopen, Hs.
  rewrite (placeAll_throw now bad post DataError pre os os' Hput Hthrow).
  cbn [reject].
  pose proof (fireArray_settled (request_error env storeName)
                (length (pre ++ bad :: post)) (length pre) 0 0
                (Rejected DataError)) as Hp.
  pose proof (fireArray_commits (request_error env storeName)
                (length (pre ++ bad :: post)) (length pre) 0 0
                (Rejected DataError) Hreq) as Hc.
  destruct (fireArray _ _ _ _ _ _) as [p committed]. cbn [fst snd] in *.
  rewrite Hp, Hc by done. done.
Qed.

End Invariants.

(** ** Saving, deleting, clearing *)

Lemma openDatabase_succeeds env db :
  open_error env = None → version db ≤ DB_VERSION →
  ∃ db1, openDatabase env db = inr db1.
Proof.
  intros Ho Hv. unfold openDatabase. rewrite Ho.
  destruct (DB_VERSION <? version db) eqn:Hlt; [apply Z.ltb_lt in Hlt; lia|].
  destruct (version db <? DB_VERSION); eauto.
Qed.

Lemma deleteFromIndexedDB_healthy storeName id db os k :
  version db = DB_VERSION →
  stores db !! storeName = Some os →
  toKey id = Some k →
  deleteFromIndexedDB healthy storeName id db
  = (Resolved tt,
     setStore storeName
       {| autoIncrement := autoIncrement os;
          keyGenerator := keyGenerator os;
          rows := delete k (rows os) |} db).
Proof.
  intros Hv Hs Hk. unfold deleteFromIndexedDB.
  rewrite openDatabase_current by done. by rewrite Hs, Hk.
Qed.

Lemma getByIdFromIndexedDB_healthy storeName id db os k :
  version db = DB_VERSION →
  stores db !! storeName = Some os →
  toKey id = Some k →
  getByIdFromIndexedDB healthy storeName id db = (Resolved (rows os !! k), db).
Proof.
  intros Hv Hs Hk. unfold getByIdFromIndexedDB.
  rewrite openDatabase_current by done. by rewrite Hs, Hk.
Qed.

Section RoundTrips.
Variable toISOString : Z → string.

(** A save of one record that resolves: where the record went. *)
Lemma saveToIndexedDB_single_resolved env now storeName (r : Item) k db db' :
  toKey (field r "id") = Some k →
  saveToIndexedDB toISOString env now storeName (Single r) db
    = (Resolved tt, db') →
  ∃ db1 os os',
    openDatabase env db = inr db1 ∧
    stores db1 !! storeName = Some os ∧
    rows os' = <[k := stamp toISOString now r]> (rows os) ∧
    db' = setStore storeName os' db1.
Proof.
  intros Hk. unfold saveToIndexedDB.
  destruct (openDatabase env db) as [e|db1] eqn:Hopen; [done|].
  destruct (stores db1 !! storeName) as [os|] eqn:Hs; [|done].
  destruct (put_keyed os (stamp toISOString now r) k) as (os' & -> & Hrows).
  { unfold field. by rewrite stamp_other. }
  destruct (request_error env storeName 0); [done|].
  cbn [resolve]. intros [= <-]. by exists db1, os, os'.
Qed.

(** A save of one record changes nothing but the record under its key. *)
Lemma saveToIndexedDB_single_frame env now storeName (r : Item) k db n k' :
  toKey (field r "id") = Some k →
  (n, k') ≠ (storeName, k) →
  row (saveToIndexedDB toISOString env now storeName (Single r) db).2 n k'
  = row db n k'.
Proof.
  intros Hk Hne. unfold saveToIndexedDB.
  destruct (openDatabase env db) as [e|db1] eqn:Hopen; [done|].
  rewrite <- (openDatabase_row _ _ _ n k' Hopen).
  destruct (stores db1 !! storeName) as [os|] eqn:Hs; [|done].
  destruct (put_keyed os (stamp toISOString now r) k) as (os' & -> & Hrows).
  { unfold field. by rewrite stamp_other. }
  destruct (request_error env storeName 0); [done|].
  cbn [snd resolve]. rewrite row_setStore. case_decide as Hn; [|done].
  subst n. rewrite Hrows, lookup_insert_ne by congruence.
  unfold row. by rewrite Hs.
Qed.

(** X8.  Save, delete, read.  After a save of one record that resolved, a
    deletion of its id resolves, a read of the id then resolves with
    [null], and every other record of the database is as it was before
    the save. *)
Theorem saveToIndexedDB_deleteFromIndexedDB (env : Env) (now : Z)
    (storeName : string) (r : Item) (k : Key) (db db' : Database) :
  toKey (field r "id") = Some k →
  saveToIndexedDB toISOString env now storeName (Single r) db
    = (Resolved tt, db') →
  ∃ db'',
    deleteFromIndexedDB healthy storeName (field r "id") db'
      = (Resolved tt, db'') ∧
    getByIdFromIndexedDB healthy storeName (field r "id") db''
      = (Resolved None, db'') ∧
    (∀ n k', (n, k') ≠ (storeName, k) → row db'' n k' = row db n k').
Proof.
  intros Hk Hsave.
  destruct (saveToIndexedDB_single_resolved _ _ _ _ _ _ _ Hk Hsave)
    as (db1 & os & os' & Hopen & Hs & Hrows & ->).
  pose proof (openDatabase_version _ _ _ Hopen) as Hv.
  eexists. split_and!.
  - apply deleteFromIndexedDB_healthy; [done| |done].
    unfold setStore. cbn [stores]. apply lookup_insert_eq.
  - erewrite getByIdFromIndexedDB_healthy; [|done| |done].
    2:{ unfold setStore. cbn [stores]. apply lookup_insert_eq. }
    cbn [rows]. by rewrite lookup_delete_eq.
  - intros n k' Hne. rewrite row_setStore. case_decide as Hn.
    + subst n. cbn [rows].
      rewrite lookup_delete_ne, Hrows, lookup_insert_ne by congruence.
      rewrite <- (openDatabase_row _ _ _ storeName k' Hopen).
      unfold row. by rewrite Hs.
    + rewrite row_setStore, decide_False by done.
      apply (openDatabase_row _ _ _ _ _ Hopen).
Qed.

End RoundTrips.

(** X9.  Clearing a store.  When [clearIndexedDBStore] resolves, the store
    named has no record left, a read of the whole store gives the empty
    list, and the records of every other store are as they were; the
    store keeps its key generator, so ids handed out before are not handed
    out again.  When it does not resolve, no record has changed.
    [clearPendingOperations] is the same function. *)
Theorem clearIndexedDBStore_empties_one_store (env : Env)
    (storeName : string) (db : Database) :
  (∀ db', clearIndexedDBStore env storeName db = (Resolved tt, db') →
     getAllFromIndexedDB healthy storeName db' = (Resolved [], db') ∧
     (∀ k, row db' storeName k = None) ∧
     (∀ n k, n ≠ storeName → row db' n k = row db n k) ∧
     (∀ os os', stores db !! storeName = Some os →
                stores db' !! storeName = Some os' →
                keyGenerator os' = keyGenerator os)) ∧
  (∀ p db', clearIndexedDBStore env storeName db = (p, db') →
     p ≠ Resolved tt → ∀ n k, row db' n k = row db n k) ∧
  clearPendingOperations env storeName db
    = clearIndexedDBStore env storeName db.
Proof.
  split_and!; [| |apply clearPendingOperations_clearIndexedDBStore].
  - intros db'. unfold clearIndexedDBStore.
    destruct (openDatabase env db) as [e|db1] eqn:Hopen; [done|].
    destruct (stores db1 !! storeName) as [os|] eqn:Hs; [|done].
    destruct (request_error env storeName 0); [done|].
    intros [= <-]. pose proof (openDatabase_version _ _ _ Hopen) as Hv.
    split_and!.
    + erewrite getAllFromIndexedDB_success; [|by apply openDatabase_current| |done].
      2:{ unfold setStore. cbn [stores]. apply lookup_insert_eq. }
      unfold getAll, store_clear. cbn [rows]. by rewrite map_to_list_empty.
    + intros k. by rewrite row_setStore, decide_True.
    + intros n k Hn. rewrite row_setStore, decide_False by done.
      apply (openDatabase_row _ _ _ _ _ Hopen).
    + intros os0 os' Hs0. unfold setStore. cbn [stores].
      rewrite lookup_insert_eq. intros [= <-]. cbn [store_clear keyGenerator].
      revert Hopen. unfold openDatabase. destruct (open_error env); [done|].
      destruct (DB_VERSION <? version db); [done|].
      destruct (version db <? DB_VERSION); intros [= <-]; [|congruence].
      cbn [stores] in Hs. rewrite (onupgradeneeded_kept _ _ _ Hs0) in Hs.
      congruence.
  - intros p db'. unfold clearIndexedDBStore.
    destruct (openDatabase env db) as [e|db1] eqn:Hopen;
      [by intros [= <- <-]|].
    destruct (stores db1 !! storeName) as [os|] eqn:Hs.
    2:{ intros [= <- <-] _ n k. apply (openDatabase_row _ _ _ _ _ Hopen). }
    destruct (request_error env storeName 0).
    + intros [= <- <-] _ n k. apply (openDatabase_row _ _ _ _ _ Hopen).
    + by intros [= <- <-].
Qed.

(** ** The pending queues *)

Section Pending.
Variable toISOString : Z → string.

Lemma pendingOp_no_id now operation data :
  field (pendingOp toISOString now operation data) "id" = VUndefined.
Proof.
  unfold field, pendingOp.
  by rewrite !lookup_insert_ne, lookup_singleton_ne.
Qed.

(** X10.  Queueing an operation.  When [addToPendingOperations] resolves,
    the operation sits in the queue under a number the queue did not use,
    with the [operation], [data] and [timestamp] given and that number as
    [id]; no other record of the database changed.
    [getPendingOperations] then lists it with exactly the operations that
    were queued before, and [removePendingOperation] of the number puts
    every store back to the records it had. *)
Theorem addToPendingOperations_round_trip (env : Env) (now : Z)
    (storePrefix : string) (operation : Operations.OperationType)
    (data : Value) (db db' : Database) :
  addToPendingOperations toISOString env now storePrefix operation data db
    = (Resolved tt, db') →
  ∃ id : Z,
    row db storePrefix (inl id) = None ∧
    row db' storePrefix (inl id)
      = Some (<["id" := VNum id]> (pendingOp toISOString now operation data)) ∧
    (∀ n k, (n, k) ≠ (storePrefix, inl id) → row db' n k = row db n k) ∧
    (∃ ops,
       getPendingOperations healthy storePrefix db' = (Resolved ops, db') ∧
       ∀ item, item ∈ ops ↔
         item = <["id" := VNum id]> (pendingOp toISOString now operation data)
         ∨ ∃ k, row db storePrefix k = Some item) ∧
    (∃ db'',
       removePendingOperation healthy storePrefix (VNum id) db'
         = (Resolved tt, db'') ∧
       ∀ n k, row db'' n k = row db n k).
Proof.
  unfold addToPendingOperations.
  destruct (openDatabase env db) as [e|db1] eqn:Hopen; [done|].
  pose proof (openDatabase_version _ _ _ Hopen) as Hv.
  destruct (stores db1 !! storePrefix) as [os|] eqn:Hs; [|done].
  assert (∀ k, row db storePrefix k = rows os !! k) as Hrow.
  { intros k. rewrite <- (openDatabase_row _ _ _ storePrefix k Hopen).
    unfold row. by rewrite Hs. }
  unfold store_add, keyOf, put. rewrite pendingOp_no_id.
  destruct (autoIncrement os) eqn:Hauto; [|done].
  destruct (rows os !! inl (keyGenerator os)) as [x|] eqn:Hfree; [done|].
  destruct (request_error env storePrefix 0); [done|].
  intros [= <-]. exists (keyGenerator os).
  set (queued := <["id" := VNum (keyGenerator os)]>
                   (pendingOp toISOString now operation data)).
  split_and!.
  - by rewrite Hrow.
  - rewrite row_setStore, decide_True by done. cbn [rows].
    by rewrite lookup_insert_eq.
  - intros n k Hne. rewrite row_setStore. case_decide as Hn.
    + subst n. cbn [rows]. rewrite lookup_insert_ne by congruence.
      by rewrite Hrow.
    + apply (openDatabase_row _ _ _ _ _ Hopen).
  - eexists. split.
    + rewrite getPendingOperations_getAllFromIndexedDB.
      apply getAllFromIndexedDB_success;
        [by apply openDatabase_current| |done].
      unfold setStore. cbn [stores]. apply lookup_insert_eq.
    + intros item. rewrite getAll_elem. cbn [rows]. split.
      * intros [k Hk]. rewrite lookup_insert in Hk.
        case_decide; [left; congruence|right]. exists k. by rewrite Hrow.
      * intros [->|[k Hk]].
        -- exists (inl (keyGenerator os)). by rewrite lookup_insert_eq.
        -- exists k. rewrite Hrow in Hk.
           rewrite lookup_insert_ne; [done|]. intros <-. congruence.
  - eexists. split.
    + rewrite removePendingOperation_deleteFromIndexedDB.
      apply deleteFromIndexedDB_healthy; [done| |done].
      unfold setStore. cbn [stores]. apply lookup_insert_eq.
    + intros n k. rewrite row_setStore. case_decide as Hn.
      * subst n. cbn [rows]. rewrite delete_insert_id by done.
        by rewrite Hrow.
      * rewrite row_setStore, decide_False by done.
        apply (openDatabase_row _ _ _ _ _ Hopen).
Qed.

End Pending.

(** ** The records of one user *)

(** A run of deletions leaves a record as it was, unless it is under the
    id of an item of the list, and then it is gone. *)
Lemma deleteEach_row denv storeName : ∀ items db n k,
  version db = DB_VERSION →
  row (deleteEach denv storeName items db).2 n k = row db n k ∨
  (n = storeName ∧
   row (deleteEach denv storeName items db).2 n k = None ∧
   ∃ item, item ∈ items ∧ toKey (field item "id") = Some k).
Proof.
  induction items as [|x items IH]; intros db n k Hv; [by left|].
  cbn [deleteEach].
  pose proof (deleteFromIndexedDB_row (denv (field x "id")) storeName
                (field x "id") db n k Hv) as Hhead.
  pose proof (deleteFromIndexedDB_kept (denv (field x "id")) storeName
                (field x "id") db Hv) as [Hv' _].
  destruct (deleteFromIndexedDB _ _ _ db) as [[[]|e|] db1]; cbn [snd] in *.
  - destruct (IH db1 n k Hv') as [->|(-> & Hnone & item & Hin & Hk)].
    + destruct Hhead as [->|(-> & Hk & Hnone)]; [by left|].
      right. split_and!; [done..|]. exists x. split; [by left|done].
    + right. split_and!; [done..|]. exists item. split; [by right|done].
  - destruct Hhead as [->|(-> & Hk & Hnone)]; [by left|].
    right. split_and!; [done..|]. exists x. split; [by left|done].
  - destruct Hhead as [->|(-> & Hk & Hnone)]; [by left|].
    right. split_and!; [done..|]. exists x. split; [by left|done].
Qed.

(** With nothing failing every deletion of the run goes through. *)
Lemma deleteEach_healthy storeName : ∀ items db,
  version db = DB_VERSION →
  is_Some (stores db !! storeName) →
  (∀ item, item ∈ items → is_Some (toKey (field item "id"))) →
  (deleteEach (λ _, healthy) storeName items db).1 = Resolved tt ∧
  ∀ item k, item ∈ items → toKey (field item "id") = Some k →
    row (deleteEach (λ _, healthy) storeName items db).2 storeName k = None.
Proof.
  induction items as [|x items IH]; intros db Hv [os Hs] Hvalid.
  { split; [done|]. intros item k Hin. by inversion Hin. }
  destruct (Hvalid x) as [kx Hkx]; [by left|].
  cbn [deleteEach].
  rewrite (deleteFromIndexedDB_healthy storeName _ db os kx Hv Hs Hkx).
  set (db1 := setStore storeName _ db).
  assert (version db1 = DB_VERSION) as Hv1 by done.
  assert (is_Some (stores db1 !! storeName)) as Hs1.
  { unfold db1, setStore. cbn [stores]. rewrite lookup_insert_eq. eauto. }
  destruct (IH db1 Hv1 Hs1) as [Hres Hgone].
  { intros item Hin. apply Hvalid. by right. }
  split; [done|]. intros item k [->|Hin]%elem_of_cons Hk.
  - assert (k = kx) as -> by congruence.
    destruct (deleteEach_row (λ _, healthy) storeName items db1 storeName kx
                Hv1) as [->|(_ & -> & _)]; [|done].
    unfold db1. rewrite row_setStore, decide_True by done.
    cbn [rows]. apply lookup_delete_eq.
  - by eapply Hgone.
Qed.

(** The database [clearUserDataFromStore] leaves, row by row, through
    the test of its filter. *)
Lemma clearUserDataFromStore_rows (storeName userId : string)
    (db : Database) :
  wellKeyed db →
  version db ≤ DB_VERSION →
  (∀ env denv n k item,
     row (clearUserDataFromStore env denv storeName userId db).2 n k
       = Some item →
     row db n k = Some item) ∧
  (∀ env denv n k item,
     row db n k = Some item →
     n ≠ storeName ∨ ownedBy userId item = false →
     row (clearUserDataFromStore env denv storeName userId db).2 n k
       = Some item) ∧
  (∀ k item,
     row db storeName k = Some item →
     ownedBy userId item = true →
     row (clearUserDataFromStore healthy (λ _, healthy) storeName userId
            db).2 storeName k = None) ∧
  (is_Some (stores db !! storeName) →
   (clearUserDataFromStore healthy (λ _, healthy) storeName userId db).1
     = Resolved tt).
Proof.
  intros Hw Hver. split_and!.
  - intros env denv n k item. apply clearUserDataFromStore_shrinks.
  - intros env denv n k item Hrow Hother.
    unfold clearUserDataFromStore, getAllFromIndexedDB.
    destruct (openDatabase env db) as [e|db1] eqn:Hopen; [done|].
    pose proof (openDatabase_version _ _ _ Hopen) as Hv.
    pose proof (wellKeyed_openDatabase _ _ _ Hopen Hw) as Hw1.
    rewrite <- (openDatabase_row _ _ _ n k Hopen) in Hrow.
    destruct (stores db1 !! storeName) as [os|] eqn:Hs; [|done].
    destruct (request_error env storeName 0); [done|].
    destruct (deleteEach_row denv storeName
                (filter (λ item, ownedBy userId item = true) (getAll os))
                db1 n k Hv) as [->|(-> & _ & x & Hx & Hk)]; [done|].
    exfalso. apply list_elem_of_filter in Hx as [Howned Hx].
    apply getAll_elem in Hx as [k' Hk'].
    assert (row db1 storeName k' = Some x) as Hrow'.
    { apply row_Some. eauto. }
    pose proof (Hw1 _ _ _ Hrow') as Hkey.
    assert (k' = k) as -> by congruence.
    assert (x = item) as -> by congruence.
    destruct Hother as [?|Hno]; [done|congruence].
  - intros k item Hrow Howned.
    destruct (openDatabase_succeeds healthy db eq_refl Hver) as [db1 Hopen].
    pose proof (openDatabase_version _ _ _ Hopen) as Hv.
    pose proof (wellKeyed_openDatabase _ _ _ Hopen Hw) as Hw1.
    rewrite <- (openDatabase_row _ _ _ storeName k Hopen) in Hrow.
    pose proof Hrow as (os & Hs & Hk)%row_Some.
    unfold clearUserDataFromStore.
    rewrite (getAllFromIndexedDB_success healthy storeName db db1 os)
      by done.
    eapply deleteEach_healthy; [done|eauto| | |by apply (Hw1 storeName)].
    + intros x [_ [k' Hk']%getAll_elem]%list_elem_of_filter.
      exists k'. apply (Hw1 storeName). apply row_Some. eauto.
    + apply list_elem_of_filter. split; [done|]. apply getAll_elem. eauto.
  - intros [os0 Hs0].
    destruct (openDatabase_succeeds healthy db eq_refl Hver) as [db1 Hopen].
    pose proof (openDatabase_version _ _ _ Hopen) as Hv.
    pose proof (wellKeyed_openDatabase _ _ _ Hopen Hw) as Hw1.
    assert (∃ os, stores db1 !! storeName = Some os) as [os Hs].
    { revert Hopen. unfold openDatabase. cbn [healthy open_error].
      destruct (DB_VERSION <? version db); [done|].
      destruct (version db <? DB_VERSION); intros [= <-]; [|eauto].
      exists os0. by apply onupgradeneeded_kept. }
    unfold clearUserDataFromStore.
    rewrite (getAllFromIndexedDB_success healthy storeName db db1 os)
      by done.
    eapply deleteEach_healthy; [done|eauto|].
    intros x [_ [k' Hk']%getAll_elem]%list_elem_of_filter.
    exists k'. apply (Hw1 storeName). apply row_Some. eauto.
Qed.

(** [===] against a string holds of that very string and of no other
    value. *)
Lemma strictEqualsString_true v s :
  strictEqualsString v s = true ↔ v = VStr s.
Proof.
  unfold strictEqualsString. destruct v; try (split; [done|by intros [=]]).
  rewrite String.eqb_eq. split; [by intros ->|by intros [= ->]].
Qed.

(** The filter keeps the records whose [userId] or [user_id] is the
    user id, and no other. *)
Lemma ownedBy_true userId item :
  ownedBy userId item = true ↔
  field item "userId" = VStr userId ∨ field item "user_id" = VStr userId.
Proof.
  unfold ownedBy. by rewrite orb_true_iff, !strictEqualsString_true.
Qed.

(** X11.  [clearUserDataFromStore] removes the records of the user and no
    other.  In a database whose records sit under their id: whatever the
    platform does, no record is added or changed, and a record of another
    store, or one whose [userId] and [user_id] both differ from the
    string [userId], stays; with nothing failing, every record of the
    store whose [userId] or [user_id] is the string [userId] is gone, and
    the promise is resolved when the store exists. *)
Theorem clearUserDataFromStore_exact (storeName userId : string)
    (db : Database) :
  wellKeyed db →
  version db ≤ DB_VERSION →
  (∀ env denv n k item,
     row (clearUserDataFromStore env denv storeName userId db).2 n k
       = Some item →
     row db n k = Some item) ∧
  (∀ env denv n k item,
     row db n k = Some item →
     n ≠ storeName ∨
     (field item "userId" ≠ VStr userId ∧
      field item "user_id" ≠ VStr userId) →
     row (clearUserDataFromStore env denv storeName userId db).2 n k
       = Some item) ∧
  (∀ k item,
     row db storeName k = Some item →
     field item "userId" = VStr userId ∨
     field item "user_id" = VStr userId →
     row (clearUserDataFromStore healthy (λ _, healthy) storeName userId
            db).2 storeName k = None) ∧
  (is_Some (stores db !! storeName) →
   (clearUserDataFromStore healthy (λ _, healthy) storeName userId db).1
     = Resolved tt).
Proof.
  intros Hw Hver.
  destruct (clearUserDataFromStore_rows storeName userId db Hw Hver)
    as (Hshrinks & Hkept & Hgone & Hres).
  split_and!; [done| | |done].
  - intros env denv n k item Hrow Hother. apply Hkept; [done|].
    destruct Hother as [?|[Hu Hu']]; [by left|right].
    destruct (ownedBy userId item) eqn:Ho; [|done].
    apply ownedBy_true in Ho as [?|?]; done.
  - intros k item Hrow Ho. apply (Hgone k item); [done|].
    by apply ownedBy_true.
Qed.

(** X12.  When the database cannot be opened, [clearUserDataFromStore]
    still resolves: [getAllFromIndexedDB] answers the failed open with
    the empty list, there is nothing to delete, and the records of the
    user stay where they are. *)
Theorem clearUserDataFromStore_open_failure (env : Env) (denv : Value → Env)
    (storeName userId : string) (db : Database) (e : Error) :
  openDatabase env db = inl e →
  clearUserDataFromStore env denv storeName userId db = (Resolved tt, db).
Proof.
  intros Hopen. unfold clearUserDataFromStore, getAllFromIndexedDB.
  by rewrite Hopen.
Qed.

Section Refresh.
Variable toISOString : Z → string.

(** X13.  [refreshUserCache] touches the user's timestamp record and nothing
    else.  In a database whose records sit under their id: whatever the
    platform does, every record but the one under
    [`${userId}_timestamp`] in [userData] is as it was, and when there
    is no such record none is created; when there is one and nothing
    fails, the promise resolves and the record has [value] set to the
    time of the call, [cached_at] as [saveToIndexedDB] stamps it and
    every other field as before. *)
Theorem refreshUserCache_touches_only_the_timestamp (now now' : Z)
    (userId : string) (db : Database) :
  wellKeyed db →
  version db ≤ DB_VERSION →
  (∀ env env' n k,
     (n, k) ≠ (USER_DATA, inr (userId +:+ "_timestamp")) →
     row (refreshUserCache toISOString env env' now now' userId db).2 n k
     = row db n k) ∧
  (row db USER_DATA (inr (userId +:+ "_timestamp")) = None →
   ∀ env env' n k,
     row (refreshUserCache toISOString env env' now now' userId db).2 n k
     = row db n k) ∧
  (∀ userData,
     row db USER_DATA (inr (userId +:+ "_timestamp")) = Some userData →
     (refreshUserCache toISOString healthy healthy now now' userId db).1
       = Resolved tt ∧
     ∃ userData',
       row (refreshUserCache toISOString healthy healthy now now' userId
              db).2 USER_DATA (inr (userId +:+ "_timestamp"))
         = Some userData' ∧
       userData' !! "value" = Some (VStr (toISOString now)) ∧
       userData' !! "cached_at" =
         Some (if truthy (field userData "cached_at")
               then field userData "cached_at"
               else VStr (toISOString now')) ∧
       (∀ f, f ≠ "value" → f ≠ "cached_at" →
             userData' !! f = userData !! f)).
Proof.
  intros Hw Hver.
  assert (∀ env db1 os u,
            openDatabase env db = inr db1 →
            stores db1 !! USER_DATA = Some os →
            rows os !! inr (userId +:+ "_timestamp") = Some u →
            toKey (field (<["value" := VStr (toISOString now)]> u) "id")
            = Some (inr (userId +:+ "_timestamp"))) as Hid.
  { intros env db1 os u Hopen Hs Hu. unfold field.
    rewrite lookup_insert_ne by done.
    apply (wellKeyed_openDatabase _ _ _ Hopen Hw USER_DATA).
    apply row_Some. eauto. }
  split_and!.
  - intros env env' n k Hne. unfold refreshUserCache, getByIdFromIndexedDB.
    destruct (openDatabase env db) as [e|db1] eqn:Hopen; [done|].
    rewrite <- (openDatabase_row _ _ _ n k Hopen).
    destruct (stores db1 !! USER_DATA) as [os|] eqn:Hs; [|done].
    cbn [toKey].
    destruct (request_error env USER_DATA 0); [done|].
    destruct (rows os !! inr (userId +:+ "_timestamp")) as [u|] eqn:Hu;
      [|done].
    eapply saveToIndexedDB_single_frame; [|done]. eauto.
  - intros Hnone env env' n k. unfold refreshUserCache, getByIdFromIndexedDB.
    destruct (openDatabase env db) as [e|db1] eqn:Hopen; [done|].
    rewrite <- (openDatabase_row _ _ _ n k Hopen).
    rewrite <- (openDatabase_row _ _ _ _ _ Hopen) in Hnone.
    destruct (stores db1 !! USER_DATA) as [os|] eqn:Hs; [|done].
    cbn [toKey].
    destruct (request_error env USER_DATA 0); [done|].
    unfold row in Hnone. rewrite Hs in Hnone. cbn in Hnone.
    by rewrite Hnone.
  - intros u Hrow.
    destruct (openDatabase_succeeds healthy db eq_refl Hver) as [db1 Hopen].
    pose proof (openDatabase_version _ _ _ Hopen) as Hv.
    rewrite <- (openDatabase_row _ _ _ _ _ Hopen) in Hrow.
    apply row_Some in Hrow as (os & Hs & Hu).
    pose proof (Hid _ _ _ _ Hopen Hs Hu) as Hkey.
    unfold refreshUserCache, getByIdFromIndexedDB.
    rewrite Hopen, Hs. cbn [toKey healthy request_error]. rewrite Hu.
    unfold saveToIndexedDB. rewrite openDatabase_current by done.
    rewrite Hs.
    destruct (put_keyed os
                (stamp toISOString now'
                   (<["value" := VStr (toISOString now)]> u))
                (inr (userId +:+ "_timestamp"))) as (os' & -> & Hrows).
    { unfold field. rewrite stamp_other by done. exact Hkey. }
    cbn [healthy request_error resolve fst snd]. split; [done|].
    eexists. split_and!.
    + rewrite row_setStore, decide_True by done.
      by rewrite Hrows, lookup_insert_eq.
    + rewrite stamp_other by done. apply lookup_insert_eq.
    + rewrite stamp_cached_at. unfold field.
      by rewrite lookup_insert_ne.
    + intros f Hval Hc. rewrite stamp_other by done.
      by rewrite lookup_insert_ne.
Qed.

End Refresh.

(** ** The rest of the file, run *)

(** A second user's task, the timestamp record of user u1, and a database
    holding them next to the sample records. *)
Definition task9 : Item :=
  {[ "id" := VStr "t9"; "name" := VStr "Quiz"; "user_id" := VStr "u1" ]}.
Definition stampOfU1 : Item :=
  {[ "id" := VStr "u1_timestamp"; "value" := VStr "2023-11-14T22:13:20.000Z";
     "cached_at" := VStr "2023-11-14T22:13:20.000Z" ]}.
Definition noId : Item := {[ "name" := VStr "No id" ]}.

Definition usersDatabase : Database :=
  (saveToIndexedDB isoOf healthy 1700036000000 "userData" (Single stampOfU1)
     (saveToIndexedDB isoOf healthy 1700036000000 "tasks"
        (Array [task1; task9]) emptyDatabase).2).2.

Lemma emptyDatabase_wellKeyed : wellKeyed emptyDatabase.
Proof. intros name k item (os & Hs & _)%row_Some. done. Qed.

Lemma usersDatabase_wellKeyed : wellKeyed usersDatabase.
Proof.
  unfold usersDatabase. do 2 apply saveToIndexedDB_wellKeyed.
  exact emptyDatabase_wellKeyed.
Qed.

Definition closed : Env :=
  {| open_error := Some (mkError (DOMExceptionC "UnknownError")
                           "The database could not be opened.");
     request_error := λ _ _, None |}.

Example clearUserDataFromStore_sample :
  row usersDatabase "tasks" (inr "t9")
    = Some (<["cached_at" := VStr "2023-11-15T08:13:20.000Z"]> task9) ∧
  row (clearUserDataFromStore healthy (λ _, healthy) "tasks" "u1"
         usersDatabase).2 "tasks" (inr "t9") = None ∧
  row (clearUserDataFromStore healthy (λ _, healthy) "tasks" "u1"
         usersDatabase).2 "tasks" (inr "t1")
    = Some (<["cached_at" := VStr "2023-11-15T08:13:20.000Z"]> task1) ∧
  clearUserDataFromStore closed (λ _, healthy) "tasks" "u1" usersDatabase
    = (Resolved tt, usersDatabase).
Proof. split_and!; vm_compute; reflexivity. Qed.

Example addToPendingOperations_sample :
  row (addToPendingOperations isoOf healthy 1700036000000
         "pendingTaskOperations" Operations.OpCreate (VStr "{}")
         sampleDatabase).2 "pendingTaskOperations" (inl 2)
  = Some {[ "id" := VNum 2; "operation" := VStr "create";
            "data" := VStr "{}";
            "timestamp" := VStr "2023-11-15T08:13:20.000Z" ]} ∧
  (addToPendingOperations isoOf healthy 1700036000000 "tasks"
     Operations.OpCreate (VStr "{}") sampleDatabase).1
  = Rejected DataError.
Proof. split_and!; vm_compute; reflexivity. Qed.

Lemma writers_keep_records_under_their_id_witness :
  (∀ env now storeName data,
     wellKeyed (saveToIndexedDB isoOf env now storeName data usersDatabase).2) ∧
  (∀ env storeName id,
     wellKeyed (deleteFromIndexedDB env storeName id usersDatabase).2) ∧
  (∀ env storeName,
     wellKeyed (clearIndexedDBStore env storeName usersDatabase).2) ∧
  (∀ env now storePrefix operation data,
     wellKeyed
       (addToPendingOperations isoOf env now storePrefix operation
          data usersDatabase).2) ∧
  (∀ env storePrefix id,
     wellKeyed (removePendingOperation env storePrefix id usersDatabase).2) ∧
  (∀ env storePrefix,
     wellKeyed (clearPendingOperations env storePrefix usersDatabase).2) ∧
  (∀ env denv storeName userId,
     wellKeyed
       (clearUserDataFromStore env denv storeName userId usersDatabase).2) ∧
  (∀ env env' now now' userId,
     wellKeyed
       (refreshUserCache isoOf env env' now now' userId usersDatabase).2) ∧
  (∀ env denv now,
     wellKeyed (cleanupStaleCacheData timeOf env denv now usersDatabase).2).
Proof.
  apply (writers_keep_records_under_their_id isoOf timeOf usersDatabase).
  exact usersDatabase_wellKeyed.
Defined.

Lemma saveToIndexedDB_array_invalid_item_witness :
  ∃ os',
    putAll isoOf 1700000000000
      {| autoIncrement := false; keyGenerator := 1; rows := ∅ |} [task1]
      = Some os' ∧
    saveToIndexedDB isoOf healthy 1700000000000 "tasks"
      (Array ([task1] ++ noId :: [task2])) emptyDatabase
    = (Rejected DataError,
       setStore "tasks" os'
         {| version := DB_VERSION;
            stores := onupgradeneeded (stores emptyDatabase) |}).
Proof.
  apply (saveToIndexedDB_array_invalid_item isoOf healthy 1700000000000
           "tasks" [task1] noId [task2] emptyDatabase).
  - reflexivity.
  - vm_compute. reflexivity.
  - reflexivity.
  - intros item Hin. apply list_elem_of_singleton in Hin as ->.
    exists (inr "t1"). vm_compute. reflexivity.
  - vm_compute. reflexivity.
  - reflexivity.
Defined.

Lemma saveToIndexedDB_deleteFromIndexedDB_witness :
  ∃ db'',
    deleteFromIndexedDB healthy "tasks" (field task1 "id")
      (saveToIndexedDB isoOf healthy 1700036000000 "tasks" (Single task1)
         emptyDatabase).2
      = (Resolved tt, db'') ∧
    getByIdFromIndexedDB healthy "tasks" (field task1 "id") db''
      = (Resolved None, db'') ∧
    (∀ n k', (n, k') ≠ ("tasks", inr "t1") →
       row db'' n k' = row emptyDatabase n k').
Proof.
  apply (saveToIndexedDB_deleteFromIndexedDB isoOf healthy 1700036000000
           "tasks" task1 (inr "t1") emptyDatabase).
  - vm_compute. reflexivity.
  - vm_compute. reflexivity.
Defined.

Lemma addToPendingOperations_round_trip_witness :
  ∃ id : Z,
    row sampleDatabase "pendingTaskOperations" (inl id) = None ∧
    row (addToPendingOperations isoOf healthy 1700036000000
           "pendingTaskOperations" Operations.OpCreate (VStr "{}")
           sampleDatabase).2 "pendingTaskOperations" (inl id)
      = Some (<["id" := VNum id]>
                (pendingOp isoOf 1700036000000 Operations.OpCreate
                   (VStr "{}"))) ∧
    (∀ n k, (n, k) ≠ ("pendingTaskOperations", inl id) →
       row (addToPendingOperations isoOf healthy 1700036000000
              "pendingTaskOperations" Operations.OpCreate (VStr "{}")
              sampleDatabase).2 n k
       = row sampleDatabase n k) ∧
    (∃ ops,
       getPendingOperations healthy "pendingTaskOperations"
         (addToPendingOperations isoOf healthy 1700036000000
            "pendingTaskOperations" Operations.OpCreate (VStr "{}")
            sampleDatabase).2
       = (Resolved ops,
          (addToPendingOperations isoOf healthy 1700036000000
             "pendingTaskOperations" Operations.OpCreate (VStr "{}")
             sampleDatabase).2) ∧
       ∀ item, item ∈ ops ↔
         item = <["id" := VNum id]>
                  (pendingOp isoOf 1700036000000 Operations.OpCreate
                     (VStr "{}"))
         ∨ ∃ k, row sampleDatabase "pendingTaskOperations" k = Some item) ∧
    (∃ db'',
       removePendingOperation healthy "pendingTaskOperations" (VNum id)
         (addToPendingOperations isoOf healthy 1700036000000
            "pendingTaskOperations" Operations.OpCreate (VStr "{}")
            sampleDatabase).2
         = (Resolved tt, db'') ∧
       ∀ n k, row db'' n k = row sampleDatabase n k).
Proof.
  apply (addToPendingOperations_round_trip isoOf healthy 1700036000000
           "pendingTaskOperations" Operations.OpCreate (VStr "{}")
           sampleDatabase).
  vm_compute. reflexivity.
Defined.

(** Clearing the tasks of user u1: the task whose [user_id] is u1 is
    gone, the task with no user stays, the record of another store stays
    although its id starts with the user id, and the promise resolves. *)
Lemma clearUserDataFromStore_exact_witness :
  row (clearUserDataFromStore healthy (λ _, healthy) "tasks" "u1"
         usersDatabase).2 "tasks" (inr "t9") = None ∧
  row (clearUserDataFromStore healthy (λ _, healthy) "tasks" "u1"
         usersDatabase).2 "tasks" (inr "t1")
    = Some (<["cached_at" := VStr "2023-11-15T08:13:20.000Z"]> task1) ∧
  row (clearUserDataFromStore healthy (λ _, healthy) "tasks" "u1"
         usersDatabase).2 "userData" (inr "u1_timestamp")
    = Some stampOfU1 ∧
  (clearUserDataFromStore healthy (λ _, healthy) "tasks" "u1"
     usersDatabase).1 = Resolved tt.
Proof.
  destruct (clearUserDataFromStore_exact "tasks" "u1" usersDatabase
              usersDatabase_wellKeyed ltac:(vm_compute; discriminate))
    as (_ & Hkept & Hgone & Hres).
  split_and!.
  - apply (Hgone (inr "t9")
             (<["cached_at" := VStr "2023-11-15T08:13:20.000Z"]> task9));
      [vm_compute; reflexivity|]. right. vm_compute; reflexivity.
  - apply Hkept; [vm_compute; reflexivity|]. right.
    split; vm_compute; discriminate.
  - apply Hkept; [vm_compute; reflexivity|]. left. discriminate.
  - apply Hres. vm_compute. eauto.
Defined.

Lemma clearUserDataFromStore_open_failure_witness :
  clearUserDataFromStore closed (λ _, healthy) "tasks" "u1" usersDatabase
  = (Resolved tt, usersDatabase).
Proof.
  apply (clearUserDataFromStore_open_failure closed (λ _, healthy) "tasks"
           "u1" usersDatabase
           (mkError (DOMExceptionC "UnknownError")
              "The database could not be opened.")).
  reflexivity.
Defined.

Lemma refreshUserCache_touches_only_the_timestamp_witness :
  (∀ env env' n k,
     (n, k) ≠ (USER_DATA, inr ("u1" +:+ "_timestamp")) →
     row (refreshUserCache isoOf env env' 1700036000000 1700036000000 "u1"
            usersDatabase).2 n k
     = row usersDatabase n k) ∧
  (row usersDatabase USER_DATA (inr ("u1" +:+ "_timestamp")) = None →
   ∀ env env' n k,
     row (refreshUserCache isoOf env env' 1700036000000 1700036000000 "u1"
            usersDatabase).2 n k
     = row usersDatabase n k) ∧
  (∀ userData,
     row usersDatabase USER_DATA (inr ("u1" +:+ "_timestamp"))
       = Some userData →
     (refreshUserCache isoOf healthy healthy 1700036000000 1700036000000
        "u1" usersDatabase).1 = Resolved tt ∧
     ∃ userData',
       row (refreshUserCache isoOf healthy healthy 1700036000000
              1700036000000 "u1" usersDatabase).2 USER_DATA
           (inr ("u1" +:+ "_timestamp"))
         = Some userData' ∧
       userData' !! "value" = Some (VStr (isoOf 1700036000000)) ∧
       userData' !! "cached_at" =
         Some (if truthy (field userData "cached_at")
               then field userData "cached_at"
               else VStr (isoOf 1700036000000)) ∧
       (∀ f, f ≠ "value" → f ≠ "cached_at" →
             userData' !! f = userData !! f)).
Proof.
  apply (refreshUserCache_touches_only_the_timestamp isoOf 1700036000000
           1700036000000 "u1" usersDatabase).
  - exact usersDatabase_wellKeyed.
  - vm_compute. discriminate.
Defined.

Example refreshUserCache_sample :
  row (refreshUserCache isoOf healthy healthy 1700036000000 1700036000000
         "u1" usersDatabase).2 "userData" (inr "u1_timestamp")
  = Some (<["value" := VStr "2023-11-15T08:13:20.000Z"]> stampOfU1) ∧
  refreshUserCache isoOf healthy healthy 1700036000000 1700036000000 "u2"
    usersDatabase
  = (Resolved tt, usersDatabase).
Proof. split_and!; vm_compute; reflexivity. Qed.

(** ** Any sequence of calls *)

(** What the functions of the file do to the database, taken apart: an
    open (with its upgrade), a [put], a [delete] or a [clear] on a store
    there is. *)
Inductive step : Database → Database → Prop :=
| step_open env db db1 :
    openDatabase env db = inr db1 → step db db1
| step_put name os (item : Item) os' db :
    stores db !! name = Some os → put os item = inr os' →
    step db (setStore name os' db)
| step_delete name os (k : Key) db :
    stores db !! name = Some os →
    step db (setStore name
               {| autoIncrement := autoIncrement os;
                  keyGenerator := keyGenerator os;
                  rows := delete k (rows os) |} db)
| step_clear name os db :
    stores db !! name = Some os →
    step db (setStore name (store_clear os) db).

Lemma setStore_setStore name os1 os2 db :
  setStore name os2 (setStore name os1 db) = setStore name os2 db.
Proof. unfold setStore. cbn [version stores]. by rewrite insert_insert_eq. Qed.

Lemma setStore_id name os db :
  stores db !! name = Some os → setStore name os db = db.
Proof.
  intros Hs. destruct db as [v ss]. unfold setStore. cbn in *.
  by rewrite insert_id.
Qed.

Lemma stores_setStore name os db :
  stores (setStore name os db) !! name = Some os.
Proof. unfold setStore. cbn [stores]. apply lookup_insert_eq. Qed.

Lemma deleteFromIndexedDB_steps env storeName id db :
  rtc step db (deleteFromIndexedDB env storeName id db).2.
Proof.
  unfold deleteFromIndexedDB.
  destruct (openDatabase env db) as [e|db1] eqn:Hopen; [done|].
  assert (rtc step db db1) as Hstep by (eapply rtc_once, step_open; eauto).
  destruct (stores db1 !! storeName) as [os|] eqn:Hs; [|done].
  destruct (toKey id) as [k|]; [|done].
  destruct (request_error env storeName 0); [done|].
  cbn [snd]. eapply rtc_r; [done|]. by apply step_delete.
Qed.

Lemma clearIndexedDBStore_steps env storeName db :
  rtc step db (clearIndexedDBStore env storeName db).2.
Proof.
  unfold clearIndexedDBStore.
  destruct (openDatabase env db) as [e|db1] eqn:Hopen; [done|].
  assert (rtc step db db1) as Hstep by (eapply rtc_once, step_open; eauto).
  destruct (stores db1 !! storeName) as [os|] eqn:Hs; [|done].
  destruct (request_error env storeName 0); [done|].
  cbn [snd]. eapply rtc_r; [done|]. by apply step_clear.
Qed.

Lemma getAllFromIndexedDB_steps env storeName db :
  rtc step db (getAllFromIndexedDB env storeName db).2.
Proof.
  unfold getAllFromIndexedDB.
  destruct (openDatabase env db) as [e|db1] eqn:Hopen; [done|].
  assert (rtc step db db1) as Hstep by (eapply rtc_once, step_open; eauto).
  destruct (stores db1 !! storeName) as [os|]; [|done].
  by destruct (request_error env storeName 0).
Qed.

Lemma getByIdFromIndexedDB_steps env storeName id db :
  rtc step db (getByIdFromIndexedDB env storeName id db).2.
Proof.
  unfold getByIdFromIndexedDB.
  destruct (openDatabase env db) as [e|db1] eqn:Hopen; [done|].
  assert (rtc step db db1) as Hstep by (eapply rtc_once, step_open; eauto).
  destruct (stores db1 !! storeName) as [os|]; [|done].
  destruct (toKey id); [|done].
  by destruct (request_error env storeName 0).
Qed.

Lemma deleteEach_steps denv storeName : ∀ items db,
  rtc step db (deleteEach denv storeName items db).2.
Proof.
  induction items as [|x items IH]; intros db; [done|].
  cbn [deleteEach].
  pose proof (deleteFromIndexedDB_steps (denv (field x "id")) storeName
                (field x "id") db) as Hd.
  destruct (deleteFromIndexedDB _ _ _ db) as [[[]|e|] db1]; cbn [snd] in *;
    [|done..].
  etrans; [exact Hd|apply IH].
Qed.

Lemma clearUserDataFromStore_steps env denv storeName userId db :
  rtc step db (clearUserDataFromStore env denv storeName userId db).2.
Proof.
  unfold clearUserDataFromStore.
  pose proof (getAllFromIndexedDB_steps env storeName db) as Hg.
  destruct (getAllFromIndexedDB env storeName db) as [[items|e|] db1];
    cbn [snd] in *; [|done..].
  etrans; [exact Hg|apply deleteEach_steps].
Qed.

Section Steps.
Variable toISOString : Z → string.
Variable getTime : Value → option Z.

Lemma placeAll_steps now name : ∀ items os db,
  stores db !! name = Some os →
  rtc step db (setStore name (placeAll toISOString now os items).1.1 db).
Proof.
  induction items as [|item rest IH]; intros os db Hs; cbn [placeAll].
  - cbn [fst]. by rewrite setStore_id.
  - destruct (put os (stamp toISOString now item)) as [e|os1] eqn:Hput.
    { cbn [fst]. by rewrite setStore_id. }
    specialize (IH os1 (setStore name os1 db) (stores_setStore _ _ _)).
    rewrite setStore_setStore in IH.
    destruct (placeAll toISOString now os1 rest) as [[os2 n] thrown].
    cbn [fst] in *. eapply rtc_l; [|exact IH]. by eapply step_put.
Qed.

Lemma saveToIndexedDB_steps env now storeName data db :
  rtc step db (saveToIndexedDB toISOString env now storeName data db).2.
Proof.
  unfold saveToIndexedDB.
  destruct (openDatabase env db) as [e|db1] eqn:Hopen; [done|].
  assert (rtc step db db1) as Hstep by (eapply rtc_once, step_open; eauto).
  destruct (stores db1 !! storeName) as [os|] eqn:Hs; [|done].
  destruct data as [item|items].
  - destruct (put os (stamp toISOString now item)) as [e|os'] eqn:Hput;
      [done|].
    destruct (request_error env storeName 0); [done|].
    cbn [snd]. eapply rtc_r; [done|]. by eapply step_put.
  - pose proof (placeAll_steps now storeName items os db1 Hs) as Hp.
    destruct (placeAll toISOString now os items) as [[os' placed] thrown].
    destruct (fireArray _ _ _ _ _ _) as [p [|]]; cbn [snd fst] in *;
      [|done].
    by etrans.
Qed.

Lemma addToPendingOperations_steps env now storePrefix operation data db :
  rtc step db
    (addToPendingOperations toISOString env now storePrefix operation
       data db).2.
Proof.
  unfold addToPendingOperations.
  destruct (openDatabase env db) as [e|db1] eqn:Hopen; [done|].
  assert (rtc step db db1) as Hstep by (eapply rtc_once, step_open; eauto).
  destruct (stores db1 !! storePrefix) as [os|] eqn:Hs; [|done].
  destruct (store_add os _) as [e|os'] eqn:Hadd; [done|].
  destruct (request_error env storePrefix 0); [done|].
  cbn [snd]. eapply rtc_r; [done|].
  eapply step_put; [done|]. by apply store_add_put.
Qed.

Lemma refreshUserCache_steps env env' now now' userId db :
  rtc step db (refreshUserCache toISOString env env' now now' userId db).2.
Proof.
  unfold refreshUserCache.
  pose proof (getByIdFromIndexedDB_steps env USER_DATA
                (VStr (userId +:+ "_timestamp")) db) as Hg.
  destruct (getByIdFromIndexedDB _ _ _ db) as [[[userData|]|e|] db1];
    cbn [snd] in *; [|done..].
  etrans; [exact Hg|apply saveToIndexedDB_steps].
Qed.

Lemma sweep_steps denv now storeName : ∀ items db,
  rtc step db (sweep getTime denv now storeName items db).
Proof.
  induction items as [|item items IH]; intros db; [done|].
  rewrite sweep_cons. destruct (stale getTime now item); [|apply IH].
  etrans; [apply deleteFromIndexedDB_steps|apply IH].
Qed.

Lemma cleanupStaleCacheData_steps env denv now db :
  rtc step db (cleanupStaleCacheData getTime env denv now db).2.
Proof.
  unfold cleanupStaleCacheData.
  destruct (openDatabase env db) as [e|db1] eqn:Hopen; [done|].
  assert (rtc step db db1) as Hstep by (eapply rtc_once, step_open; eauto).
  cbn [snd]. etrans; [exact Hstep|].
  generalize ((map_to_list (stores db1)).*1). intros names.
  generalize db1 at 1 3. 
  induction names as [|name names IH]; intros acc; [done|].
  cbn [foldl]. etrans; [|apply IH].
  unfold cleanupStore. destruct (startsWith name "pending"); [done|].
  destruct (stores db1 !! name) as [os|]; [|done].
  destruct (request_error env name 0); [done|]. apply sweep_steps.
Qed.

End Steps.

(** The key generator of a store is ahead of every number used as key. *)
Definition ahead (os : ObjectStore) : Prop :=
  ∀ n item, rows os !! inl n = Some item → n < keyGenerator os.

(** A database as the file makes it: at version 4 or below, with all ten
    stores once it is at version 4, and with no store but the ten, each
    with a key generator exactly when it is a pending queue and with
    the generator ahead of its keys. *)
Definition asBuilt (db : Database) : Prop :=
  version db ≤ DB_VERSION ∧
  (version db = DB_VERSION →
   ∀ name, name ∈ STORES → is_Some (stores db !! name)) ∧
  (∀ name os, stores db !! name = Some os →
     name ∈ STORES ∧ autoIncrement os = startsWith name "pending" ∧
     ahead os).

Lemma put_ahead os (item : Item) os' :
  ahead os → put os item = inr os' → ahead os'.
Proof.
  intros Ha Hput. pose proof (put_cases os item) as Hc.
  destruct (keyOf os item) as [k|]; [|congruence].
  destruct Hc as (item' & Hput' & _). rewrite Hput in Hput'.
  injection Hput' as ->. intros n x. cbn [rows keyGenerator].
  rewrite lookup_insert. case_decide as Hk.
  - intros _. subst k. lia.
  - intros Hn. specialize (Ha n x Hn). destruct k; lia.
Qed.

Lemma asBuilt_setStore name os os' db :
  asBuilt db → stores db !! name = Some os →
  autoIncrement os' = autoIncrement os → ahead os' →
  asBuilt (setStore name os' db).
Proof.
  intros (Hv & Hall & Hs) Hos Hauto Ha. unfold asBuilt, setStore.
  cbn [version stores]. split_and!; [done| |].
  - intros Hv4 n Hn. rewrite lookup_insert. case_decide; eauto.
  - intros n o. rewrite lookup_insert. case_decide as Hn.
    + intros [= <-]. subst n. destruct (Hs name os Hos) as (? & ? & ?).
      split_and!; [done| |done]. congruence.
    + apply Hs.
Qed.

Lemma asBuilt_step db db' : step db db' → asBuilt db → asBuilt db'.
Proof.
  intros Hstep Hb. destruct Hstep as [env db db1 Hopen|name os item os' db Hs Hput
                                     |name os k db Hs|name os db Hs].
  - destruct Hb as (Hv & Hall & Hstores).
    pose proof (openDatabase_version _ _ _ Hopen) as Hv1.
    revert Hopen. unfold openDatabase. destruct (open_error env); [done|].
    destruct (DB_VERSION <? version db); [done|].
    destruct (version db <? DB_VERSION) eqn:Hold; intros [= <-];
      [|done].
    unfold asBuilt. cbn [version stores]. split_and!; [done| |].
    + intros _ name. apply onupgradeneeded_all.
    + intros name os Hs.
      destruct (stores db !! name) as [os0|] eqn:Hs0.
      * rewrite (onupgradeneeded_kept _ _ _ Hs0) in Hs.
        injection Hs as <-. by apply Hstores.
      * destruct (onupgradeneeded_new _ _ _ Hs0 Hs) as [Hn ->].
        split_and!; [done..|]. intros n item. by cbn.
  - eapply asBuilt_setStore; [done..| |].
    + by eapply put_autoIncrement.
    + eapply put_ahead; [|done]. by apply (proj2 (proj2 Hb) name os Hs).
  - eapply asBuilt_setStore; [done..| |]; [done|].
    intros n item. cbn [rows keyGenerator].
    intros [_ Hn]%lookup_delete_Some.
    by apply (proj2 (proj2 (proj2 (proj2 Hb) name os Hs)) n item).
  - eapply asBuilt_setStore; [done..| |]; [done|].
    intros n item. by cbn.
Qed.

Lemma asBuilt_steps db db' : rtc step db db' → asBuilt db → asBuilt db'.
Proof. induction 1; eauto using asBuilt_step. Qed.

Lemma wellKeyed_step db db' : step db db' → wellKeyed db → wellKeyed db'.
Proof.
  intros Hstep Hw. destruct Hstep as [env db db1 Hopen|name os item os' db Hs Hput
                                     |name os k db Hs|name os db Hs].
  - by eapply wellKeyed_openDatabase.
  - apply wellKeyed_setStore; [done|]. eapply put_keyed_store; [|done].
    by eapply wellKeyed_keyed.
  - apply wellKeyed_setStore; [done|].
    intros k' item. cbn [rows]. intros [_ Hk]%lookup_delete_Some.
    by eapply (proj1 (wellKeyed_keyed db) Hw).
  - apply wellKeyed_setStore; [done|]. intros k item. by cbn.
Qed.

Lemma wellKeyed_steps db db' : rtc step db db' → wellKeyed db → wellKeyed db'.
Proof. induction 1; eauto using wellKeyed_step. Qed.

(** The calls of the file. *)
Inductive Call : Type :=
| SaveToIndexedDB (env : Env) (now : Z) (storeName : string) (data : Data)
| GetAllFromIndexedDB (env : Env) (storeName : string)
| GetByIdFromIndexedDB (env : Env) (storeName : string) (id : Value)
| DeleteFromIndexedDB (env : Env) (storeName : string) (id : Value)
| ClearIndexedDBStore (env : Env) (storeName : string)
| CleanupStaleCacheData (env : Env) (denv : string → Value → Env) (now : Z)
| AddToPendingOperations (env : Env) (now : Z) (storePrefix : string)
    (operation : Operations.OperationType) (data : Value)
| GetPendingOperations (env : Env) (storePrefix : string)
| RemovePendingOperation (env : Env) (storePrefix : string) (id : Value)
| ClearUserDataFromStore (env : Env) (denv : Value → Env)
    (storeName userId : string)
| RefreshUserCache (env env' : Env) (now now' : Z) (userId : string)
| ClearPendingOperations (env : Env) (storePrefix : string).

Section Calls.
Variable toISOString : Z → string.
Variable getTime : Value → option Z.

(** The database a call leaves. *)
Definition after (db : Database) (c : Call) : Database :=
  match c with
  | SaveToIndexedDB env now storeName data =>
      (saveToIndexedDB toISOString env now storeName data db).2
  | GetAllFromIndexedDB env storeName =>
      (getAllFromIndexedDB env storeName db).2
  | GetByIdFromIndexedDB env storeName id =>
      (getByIdFromIndexedDB env storeName id db).2
  | DeleteFromIndexedDB env storeName id =>
      (deleteFromIndexedDB env storeName id db).2
  | ClearIndexedDBStore env storeName =>
      (clearIndexedDBStore env storeName db).2
  | CleanupStaleCacheData env denv now =>
      (cleanupStaleCacheData getTime env denv now db).2
  | AddToPendingOperations env now storePrefix operation data =>
      (addToPendingOperations toISOString env now storePrefix operation
         data db).2
  | GetPendingOperations env storePrefix =>
      (getPendingOperations env storePrefix db).2
  | RemovePendingOperation env storePrefix id =>
      (removePendingOperation env storePrefix id db).2
  | ClearUserDataFromStore env denv storeName userId =>
      (clearUserDataFromStore env denv storeName userId db).2
  | RefreshUserCache env env' now now' userId =>
      (refreshUserCache toISOString env env' now now' userId db).2
  | ClearPendingOperations env storePrefix =>
      (clearPendingOperations env storePrefix db).2
  end.

Lemma after_steps db c : rtc step db (after db c).
Proof.
  destruct c; cbn [after].
  - apply saveToIndexedDB_steps.
  - apply getAllFromIndexedDB_steps.
  - apply getByIdFromIndexedDB_steps.
  - apply deleteFromIndexedDB_steps.
  - apply clearIndexedDBStore_steps.
  - apply cleanupStaleCacheData_steps.
  - apply addToPendingOperations_steps.
  - rewrite getPendingOperations_getAllFromIndexedDB.
    apply getAllFromIndexedDB_steps.
  - rewrite removePendingOperation_deleteFromIndexedDB.
    apply deleteFromIndexedDB_steps.
  - apply clearUserDataFromStore_steps.
  - apply refreshUserCache_steps.
  - rewrite clearPendingOperations_clearIndexedDBStore.
    apply clearIndexedDBStore_steps.
Qed.

Lemma calls_steps calls : ∀ db, rtc step db (foldl after db calls).
Proof.
  induction calls as [|c calls IH]; intros db; [done|].
  cbn [foldl]. etrans; [apply after_steps|apply IH].
Qed.

(** With nothing failing, a database as the file makes it takes a write
    to any of its stores. *)
Lemma asBuilt_open db :
  asBuilt db →
  ∃ db1, openDatabase healthy db = inr db1 ∧ asBuilt db1 ∧
         version db1 = DB_VERSION.
Proof.
  intros Hb. destruct (openDatabase_succeeds healthy db eq_refl (proj1 Hb))
    as [db1 Hopen].
  exists db1. split_and!; [done| |by eapply openDatabase_version].
  eapply asBuilt_step; [|done]. by eapply step_open.
Qed.

(** X27.  A database that only this file has written stays usable.
    Start from no database at all and let the functions of the file be
    called in any order, with any arguments and with the platform failing
    wherever it likes.  Then records still sit under their ids, and as
    soon as nothing fails: [addToPendingOperations] on any of the four
    pending queues resolves, as long as the key generator of the queue
    has not passed 2^53 (which takes a record saved into the queue under
    a number of 2^53 or more, or 2^53 additions); [saveToIndexedDB] of a
    record with a valid key at [id] resolves on any of the ten stores;
    and [getAllFromIndexedDB] of any of the ten stores resolves. *)
Theorem calls_keep_the_database_usable (calls : list Call) :
  wellKeyed (foldl after emptyDatabase calls) ∧
  (∀ storePrefix now operation data,
     storePrefix ∈ [PENDING_TASK_OPS; PENDING_ROUTINE_OPS;
                    PENDING_COURSE_OPS; PENDING_TEACHER_OPS] →
     (∀ os, stores (foldl after emptyDatabase calls) !! storePrefix
              = Some os →
            keyGenerator os ≤ 2 ^ 53) →
     (addToPendingOperations toISOString healthy now storePrefix operation
        data (foldl after emptyDatabase calls)).1 = Resolved tt) ∧
  (∀ storeName now (item : Item),
     storeName ∈ STORES →
     is_Some (toKey (field item "id")) →
     (saveToIndexedDB toISOString healthy now storeName (Single item)
        (foldl after emptyDatabase calls)).1 = Resolved tt) ∧
  (∀ storeName,
     storeName ∈ STORES →
     ∃ items,
       (getAllFromIndexedDB healthy storeName
          (foldl after emptyDatabase calls)).1 = Resolved items).
Proof.
  pose proof (calls_steps calls emptyDatabase) as Hsteps.
  assert (asBuilt emptyDatabase) as Hb0.
  { unfold asBuilt, emptyDatabase. cbn. split_and!; [done|done|].
    intros name os Hs. by rewrite lookup_empty in Hs. }
  pose proof (asBuilt_steps _ _ Hsteps Hb0) as Hb.
  split_and!.
  - eapply wellKeyed_steps; [done|].
    intros name k item (os & Hs & _)%row_Some. done.
  - intros P now operation data HP _.
    destruct (asBuilt_open _ Hb) as (db1 & Hopen & (_ & Hall & Hs) & Hv).
    unfold addToPendingOperations. rewrite Hopen.
    assert (P ∈ STORES ∧ startsWith P "pending" = true) as [Hin Hpend].
    { rewrite !elem_of_cons in HP. unfold STORES. rewrite !elem_of_cons.
      destruct HP as [->|[->|[->|[->|HP]]]]; [..|by inversion HP];
        (split; [|done]); repeat (first [left; reflexivity|right]). }
    destruct (Hall Hv P Hin) as [os Hos]. rewrite Hos.
    destruct (Hs P os Hos) as (_ & Hauto & Hahead).
    unfold store_add, keyOf, put. rewrite pendingOp_no_id, Hauto, Hpend.
    destruct (rows os !! inl (keyGenerator os)) as [x|] eqn:Hx; [|done].
    specialize (Hahead _ _ Hx). lia.
  - intros name now item Hin [k Hk].
    destruct (asBuilt_open _ Hb) as (db1 & Hopen & (_ & Hall & Hs) & Hv).
    unfold saveToIndexedDB. rewrite Hopen.
    destruct (Hall Hv name Hin) as [os Hos]. rewrite Hos.
    destruct (put_keyed os (stamp toISOString now item) k) as (os' & -> & _);
      [|done].
    unfold field. by rewrite stamp_other.
  - intros name Hin.
    destruct (asBuilt_open _ Hb) as (db1 & Hopen & (_ & Hall & Hs) & Hv).
    destruct (Hall Hv name Hin) as [os Hos].
    exists (getAll os).
    by rewrite (getAllFromIndexedDB_success healthy name _ db1 os).
Qed.

End Calls.

(** A morning of calls, some of them failing. *)
Example calls_sample :
  (addToPendingOperations isoOf healthy 1700036000000 PENDING_TASK_OPS
     Operations.OpUpdate (VStr "{}")
     (foldl (after isoOf timeOf) emptyDatabase
        [SaveToIndexedDB healthy 1700000000000 "tasks" (Array [task1; task9]);
         AddToPendingOperations healthy 1700000000000 PENDING_TASK_OPS
           Operations.OpCreate (VStr "{}");
         ClearUserDataFromStore closed (λ _, healthy) "tasks" "u1";
         SaveToIndexedDB failingReads 1700000000000 "tasks" (Single task2);
         ClearPendingOperations healthy PENDING_TASK_OPS;
         CleanupStaleCacheData healthy (λ _ _, healthy) 1700036000000])).2
  = setStore PENDING_TASK_OPS
      {| autoIncrement := true; keyGenerator := 3;
         rows := {[ inl 2 := {[ "id" := VNum 2; "operation" := VStr "update";
                                "data" := VStr "{}";
                                "timestamp" := VStr "2023-11-15T08:13:20.000Z" ]} ]} |}
      (foldl (after isoOf timeOf) emptyDatabase
         [SaveToIndexedDB healthy 1700000000000 "tasks" (Array [task1; task9]);
          AddToPendingOperations healthy 1700000000000 PENDING_TASK_OPS
            Operations.OpCreate (VStr "{}");
          ClearUserDataFromStore closed (λ _, healthy) "tasks" "u1";
          SaveToIndexedDB failingReads 1700000000000 "tasks" (Single task2);
          ClearPendingOperations healthy PENDING_TASK_OPS;
          CleanupStaleCacheData healthy (λ _ _, healthy) 1700036000000]).
Proof. vm_compute. reflexivity. Qed.

End OfflineStorage.

(* ===================================================================== *)
(** * public/service-worker.js *)
(* ===================================================================== *)

Module ServiceWorker.
Import JS.

Definition CACHE_NAME : string := "nesttask-v2".
Definition STATIC_CACHE_NAME : string := "nesttask-static-v2".
Definition DYNAMIC_CACHE_NAME : string := "nesttask-dynamic-v2".
Definition OFFLINE_URL : string := "/offline.html".

(** Minimal assets to cache immediately. *)
Definition PRECACHE_ASSETS : list string :=
  ["/"; "/offline.html"; "/icons/icon-192x192.png"].

(** ** Requests, responses and CacheStorage *)

Inductive Mode : Type := navigate | same_origin | no_cors | cors.

(** [event.request]: its URL and its mode.  [onfetch] below is the
    listener as a GET request meets it, with responses the cache takes;
    the method of the request and the responses [cache.put] refuses come
    in with [onfetch_method]. *)
Record Request : Type := { url : string; mode : Mode }.

Record Response : Type := { status : Z; body : string }.
Definition ok (r : Response) : bool := (200 <=? status r) && (status r <=? 299).

(** A cache holds responses by absolute URL; [caches] is the list of the
    named caches in the order they were created. *)
Abbreviation Cache := (gmap string Response).
Abbreviation CacheStorage := (list (string * Cache)).

(** [caches.keys()] *)
Definition keys (cs : CacheStorage) : list string := cs.*1.

(** [caches.delete(name)] *)
Definition caches_delete (name : string) (cs : CacheStorage) : CacheStorage :=
  filter (λ entry, entry.1 ≠ name) cs.

(** The cache of a name, if there is one. *)
Fixpoint cache_of (name : string) (cs : CacheStorage) : option Cache :=
  match cs with
  | [] => None
  | (n, c) :: rest => if decide (n = name) then Some c else cache_of name rest
  end.

(** [caches.open(name)] creates the cache when it does not exist. *)
Definition caches_open (name : string) (cs : CacheStorage) : CacheStorage :=
  match cache_of name cs with
  | Some _ => cs
  | None => cs ++ [(name, ∅)]
  end.

(** [caches.match(url)]: the first cache, in creation order, that has an
    entry. *)
Fixpoint caches_match (u : string) (cs : CacheStorage) : option Response :=
  match cs with
  | [] => None
  | (_, c) :: rest =>
      match c !! u with
      | Some r => Some r
      | None => caches_match u rest
      end
  end.

(** [cache.put(url, response)] on the cache of a name. *)
Fixpoint cache_put_in (name u : string) (r : Response) (cs : CacheStorage)
    : CacheStorage :=
  match cs with
  | [] => []
  | (n, c) :: rest =>
      if decide (n = name) then (n, <[u := r]> c) :: rest
      else (n, c) :: cache_put_in name u r rest
  end.

(** [caches.open(name).then(cache => cache.put(url, response))], for a
    GET request and a response the cache takes ([cache_put_request]
    has the others). *)
Definition cache_put (name u : string) (r : Response) (cs : CacheStorage)
    : CacheStorage :=
  cache_put_in name u r (caches_open name cs).

Inductive Handling : Type :=
| PassThrough
| RespondWith (response : option Response)
| RespondRejected.

(** [s.match(/\.(css|js|woff2|woff|ttf|svg|png|jpg|jpeg|gif|webp)$/)] *)
Definition endsWith (s t : string) : bool :=
  String.prefix (String.rev t) (String.rev s).
Definition isStaticAsset (u : string) : bool :=
  existsb (endsWith u)
    [".css"; ".js"; ".woff2"; ".woff"; ".ttf"; ".svg"; ".png"; ".jpg";
     ".jpeg"; ".gif"; ".webp"].

Section Worker.
(** [self.location.origin], and the network: the response to a URL, or
    none when [fetch] rejects. *)
Variable origin : string.
Variable net : string → option Response.

(** [cache.addAll(paths)]: every asset must be fetched with a 2xx
    response, or nothing is stored. *)
Definition fetchAll (paths : list string) : option (list (string * Response)) :=
  mapM (λ path,
          match net (origin +:+ path) with
          | Some r => if ok r then Some (origin +:+ path, r) else None
          | None => None
          end) paths.

Definition addAll (name : string) (paths : list string) (cs : CacheStorage)
    : option CacheStorage :=
  match fetchAll paths with
  | Some fetched =>
      Some (foldl (λ acc entry, cache_put_in name entry.1 entry.2 acc)
                  cs fetched)
  | None => None
  end.

(** The [install] listener: whether the promise given to [waitUntil] is
    fulfilled, and the caches it leaves. *)
Definition oninstall (cs : CacheStorage) : bool * CacheStorage :=
  let cs1 := caches_open STATIC_CACHE_NAME cs in
  match addAll STATIC_CACHE_NAME PRECACHE_ASSETS cs1 with
  | Some cs2 => (true, cs2)
  | None => (false, cs1)
  end.

(** The [fetch] listener. *)
Definition onfetch (cs : CacheStorage) (request : Request)
    : Handling * CacheStorage :=
  if negb (startsWith (url request) origin)
     || includes (url request) "_vercel/insights"
     || includes (url request) "/api/"
  then (PassThrough, cs)
  else
    match mode request with
    | navigate =>
        match caches_match (url request) cs with
        | Some cachedResponse => (RespondWith (Some cachedResponse), cs)
        | None =>
            match net (url request) with
            | Some networkResponse =>
                (RespondWith (Some networkResponse),
                 if ok networkResponse
                 then cache_put STATIC_CACHE_NAME (url request)
                        networkResponse cs
                 else cs)
            | None =>
                (RespondWith (caches_match (origin +:+ OFFLINE_URL) cs), cs)
            end
        end
    | _ =>
        if isStaticAsset (url request) then
          match caches_match (url request) cs with
          | Some cachedResponse =>
              (RespondWith (Some cachedResponse),
               if includes (url request) "main"
                  || includes (url request) "vendor"
                  || includes (url request) "icon"
               then
                 match net (url request) with
                 | Some networkResponse =>
                     if ok networkResponse
                     then cache_put STATIC_CACHE_NAME (url request)
                            networkResponse cs
                     else cs
                 | None => cs
                 end
               else cs)
          | None =>
              match net (url request) with
              | Some networkResponse =>
                  (RespondWith (Some networkResponse),
                   if ok networkResponse
                   then cache_put STATIC_CACHE_NAME (url request)
                          networkResponse cs
                   else cs)
              | None => (RespondRejected, cs)
              end
          end
        else
          match net (url request) with
          | Some networkResponse =>
              (RespondWith (Some networkResponse),
               if ok networkResponse
               then cache_put DYNAMIC_CACHE_NAME (url request)
                      networkResponse cs
               else cs)
          | None => (RespondWith (caches_match (url request) cs), cs)
          end
    end.

End Worker.

(** The [activate] listener: one [caches.delete] per key that is neither
    the static nor the dynamic cache name. *)
Definition onactivate (cs : CacheStorage) : CacheStorage :=
  foldl (λ acc key,
           if decide (key ≠ STATIC_CACHE_NAME ∧ key ≠ DYNAMIC_CACHE_NAME)
           then caches_delete key acc
           else acc)
        cs (keys cs).

(** The [CLEAR_ALL_CACHES] message. *)
Definition clearAllCaches (cs : CacheStorage) : CacheStorage :=
  foldl (λ acc key, caches_delete key acc) cs (keys cs).

(** ** Activation *)

Lemma filter_all {A} (P : A → Prop) `{!∀ x, Decision (P x)} (l : list A) :
  (∀ x, x ∈ l → P x) → filter P l = l.
Proof.
  induction l as [|a l IH]; intros Hall; [done|].
  rewrite filter_cons_True by (apply Hall; by left).
  rewrite IH; [done|]. intros x Hx. apply Hall. by right.
Qed.

(** Deleting key by key is one filter on the names. *)
Lemma delete_others_filter : ∀ (ks : list string) (acc : CacheStorage),
  foldl (λ acc key,
           if decide (key ≠ STATIC_CACHE_NAME ∧ key ≠ DYNAMIC_CACHE_NAME)
           then caches_delete key acc
           else acc)
        acc ks
  = filter (λ entry, ¬ (entry.1 ∈ ks ∧ entry.1 ≠ STATIC_CACHE_NAME
                        ∧ entry.1 ≠ DYNAMIC_CACHE_NAME)) acc.
Proof.
  induction ks as [|k ks IH]; intros acc; cbn [foldl].
  - symmetry. apply filter_all. intros entry _ [Hin _]. by inversion Hin.
  - rewrite IH. case_decide as Hdel.
    + unfold caches_delete. rewrite list_filter_filter.
      apply list_filter_iff. intros entry. rewrite elem_of_cons.
      destruct (decide (entry.1 = k)) as [->|Hne]; [tauto|]. tauto.
    + apply list_filter_iff. intros entry. rewrite elem_of_cons.
      destruct (decide (entry.1 = k)) as [->|Hne]; tauto.
Qed.

Lemma onactivate_filter (cs : CacheStorage) :
  onactivate cs =
    filter (λ entry, entry.1 = STATIC_CACHE_NAME
                     ∨ entry.1 = DYNAMIC_CACHE_NAME) cs.
Proof.
  unfold onactivate. rewrite delete_others_filter.
  apply filter_ext_in. intros entry Hin.
  assert (entry.1 ∈ keys cs) as Hk by (by apply list_elem_of_fmap_2).
  destruct (decide (entry.1 = STATIC_CACHE_NAME));
    destruct (decide (entry.1 = DYNAMIC_CACHE_NAME)); tauto.
Qed.

Lemma cache_of_filter (Q : string → Prop) `{!∀ n, Decision (Q n)}
    (name : string) (cs : CacheStorage) :
  cache_of name (filter (λ entry, Q entry.1) cs)
  = if decide (Q name) then cache_of name cs else None.
Proof.
  induction cs as [|[n c] cs IH]; [by case_decide|].
  rewrite filter_cons. cbn [fst cache_of].
  destruct (decide (Q n)) as [Hn|Hn]; cbn [cache_of]; rewrite ?IH;
    destruct (decide (n = name)) as [->|Hne];
    destruct (decide (Q name)); done.
Qed.

Lemma onactivate_cache_of (name : string) (cs : CacheStorage) :
  cache_of name (onactivate cs) =
    if decide (name = STATIC_CACHE_NAME ∨ name = DYNAMIC_CACHE_NAME)
    then cache_of name cs else None.
Proof.
  rewrite onactivate_filter.
  exact (cache_of_filter
           (λ n, n = STATIC_CACHE_NAME ∨ n = DYNAMIC_CACHE_NAME) name cs).
Qed.

(** C6.  Activation leaves exactly the caches named by the static or the
    dynamic cache name, in their order and with their contents: a name
    is a key afterwards if and only if it was one before and is one of
    the two, and the cache under such a name is the one that was there. *)
Theorem onactivate_keeps_current_caches (cs : CacheStorage) :
  onactivate cs =
    filter (λ entry, entry.1 = STATIC_CACHE_NAME
                     ∨ entry.1 = DYNAMIC_CACHE_NAME) cs ∧
  (∀ name, name ∈ keys (onactivate cs) ↔
           name ∈ keys cs ∧
           (name = STATIC_CACHE_NAME ∨ name = DYNAMIC_CACHE_NAME)) ∧
  (∀ name, cache_of name (onactivate cs) =
           if decide (name = STATIC_CACHE_NAME ∨ name = DYNAMIC_CACHE_NAME)
           then cache_of name cs else None).
Proof.
  split; [apply onactivate_filter|]. split.
  - intros name. rewrite onactivate_filter. unfold keys.
    rewrite !list_elem_of_fmap. split.
    + intros [entry [-> [Hn Hin]%list_elem_of_filter]]. split; [|done].
      by exists entry.
    + intros [[entry [-> Hin]] Hn]. exists entry. split; [done|].
      by apply list_elem_of_filter.
  - intros name. apply onactivate_cache_of.
Qed.

Example onactivate_sample :
  keys (onactivate [("nesttask-static-v1", ∅); (STATIC_CACHE_NAME, ∅);
                    ("nesttask-v2", ∅); (DYNAMIC_CACHE_NAME, ∅);
                    ("workbox-precache", ∅)])
  = [STATIC_CACHE_NAME; DYNAMIC_CACHE_NAME].
Proof. vm_compute. reflexivity. Qed.

(** ** Navigation while offline *)

Lemma cache_of_put_in name u r (cs : CacheStorage) :
  cache_of name (cache_put_in name u r cs) = (<[u := r]>) <$> cache_of name cs.
Proof.
  induction cs as [|[n c] cs IH]; [done|].
  cbn [cache_put_in cache_of]. destruct (decide (n = name)) as [->|Hne];
    cbn [cache_of].
  - by rewrite decide_True.
  - by rewrite decide_False.
Qed.

Lemma cache_of_open name (cs : CacheStorage) :
  is_Some (cache_of name (caches_open name cs)).
Proof.
  unfold caches_open. destruct (cache_of name cs) as [c|] eqn:Hc.
  - rewrite Hc. eauto.
  - induction cs as [|[n c] cs IH]; cbn [app cache_of] in *.
    + rewrite decide_True by done. eauto.
    + destruct (decide (n = name)); [done|]. by apply IH.
Qed.

(** What a cache holds, [caches.match] finds, there or in an older
    cache. *)
Lemma caches_match_cache_of name u r c (cs : CacheStorage) :
  cache_of name cs = Some c → c !! u = Some r →
  is_Some (caches_match u cs).
Proof.
  induction cs as [|[n c'] cs IH]; [done|].
  cbn [cache_of caches_match]. intros Hc Hu.
  destruct (c' !! u) as [r'|] eqn:Hu'; [eauto|].
  destruct (decide (n = name)); [|by apply IH]. congruence.
Qed.

Section Offline.
Variable origin : string.
Variable net : string → option Response.

(** After an install that succeeds, the static cache holds the 2xx
    response the network gave for the offline page. *)
Lemma oninstall_precaches_offline_page (cs cs' : CacheStorage) :
  oninstall origin net cs = (true, cs') →
  ∃ c page,
    cache_of STATIC_CACHE_NAME cs' = Some c ∧
    c !! (origin +:+ OFFLINE_URL) = Some page ∧
    net (origin +:+ OFFLINE_URL) = Some page ∧ ok page = true.
Proof.
  unfold oninstall, addAll, fetchAll, PRECACHE_ASSETS, OFFLINE_URL.
  cbn [mapM].
  destruct (net (origin +:+ "/")) as [r1|]; [|done].
  destruct (ok r1); [|done].
  destruct (net (origin +:+ "/offline.html")) as [r2|] eqn:H2; [|done].
  destruct (ok r2) eqn:Hok2; [|done].
  destruct (net (origin +:+ "/icons/icon-192x192.png")) as [r3|] eqn:H3;
    [|done].
  destruct (ok r3); [|done].
  cbn. intros [= <-].
  destruct (cache_of_open STATIC_CACHE_NAME cs) as [c0 Hc0].
  rewrite !cache_of_put_in, Hc0. cbn.
  eexists _, r2. split; [done|]. split; [|done].
  rewrite lookup_insert. case_decide as Heq.
  - rewrite Heq, H2 in H3. congruence.
  - by rewrite lookup_insert_eq.
Qed.

(** The page survives activation. *)
Lemma oninstall_onactivate_offline_page (cs cs' : CacheStorage) :
  oninstall origin net cs = (true, cs') →
  is_Some (caches_match (origin +:+ OFFLINE_URL) (onactivate cs')).
Proof.
  intros (c & page & Hc & Hpage & _)%oninstall_precaches_offline_page.
  apply (caches_match_cache_of STATIC_CACHE_NAME _ page c); [|done].
  rewrite onactivate_cache_of. by rewrite decide_True by (by left).
Qed.

(** C7, as the listener has it.  A navigation request that the listener
    handles (its URL starts with the origin and contains neither
    "_vercel/insights" nor "/api/"), that no cache matches and whose
    fetch fails, is answered with what [caches.match('/offline.html')]
    finds: the offline page, as long as a cache still holds it. *)
Theorem onfetch_navigation_offline_fallback
    (cs : CacheStorage) (request : Request) (page : Response) :
  startsWith (url request) origin = true →
  includes (url request) "_vercel/insights" = false →
  includes (url request) "/api/" = false →
  mode request = navigate →
  caches_match (url request) cs = None →
  net (url request) = None →
  caches_match (origin +:+ OFFLINE_URL) cs = Some page →
  onfetch origin net cs request = (RespondWith (Some page), cs).
Proof.
  intros Hsame Hins Hapi Hnav Hmiss Hdown Hpage. unfold onfetch.
  by rewrite Hsame, Hins, Hapi, Hnav, Hmiss, Hdown, Hpage.
Qed.

(** Without the page in any cache the answer is [undefined]. *)
Lemma onfetch_navigation_no_fallback (cs : CacheStorage) (request : Request) :
  startsWith (url request) origin = true →
  includes (url request) "_vercel/insights" = false →
  includes (url request) "/api/" = false →
  mode request = navigate →
  caches_match (url request) cs = None →
  net (url request) = None →
  caches_match (origin +:+ OFFLINE_URL) cs = None →
  onfetch origin net cs request = (RespondWith None, cs).
Proof.
  intros Hsame Hins Hapi Hnav Hmiss Hdown Hpage. unfold onfetch.
  by rewrite Hsame, Hins, Hapi, Hnav, Hmiss, Hdown, Hpage.
Qed.

End Offline.

(** ** The worker, run *)

Definition appOrigin : string := "https://nesttask.example".

(** A network that answers every URL with 200, and one that is down. *)
Definition online (u : string) : option Response :=
  Some {| status := 200; body := u |}.
Definition down (u : string) : option Response := None.

(** The caches after an install and an activation from nothing. *)
Definition installed : CacheStorage :=
  onactivate (oninstall appOrigin online []).2.

Definition offlinePage : Response :=
  {| status := 200; body := "https://nesttask.example/offline.html" |}.

Definition tasksNavigation : Request :=
  {| url := "https://nesttask.example/tasks"; mode := navigate |}.
Definition apiNavigation : Request :=
  {| url := "https://nesttask.example/api/export"; mode := navigate |}.

(** C7 as first stated fails here: a same-origin navigation to an API
    path, not cached, with the network down and the offline page in the
    cache, is not answered by the listener at all. *)
Lemma onfetch_api_navigation_passes_through :
  startsWith (url apiNavigation) appOrigin = true ∧
  mode apiNavigation = navigate ∧
  caches_match (url apiNavigation) installed = None ∧
  down (url apiNavigation) = None ∧
  caches_match (appOrigin +:+ OFFLINE_URL) installed = Some offlinePage ∧
  onfetch appOrigin down installed apiNavigation = (PassThrough, installed).
Proof. cbv zeta. split_and!; vm_compute; reflexivity. Qed.

Lemma onfetch_navigation_offline_fallback_witness :
  onfetch appOrigin down installed tasksNavigation
  = (RespondWith (Some offlinePage), installed).
Proof.
  apply (onfetch_navigation_offline_fallback appOrigin down installed
           tasksNavigation offlinePage);
    vm_compute; reflexivity.
Defined.

(** After a [CLEAR_ALL_CACHES] message the same navigation gets no page. *)
Example onfetch_after_clear :
  onfetch appOrigin down (clearAllCaches installed) tasksNavigation
  = (RespondWith None, []).
Proof. vm_compute. reflexivity. Qed.

(* --------------------------------------------------------------------- *)
(** ** What the fetch listener does to the caches *)

Lemma caches_match_app_empty u name (cs : CacheStorage) :
  caches_match u (cs ++ [(name, ∅)]) = caches_match u cs.
Proof.
  induction cs as [|[n c] cs IH]; cbn [app caches_match]; [done|].
  by rewrite IH.
Qed.

Lemma caches_match_open u name (cs : CacheStorage) :
  caches_match u (caches_open name cs) = caches_match u cs.
Proof.
  unfold caches_open. destruct (cache_of name cs); [done|].
  apply caches_match_app_empty.
Qed.

Lemma caches_match_put_in_ne name u u' r (cs : CacheStorage) :
  u' ≠ u →
  caches_match u' (cache_put_in name u r cs) = caches_match u' cs.
Proof.
  intros Hne. induction cs as [|[n c] cs IH]; [done|].
  cbn [cache_put_in]. destruct (decide (n = name)); cbn [caches_match].
  - by rewrite lookup_insert_ne.
  - by rewrite IH.
Qed.

Lemma caches_match_put_in_miss name u r (cs : CacheStorage) :
  caches_match u cs = None → is_Some (cache_of name cs) →
  caches_match u (cache_put_in name u r cs) = Some r.
Proof.
  induction cs as [|[n c] cs IH]; [by intros _ [? ?]|].
  cbn [caches_match cache_of cache_put_in].
  destruct (c !! u) as [r'|] eqn:Hu; [done|]. intros Hmiss Hname.
  destruct (decide (n = name)); cbn [caches_match].
  - by rewrite lookup_insert_eq.
  - rewrite Hu. by apply IH.
Qed.



(** A response put for a URL no cache matched is what [caches.match]
    finds afterwards. *)
Lemma caches_match_cache_put_miss name u r (cs : CacheStorage) :
  caches_match u cs = None →
  caches_match u (cache_put name u r cs) = Some r.
Proof.
  intros Hmiss. unfold cache_put. apply caches_match_put_in_miss.
  - by rewrite caches_match_open.
  - apply cache_of_open.
Qed.


Section Fetch.
Variable origin : string.
Variable net : string → option Response.


End Fetch.


(** ** Requests of any method *)

Section Methods.
(** [self.location.origin], the network, and whether a response carries
    the header [Vary: *]. *)
Variable origin : string.
Variable net : string → option Response.
Variable varyAll : Response → bool.

(** [cache.put(request, response)] rejects with a [TypeError], and
    stores nothing, when the method of the request is not GET, when the
    status of the response is 206 and when the response carries
    [Vary: *]. *)
Definition put_rejects (method : string) (r : Response) : bool :=
  negb (String.eqb method "GET") || (status r =? 206) || varyAll r.

(** [caches.open(name).then(cache => cache.put(event.request, response))]:
    the cache is opened, and the rejection of the put, if it rejects, is
    not handled. *)
Definition cache_put_request (name method u : string) (r : Response)
    (cs : CacheStorage) : CacheStorage :=
  if put_rejects method r then caches_open name cs
  else cache_put name u r cs.

(** [caches.match(event.request)]: a request whose method is not GET
    matches nothing. *)
Definition caches_match_request (method u : string) (cs : CacheStorage)
    : option Response :=
  if String.eqb method "GET" then caches_match u cs else None.

(** The [fetch] listener, for a request with [event.request.method]. *)
Definition onfetch_method (method : string) (cs : CacheStorage)
    (request : Request) : Handling * CacheStorage :=
  if negb (startsWith (url request) origin)
     || includes (url request) "_vercel/insights"
     || includes (url request) "/api/"
  then (PassThrough, cs)
  else
    match mode request with
    | navigate =>
        match caches_match_request method (url request) cs with
        | Some cachedResponse => (RespondWith (Some cachedResponse), cs)
        | None =>
            match net (url request) with
            | Some networkResponse =>
                (RespondWith (Some networkResponse),
                 if ok networkResponse
                 then cache_put_request STATIC_CACHE_NAME method
                        (url request) networkResponse cs
                 else cs)
            | None =>
                (RespondWith (caches_match (origin +:+ OFFLINE_URL) cs), cs)
            end
        end
    | _ =>
        if isStaticAsset (url request) then
          match caches_match_request method (url request) cs with
          | Some cachedResponse =>
              (RespondWith (Some cachedResponse),
               if includes (url request) "main"
                  || includes (url request) "vendor"
                  || includes (url request) "icon"
               then
                 match net (url request) with
                 | Some networkResponse =>
                     if ok networkResponse
                     then cache_put_request STATIC_CACHE_NAME method
                            (url request) networkResponse cs
                     else cs
                 | None => cs
                 end
               else cs)
          | None =>
              match net (url request) with
              | Some networkResponse =>
                  (RespondWith (Some networkResponse),
                   if ok networkResponse
                   then cache_put_request STATIC_CACHE_NAME method
                          (url request) networkResponse cs
                   else cs)
              | None => (RespondRejected, cs)
              end
          end
        else
          match net (url request) with
          | Some networkResponse =>
              (RespondWith (Some networkResponse),
               if ok networkResponse
               then cache_put_request DYNAMIC_CACHE_NAME method
                      (url request) networkResponse cs
               else cs)
          | None =>
              (RespondWith (caches_match_request method (url request) cs), cs)
          end
    end.

(** For a GET request whose answer from the network the cache takes,
    the listener is [onfetch]. *)
Lemma onfetch_method_GET (cs : CacheStorage) (request : Request) :
  (∀ r, net (url request) = Some r →
        status r ≠ 206 ∧ varyAll r = false) →
  onfetch_method "GET" cs request = onfetch origin net cs request.
Proof.
  intros Hnet. unfold onfetch_method, onfetch, caches_match_request.
  cbn [String.eqb Ascii.eqb Bool.eqb andb].
  destruct (net (url request)) as [r|] eqn:Hr; [|done].
  destruct (Hnet r eq_refl) as [H206 Hvary].
  assert (∀ name, cache_put_request name "GET" (url request) r cs
                  = cache_put name (url request) r cs) as Hput.
  { intros name. unfold cache_put_request, put_rejects. rewrite Hvary.
    by destruct (Z.eqb_spec (status r) 206). }
  by rewrite !Hput.
Qed.

End Methods.

(** ** The page served offline *)

Lemma elem_of_cache_put_in_ne name u r (cs : CacheStorage) n c :
  (n, c) ∈ cache_put_in name u r cs → n ≠ name → (n, c) ∈ cs.
Proof.
  induction cs as [|[n' c'] cs IH]; [done|]. cbn [cache_put_in].
  destruct (decide (n' = name)) as [->|Hne]; rewrite !elem_of_cons.
  - intros [[= -> ->]|Hin] Hn; [done|by right].
  - intros [[= -> ->]|Hin] Hn; [by left|right; by apply IH].
Qed.

Lemma elem_of_caches_open_ne name (cs : CacheStorage) n c :
  (n, c) ∈ caches_open name cs → n ≠ name → (n, c) ∈ cs.
Proof.
  unfold caches_open. destruct (cache_of name cs); [done|].
  rewrite elem_of_app, list_elem_of_singleton.
  intros [?|[= -> ->]] ?; done.
Qed.

Lemma elem_of_put_all_ne name (fetched : list (string * Response)) n c :
  ∀ acc : CacheStorage,
    (n, c) ∈ foldl (λ acc entry, cache_put_in name entry.1 entry.2 acc)
               acc fetched →
    n ≠ name → (n, c) ∈ acc.
Proof.
  induction fetched as [|[u r] fetched IH]; intros acc; [done|].
  cbn [foldl fst snd]. intros Hin Hn.
  eapply elem_of_cache_put_in_ne; [|done]. by apply IH.
Qed.

(** The caches an install leaves under other names are caches that were
    there. *)
Lemma oninstall_other_caches origin net (cs cs' : CacheStorage) n c :
  oninstall origin net cs = (true, cs') →
  (n, c) ∈ cs' → n ≠ STATIC_CACHE_NAME → (n, c) ∈ cs.
Proof.
  unfold oninstall, addAll.
  destruct (fetchAll origin net PRECACHE_ASSETS) as [fetched|]; [|done].
  intros [= <-] Hin Hn.
  eapply elem_of_caches_open_ne; [|done].
  by eapply elem_of_put_all_ne.
Qed.

(** After activation [caches.match] finds what the static cache holds,
    unless a dynamic cache created before it has an entry of its own. *)
Lemma caches_match_onactivate_static u page c (cs : CacheStorage) :
  cache_of STATIC_CACHE_NAME cs = Some c → c !! u = Some page →
  (∀ c', (DYNAMIC_CACHE_NAME, c') ∈ cs → c' !! u = None) →
  caches_match u (onactivate cs) = Some page.
Proof.
  rewrite onactivate_filter.
  induction cs as [|[n c0] cs IH]; [done|]. cbn [cache_of].
  intros Hc Hu Hdyn.
  destruct (decide (n = STATIC_CACHE_NAME)) as [->|Hne].
  - injection Hc as ->. rewrite filter_cons_True by (by left).
    cbn [caches_match]. by rewrite Hu.
  - assert (caches_match u
              (filter (λ entry, entry.1 = STATIC_CACHE_NAME
                                ∨ entry.1 = DYNAMIC_CACHE_NAME) cs)
            = Some page) as Hrest.
    { apply IH; [done..|]. intros c' Hin. apply Hdyn. by right. }
    destruct (decide (n = DYNAMIC_CACHE_NAME)) as [->|Hnd].
    + rewrite filter_cons_True by (by right). cbn [caches_match].
      rewrite (Hdyn c0) by (by left). done.
    + rewrite filter_cons_False; [done|]. cbn [fst]. tauto.
Qed.

Section Listener.
Variable origin : string.


(** X15.  What was fetched once is served when the network is gone.  A
    request the listener handles, that no cache matches and that the
    network answers with a 2xx response, is answered with that response,
    whatever its method, mode and kind.  When the request is a GET and
    the response is one the cache takes (its status is not 206 and it
    carries no [Vary: *]), the response is put into the cache (the put
    is not awaited, and is taken as done), and the same request, made
    again when its fetch fails, is answered with that same response.  When the request is not a GET, or the status is 206, or
    the response carries [Vary: *], the put is refused and
    [caches.match] finds what it found before: nothing is kept for the
    time the network is gone. *)
Theorem onfetch_serves_offline_what_it_fetched
    (varyAll : Response → bool)
    (net net' : string → option Response) (method : string)
    (cs : CacheStorage) (request : Request) (r : Response) :
  startsWith (url request) origin = true →
  includes (url request) "_vercel/insights" = false →
  includes (url request) "/api/" = false →
  caches_match (url request) cs = None →
  net (url request) = Some r →
  ok r = true →
  net' (url request) = None →
  ∃ cs',
    onfetch_method origin net varyAll method cs request
      = (RespondWith (Some r), cs') ∧
    (method = "GET" → status r ≠ 206 → varyAll r = false →
     onfetch_method origin net' varyAll "GET" cs' request
       = (RespondWith (Some r), cs')) ∧
    (method ≠ "GET" ∨ status r = 206 ∨ varyAll r = true →
     ∀ u, caches_match u cs' = caches_match u cs).
Proof.
  intros Hsame Hins Hapi Hmiss Hnet Hok Hdown.
  assert (caches_match_request method (url request) cs = None) as Hmiss'.
  { unfold caches_match_request. by destruct (String.eqb method "GET"). }
  assert (∃ name,
            onfetch_method origin net varyAll method cs request
            = (RespondWith (Some r),
               cache_put_request varyAll name method (url request) r cs))
    as [name Hfirst].
  { unfold onfetch_method.
    rewrite Hsame, Hins, Hapi, Hmiss', Hnet, Hok. cbn [negb orb].
    destruct (mode request); [by eexists|..];
      destruct (isStaticAsset (url request)); by eexists. }
  eexists. split; [exact Hfirst|]. split.
  - intros -> H206 Hvary.
    assert (cache_put_request varyAll name "GET" (url request) r cs
            = cache_put name (url request) r cs) as ->.
    { unfold cache_put_request, put_rejects. rewrite Hvary.
      by destruct (Z.eqb_spec (status r) 206). }
    unfold onfetch_method, caches_match_request.
    cbn [String.eqb Ascii.eqb Bool.eqb andb].
    rewrite Hsame, Hins, Hapi, Hdown. cbn [negb orb].
    rewrite (caches_match_cache_put_miss _ _ _ _ Hmiss).
    destruct (mode request); [done|..];
      destruct (isStaticAsset (url request)); try done;
      by destruct (_ || _ || _).
  - intros Hrej u.
    assert (put_rejects varyAll method r = true) as Hr.
    { unfold put_rejects. destruct Hrej as [Hm|[H206|Hvary]].
      - apply String.eqb_neq in Hm. by rewrite Hm.
      - rewrite H206, Z.eqb_refl. by rewrite orb_true_r.
      - by rewrite Hvary, orb_true_r. }
    unfold cache_put_request. rewrite Hr. apply caches_match_open.
Qed.

(** X16.  Install, activate, go offline.  After an install whose promise
    was fulfilled and the activation that follows, a navigation the
    listener handles whose fetch fails is answered with a page, and the
    caches are not changed.  For a GET the page is the response
    [caches.match] finds for the URL of the request, when it finds one;
    otherwise, and for a navigation that is not a GET, it is the offline
    page as the network gave it at the install (a 2xx response),
    provided no dynamic cache that was there before the install holds
    an entry of its own for the offline page. *)
Theorem oninstall_onactivate_onfetch_offline
    (varyAll : Response → bool)
    (net net' : string → option Response) (method : string)
    (cs cs' : CacheStorage) (request : Request) :
  oninstall origin net cs = (true, cs') →
  (∀ c, (DYNAMIC_CACHE_NAME, c) ∈ cs →
        c !! (origin +:+ OFFLINE_URL) = None) →
  startsWith (url request) origin = true →
  includes (url request) "_vercel/insights" = false →
  includes (url request) "/api/" = false →
  mode request = navigate →
  net' (url request) = None →
  ∃ page,
    net (origin +:+ OFFLINE_URL) = Some page ∧ ok page = true ∧
    (method = "GET" →
     onfetch_method origin net' varyAll method (onactivate cs') request
     = (RespondWith
          (Some match caches_match (url request) (onactivate cs') with
                | Some cachedResponse => cachedResponse
                | None => page
                end),
        onactivate cs')) ∧
    (method ≠ "GET" →
     onfetch_method origin net' varyAll method (onactivate cs') request
     = (RespondWith (Some page), onactivate cs')).
Proof.
  intros Hinst Hdyn Hsame Hins Hapi Hnav Hdown.
  destruct (oninstall_precaches_offline_page origin net cs cs' Hinst)
    as (c & page & Hc & Hpage & Hnet & Hok).
  exists page. split_and!; [done..| |].
  all: assert (caches_match (origin +:+ OFFLINE_URL) (onactivate cs')
               = Some page) as Hoff
         by (apply (caches_match_onactivate_static _ _ c); [done..|];
             intros c' Hin; apply Hdyn;
             by apply (oninstall_other_caches origin net cs cs')).
  all: intros Hm; unfold onfetch_method, caches_match_request.
  all: rewrite Hsame, Hins, Hapi, Hnav, Hdown; cbn [negb orb].
  - subst method. cbn [String.eqb Ascii.eqb Bool.eqb andb].
    destruct (caches_match (url request) (onactivate cs')) as [cached|];
      [done|]. by rewrite Hoff.
  - apply String.eqb_neq in Hm. by rewrite Hm, Hoff.
Qed.
End Listener.

(** ** The message listener *)

Inductive MessageType : Type :=
| SKIP_WAITING
| CLEAR_ALL_CACHES
| KEEP_ALIVE
| HEALTH_CHECK
| OtherType (type : string).

(** A message event: [event.data] ([None] when it is falsy) and whether
    [event.source] is set. *)
Record MessageEvent : Type :=
  { data : option MessageType; source : bool }.

Inductive CacheStatus : Type :=
| StatusUnknown | StatusOk | StatusEmpty | StatusError.

Record HealthStatus : Type :=
  { hs_timestamp : Z;
    cacheStatus : CacheStatus;
    uptime : Z;
    isResponding : bool }.

Inductive Reply : Type :=
| CACHES_CLEARED (timestamp : Z)
| KEEP_ALIVE_RESPONSE (timestamp : Z)
| HEALTH_STATUS (status : HealthStatus) (error : option string).

(** Where a message can be posted to: the client that sent the event
    ([event.source.postMessage]) or the port it transferred
    ([event.ports[0].postMessage]). *)
Inductive Target : Type := ToSource | ToPort.

(** The state of the worker the listeners share. *)
Record Worker : Type :=
  { lastActivityTimestamp : Z;
    caches : CacheStorage;
    skippedWaiting : bool }.

Section Messages.
(** The error of [caches.keys()] when it rejects, and the readings of
    [Date.now()] taken while one event is handled, in order. *)
Variable keysError : option string.
Variable Date_now : nat → Z.

(** The [message] listener: the state it leaves and the messages it
    posts. *)
Definition onmessage (event : MessageEvent) (w : Worker)
    : Worker * list (Target * Reply) :=
  let w := {| lastActivityTimestamp := Date_now 0;
              caches := caches w;
              skippedWaiting := skippedWaiting w |} in
  match data event with
  | None => (w, [])
  | Some SKIP_WAITING =>
      ({| lastActivityTimestamp := lastActivityTimestamp w;
          caches := caches w;
          skippedWaiting := true |}, [])
  | Some CLEAR_ALL_CACHES =>
      match keysError with
      | Some _ => (w, [])
      | None =>
          ({| lastActivityTimestamp := lastActivityTimestamp w;
              caches := clearAllCaches (caches w);
              skippedWaiting := skippedWaiting w |},
           if source event then [(ToSource, CACHES_CLEARED (Date_now 1))]
           else [])
      end
  | Some KEEP_ALIVE =>
      (w,
       if source event
       then [(ToSource, KEEP_ALIVE_RESPONSE (lastActivityTimestamp w))]
       else [])
  | Some HEALTH_CHECK =>
      let healthStatus :=
        {| hs_timestamp := Date_now 1;
           cacheStatus := StatusUnknown;
           uptime := Date_now 2 - lastActivityTimestamp w;
           isResponding := true |} in
      (w,
       if source event then
         match keysError with
         | None =>
             [(ToSource,
               HEALTH_STATUS
                 {| hs_timestamp := hs_timestamp healthStatus;
                    cacheStatus :=
                      if (0 <? length (keys (caches w)))%nat
                      then StatusOk else StatusEmpty;
                    uptime := uptime healthStatus;
                    isResponding := isResponding healthStatus |}
                 None)]
         | Some message =>
             [(ToSource,
               HEALTH_STATUS
                 {| hs_timestamp := hs_timestamp healthStatus;
                    cacheStatus := StatusError;
                    uptime := uptime healthStatus;
                    isResponding := isResponding healthStatus |}
                 (Some message))]
         end
       else [])
  | Some (OtherType _) => (w, [])
  end.

End Messages.

Lemma filter_none {A} (P : A → Prop) `{!∀ x, Decision (P x)} (l : list A) :
  (∀ x, x ∈ l → ¬ P x) → filter P l = [].
Proof.
  induction l as [|a l IH]; intros Hnone; [done|].
  rewrite filter_cons_False by (apply Hnone; by left).
  apply IH. intros x Hx. apply Hnone. by right.
Qed.

Lemma delete_all_filter : ∀ (ks : list string) (acc : CacheStorage),
  foldl (λ acc key, caches_delete key acc) acc ks
  = filter (λ entry, entry.1 ∉ ks) acc.
Proof.
  induction ks as [|k ks IH]; intros acc; cbn [foldl].
  - symmetry. apply filter_all. intros entry _ Hin. by inversion Hin.
  - rewrite IH. unfold caches_delete. rewrite list_filter_filter.
    apply list_filter_iff. intros entry. rewrite not_elem_of_cons. tauto.
Qed.

(** Deleting every key leaves no cache. *)
Lemma clearAllCaches_nil (cs : CacheStorage) : clearAllCaches cs = [].
Proof.
  unfold clearAllCaches. rewrite delete_all_filter.
  apply filter_none. intros entry Hin Hnot. apply Hnot.
  by apply list_elem_of_fmap_2.
Qed.

(** X17.  [CLEAR_ALL_CACHES] leaves nothing.  After the message, whatever
    caches there were, there is none: a [HEALTH_CHECK] is answered with
    [cacheStatus: 'empty'] (and ['ok'] exactly when there is at least one
    cache), and a navigation the fetch listener handles whose fetch
    fails is answered with [undefined], the offline page being gone with
    the rest.  Every other message leaves the caches as they are. *)
Theorem onmessage_clear_all_caches (Date_now : nat → Z) (w : Worker) :
  (∀ src,
     caches (onmessage None Date_now
               {| data := Some CLEAR_ALL_CACHES; source := src |} w).1 = []) ∧
  (∀ keysError event,
     data event ≠ Some CLEAR_ALL_CACHES →
     caches (onmessage keysError Date_now event w).1 = caches w) ∧
  (∀ status error,
     (ToSource, HEALTH_STATUS status error)
       ∈ (onmessage None Date_now
            {| data := Some HEALTH_CHECK; source := true |} w).2 →
     cacheStatus status =
       if decide (caches w = []) then StatusEmpty else StatusOk) ∧
  (∀ origin net src request,
     startsWith (url request) origin = true →
     includes (url request) "_vercel/insights" = false →
     includes (url request) "/api/" = false →
     mode request = navigate →
     net (url request) = None →
     onfetch origin net
       (caches (onmessage None Date_now
                  {| data := Some CLEAR_ALL_CACHES; source := src |} w).1)
       request
     = (RespondWith None, [])).
Proof.
  split_and!.
  - intros src. unfold onmessage. cbn [data fst caches].
    apply clearAllCaches_nil.
  - intros keysError [[[]|] src] Hne; cbn in *; try done;
      by destruct keysError.
  - intros status error. cbn. rewrite list_elem_of_singleton.
    intros [= -> ->]. cbn. by destruct (caches w).
  - intros origin net src request Hsame Hins Hapi Hnav Hdown.
    unfold onmessage. cbn [data fst caches].
    rewrite clearAllCaches_nil. unfold onfetch.
    by rewrite Hsame, Hins, Hapi, Hnav, Hdown.
Qed.

(** The listener posts on [event.source] only, and only when it is set. *)
Lemma onmessage_targets keysError Date_now event w target reply :
  (target, reply) ∈ (onmessage keysError Date_now event w).2 →
  target = ToSource ∧ source event = true.
Proof.
  destruct event as [[[]|] []]; cbn; try (by inversion 1);
    destruct keysError; cbn; rewrite ?list_elem_of_singleton;
    try (by inversion 1); by intros [= -> _].
Qed.

(** Every message, known or not, restarts the activity clock. *)
Lemma onmessage_activity keysError Date_now event w :
  lastActivityTimestamp (onmessage keysError Date_now event w).1
  = Date_now 0%nat.
Proof. destruct event as [[[]|] src]; cbn; try done; by destruct keysError. Qed.

(** ** The listeners, run *)

Definition reportRequest : Request :=
  {| url := "https://nesttask.example/reports/week"; mode := cors |}.

(** A worker that has just been installed and activated. *)
Definition freshWorker : Worker :=
  {| lastActivityTimestamp := 1700000000000;
     caches := installed;
     skippedWaiting := true |}.

(** A health check before and after [CLEAR_ALL_CACHES]. *)
Example onmessage_sample :
  (onmessage None (λ i, 1700000060000 + Z.of_nat i)
     {| data := Some HEALTH_CHECK; source := true |} freshWorker).2
  = [(ToSource,
      HEALTH_STATUS
        {| hs_timestamp := 1700000060001; cacheStatus := StatusOk;
           uptime := 2; isResponding := true |} None)] ∧
  (onmessage None (λ i, 1700000090000 + Z.of_nat i)
     {| data := Some HEALTH_CHECK; source := true |}
     (onmessage None (λ i, 1700000060000 + Z.of_nat i)
        {| data := Some CLEAR_ALL_CACHES; source := true |} freshWorker).1).2
  = [(ToSource,
      HEALTH_STATUS
        {| hs_timestamp := 1700000090001; cacheStatus := StatusEmpty;
           uptime := 2; isResponding := true |} None)].
Proof. split; vm_compute; reflexivity. Qed.

(** ** Cache first *)

Section CacheFirst.
Variable origin : string.

(** X25.  Cache first means never refreshed.  A navigation the listener
    handles that has a cache match, and likewise a static asset with a
    cache match whose URL contains none of "main", "vendor" and "icon",
    is answered with the cached response whatever the network would
    give, and the caches are left as they are: the entry is never
    updated by the listener, so the same response is served again and
    again. *)
Theorem onfetch_cache_first_never_refreshes
    (net : string → option Response) (cs : CacheStorage)
    (request : Request) (cached : Response) :
  startsWith (url request) origin = true →
  includes (url request) "_vercel/insights" = false →
  includes (url request) "/api/" = false →
  caches_match (url request) cs = Some cached →
  mode request = navigate ∨
    (isStaticAsset (url request) = true ∧
     includes (url request) "main" = false ∧
     includes (url request) "vendor" = false ∧
     includes (url request) "icon" = false) →
  onfetch origin net cs request = (RespondWith (Some cached), cs) ∧
  ∀ net' : string → option Response,
    onfetch origin net'
      (onfetch origin net cs request).2 request
    = (RespondWith (Some cached), cs).
Proof.
  intros Hsame Hins Hapi Hhit Hkind.
  assert (∀ n : string → option Response,
            onfetch origin n cs request = (RespondWith (Some cached), cs))
    as Hfrozen.
  { intros n. unfold onfetch. rewrite Hsame, Hins, Hapi, Hhit. cbn [negb orb].
    destruct Hkind as [->|(Hstatic & Hmain & Hvendor & Hicon)]; [done|].
    rewrite Hstatic, Hmain, Hvendor, Hicon. by destruct (mode request). }
  split; [apply Hfrozen|]. intros net'. rewrite Hfrozen. apply Hfrozen.
Qed.




Lemma caches_match_put_all name (fetched : list (string * Response)) u :
  u ∉ fetched.*1 →
  ∀ cs : CacheStorage,
  caches_match u
    (foldl (λ acc entry, cache_put_in name entry.1 entry.2 acc) cs fetched)
  = caches_match u cs.
Proof.
  induction fetched as [|[u' r] fetched IH]; intros Hu cs; cbn [foldl];
    [done|].
  cbn in Hu. apply not_elem_of_cons in Hu as [Hne Hu].
  by rewrite IH, caches_match_put_in_ne.
Qed.



End CacheFirst.

Definition rootNavigation : Request :=
  {| url := "https://nesttask.example/"; mode := navigate |}.

(** A network that has a new version of every page. *)
Definition updated (u : string) : option Response :=
  Some {| status := 200; body := "v2 of " +:+ u |}.

Lemma onfetch_cache_first_never_refreshes_witness :
  onfetch appOrigin updated installed rootNavigation
    = (RespondWith (Some {| status := 200; body := url rootNavigation |}),
       installed) ∧
  ∀ net' : string → option Response,
    onfetch appOrigin net'
      (onfetch appOrigin updated installed rootNavigation).2 rootNavigation
    = (RespondWith (Some {| status := 200; body := url rootNavigation |}),
       installed).
Proof.
  apply (onfetch_cache_first_never_refreshes appOrigin updated installed
           rootNavigation);
    [vm_compute; reflexivity..|by left].
Defined.

(** A report fetched once, then asked for again with the network down. *)
Lemma onfetch_serves_offline_what_it_fetched_witness :
  ∃ cs',
    onfetch_method appOrigin online (λ _, false) "GET" installed
      reportRequest
      = (RespondWith (Some {| status := 200; body := url reportRequest |}),
         cs') ∧
    onfetch_method appOrigin down (λ _, false) "GET" cs' reportRequest
      = (RespondWith (Some {| status := 200; body := url reportRequest |}),
         cs').
Proof.
  destruct (onfetch_serves_offline_what_it_fetched appOrigin (λ _, false)
              online down "GET" installed reportRequest
              {| status := 200; body := url reportRequest |})
    as (cs' & Hfirst & Hagain & _); [vm_compute; reflexivity..|].
  exists cs'. split; [exact Hfirst|].
  apply Hagain; [reflexivity|vm_compute; discriminate|reflexivity].
Defined.

(** A network that answers with a part of what is asked for. *)
Definition partial (u : string) : option Response :=
  Some {| status := 206; body := "bytes 0-99 of " +:+ u |}.

(** What is posted, and what comes back as a part, is not kept: asked
    for again with the network down, it is not there. *)
Example onfetch_method_sample :
  (onfetch_method appOrigin online (λ _, false) "POST" installed
     reportRequest).1
    = RespondWith (Some {| status := 200; body := url reportRequest |}) ∧
  (onfetch_method appOrigin down (λ _, false) "POST"
     (onfetch_method appOrigin online (λ _, false) "POST" installed
        reportRequest).2 reportRequest).1
    = RespondWith None ∧
  (onfetch_method appOrigin partial (λ _, false) "GET" installed
     reportRequest).1
    = RespondWith
        (Some {| status := 206;
                 body := "bytes 0-99 of " +:+ url reportRequest |}) ∧
  (onfetch_method appOrigin down (λ _, false) "GET"
     (onfetch_method appOrigin partial (λ _, false) "GET" installed
        reportRequest).2 reportRequest).1
    = RespondWith None.
Proof. split_and!; vm_compute; reflexivity. Qed.

(** The caches of a browser that has fetched a report before the worker
    is installed anew. *)
Definition visited : CacheStorage :=
  [(DYNAMIC_CACHE_NAME,
    {[ url reportRequest := {| status := 200; body := "report" |} ]})].

(** After an install over these caches and the activation, with the
    network down: a page never visited gets the offline page as the
    network gave it at the install, the start page gets its precached
    response, and a form posted to the start page gets the offline
    page. *)
Lemma oninstall_onactivate_onfetch_offline_witness :
  onfetch_method appOrigin down (λ _, false) "GET"
    (onactivate (oninstall appOrigin online visited).2) tasksNavigation
  = (RespondWith (Some offlinePage),
     onactivate (oninstall appOrigin online visited).2) ∧
  onfetch_method appOrigin down (λ _, false) "GET"
    (onactivate (oninstall appOrigin online visited).2) rootNavigation
  = (RespondWith (Some {| status := 200; body := url rootNavigation |}),
     onactivate (oninstall appOrigin online visited).2) ∧
  onfetch_method appOrigin down (λ _, false) "POST"
    (onactivate (oninstall appOrigin online visited).2) rootNavigation
  = (RespondWith (Some offlinePage),
     onactivate (oninstall appOrigin online visited).2).
Proof.
  assert (oninstall appOrigin online visited
          = (true, (oninstall appOrigin online visited).2)) as Hinst.
  { assert ((oninstall appOrigin online visited).1 = true) as Hok
      by (vm_compute; reflexivity).
    destruct (oninstall appOrigin online visited) as [b cs'].
    cbn [fst snd] in *. by rewrite Hok. }
  assert (∀ c, (DYNAMIC_CACHE_NAME, c) ∈ visited →
               c !! (appOrigin +:+ OFFLINE_URL) = None) as Hdyn.
  { unfold visited. intros c Hin. apply list_elem_of_singleton in Hin.
    injection Hin as ->. vm_compute. reflexivity. }
  split_and!.
  - destruct (oninstall_onactivate_onfetch_offline appOrigin (λ _, false)
                online down "GET" visited
                (oninstall appOrigin online visited).2
                tasksNavigation Hinst Hdyn)
      as (page & Hnet & _ & Hget & _); [vm_compute; reflexivity..|].
    rewrite Hget by reflexivity. injection Hnet as <-.
    assert (caches_match (url tasksNavigation)
              (onactivate (oninstall appOrigin online visited).2) = None)
      as -> by (vm_compute; reflexivity).
    reflexivity.
  - destruct (oninstall_onactivate_onfetch_offline appOrigin (λ _, false)
                online down "GET" visited
                (oninstall appOrigin online visited).2
                rootNavigation Hinst Hdyn)
      as (page & Hnet & _ & Hget & _); [vm_compute; reflexivity..|].
    rewrite Hget by reflexivity.
    assert (caches_match (url rootNavigation)
              (onactivate (oninstall appOrigin online visited).2)
            = Some {| status := 200; body := url rootNavigation |})
      as -> by (vm_compute; reflexivity).
    reflexivity.
  - destruct (oninstall_onactivate_onfetch_offline appOrigin (λ _, false)
                online down "POST" visited
                (oninstall appOrigin online visited).2
                rootNavigation Hinst Hdyn)
      as (page & Hnet & _ & _ & Hpost); [vm_compute; reflexivity..|].
    rewrite Hpost by discriminate. by injection Hnet as <-.
Defined.

End ServiceWorker.

(* ===================================================================== *)
(** * The PWA utilities: keep-alive and reinstall *)
(* ===================================================================== *)

Module Pwa.
Import JS.

Inductive Status : Type := active | inactive | errored.

Record ServiceWorkerMetadata : Type :=
  { lastPing : Z;
    lastResponse : Z;
    status : Status;
    errors : list string;
    reinstallCount : Z;
    lastReinstall : option Z }.

Definition defaultMetadata : ServiceWorkerMetadata :=
  {| lastPing := 0; lastResponse := 0; status := inactive; errors := [];
     reinstallCount := 0; lastReinstall := None |}.

(** The [sw_metadata] item of [sessionStorage]. *)
Abbreviation Session := (option ServiceWorkerMetadata).

(** [errors.push(e); if (errors.length > 10) errors = errors.slice(-10)] *)
Definition pushError (e : string) (errs : list string) : list string :=
  let errs' := errs ++ [e] in
  if (10 <? length errs')%nat then drop (length errs' - 10) errs' else errs'.

(** What can be seen of a run of the supervisor. *)
Inductive Effect : Type :=
| CallReinstall (now : Z)
| UnregisterAll
| CachesCleared
| Register
| ConsoleLog
| ConsoleWarn
| ConsoleError.

(** Where [reinstallServiceWorker] throws, if it does. *)
Inductive ReinstallFault : Type :=
| NoFault
| GetRegistrationsFails
| CachesFail
| RegisterFails.

(** What a ping meets: no registration or controller, an exception while
    posting, no reply within three seconds, or a reply, which may or may
    not be a [KEEP_ALIVE_RESPONSE]. *)
Inductive PingOutcome : Type :=
| NoController
| PostThrows
| TimedOut
| Replied (keepAliveResponse : bool).

(** One firing of the interval: what the ping and the health check meet,
    and the clock readings taken on the way. *)
Record Tick : Type :=
  { ping : PingOutcome;
    pingAt : Z;
    settledAt : Z;
    isHealthy : bool;
    now : Z;
    fault : ReinstallFault }.

Section Supervisor.
Variable toISOString : Z → string.
(** Whether [sessionStorage.setItem] goes through; when it throws, the
    error is logged and the item stays as it was. *)
Variable writable : bool.

Definition getServiceWorkerMetadata (s : Session) : ServiceWorkerMetadata :=
  default defaultMetadata s.

Definition saveServiceWorkerMetadata (m : ServiceWorkerMetadata) (s : Session)
    : Session :=
  if writable then Some m else s.

Definition pingServiceWorker (t : Tick) (s : Session) : bool * Session :=
  match ping t with
  | NoController => (false, s)
  | outcome =>
      let metadata := getServiceWorkerMetadata s in
      let s1 :=
        saveServiceWorkerMetadata
          {| lastPing := pingAt t; lastResponse := lastResponse metadata;
             status := status metadata; errors := errors metadata;
             reinstallCount := reinstallCount metadata;
             lastReinstall := lastReinstall metadata |} s in
      match outcome with
      | TimedOut =>
          let updated := getServiceWorkerMetadata s1 in
          (false,
           saveServiceWorkerMetadata
             {| lastPing := lastPing updated;
                lastResponse := lastResponse updated;
                status := errored;
                errors := pushError ("Ping timeout at "
                                       +:+ toISOString (settledAt t))
                                    (errors updated);
                reinstallCount := reinstallCount updated;
                lastReinstall := lastReinstall updated |} s1)
      | Replied true =>
          let updated := getServiceWorkerMetadata s1 in
          (true,
           saveServiceWorkerMetadata
             {| lastPing := lastPing updated;
                lastResponse := settledAt t;
                status := active;
                errors := errors updated;
                reinstallCount := reinstallCount updated;
                lastReinstall := lastReinstall updated |} s1)
      | _ => (false, s1)
      end
  end.

(** [reinstallServiceWorker]: unregister, clear the caches, register;
    whatever throws is logged. *)
Definition reinstallServiceWorker (f : ReinstallFault) : list Effect :=
  match f with
  | GetRegistrationsFails => [ConsoleError]
  | CachesFail => [UnregisterAll; ConsoleError]
  | RegisterFails => [UnregisterAll; CachesCleared; ConsoleError]
  | NoFault => [UnregisterAll; CachesCleared; Register; ConsoleLog]
  end.

(** The test that lets a reinstall through. *)
Definition mayReinstall (now : Z) (metadata : ServiceWorkerMetadata) : bool :=
  let thirtyMinutesAgo := now - 30 * 60 * 1000 in
  (reinstallCount metadata <? 3)
  || match lastReinstall metadata with
     | None => true
     | Some last => last <? thirtyMinutesAgo
     end.

(** [lastReinstall && lastReinstall > thirtyMinutesAgo ? count + 1 : 1] *)
Definition nextCount (now : Z) (metadata : ServiceWorkerMetadata) : Z :=
  let thirtyMinutesAgo := now - 30 * 60 * 1000 in
  match lastReinstall metadata with
  | Some last =>
      if negb (last =? 0) && (thirtyMinutesAgo <? last)
      then reinstallCount metadata + 1 else 1
  | None => 1
  end.

(** The repair branch of the interval callback. *)
Definition repair (t : Tick) (s : Session) : Session * list Effect :=
  let metadata := getServiceWorkerMetadata s in
  if mayReinstall (now t) metadata then
    (saveServiceWorkerMetadata
       {| lastPing := lastPing metadata; lastResponse := lastResponse metadata;
          status := status metadata; errors := errors metadata;
          reinstallCount := nextCount (now t) metadata;
          lastReinstall := Some (now t) |} s,
     CallReinstall (now t) :: reinstallServiceWorker (fault t))
  else
    (saveServiceWorkerMetadata
       {| lastPing := lastPing metadata; lastResponse := lastResponse metadata;
          status := status metadata;
          errors := pushError ("Too many reinstalls at "
                                 +:+ toISOString (now t))
                              (errors metadata);
          reinstallCount := reinstallCount metadata;
          lastReinstall := lastReinstall metadata |} s,
     [ConsoleError]).

(** The interval callback of [setupKeepAlive] (which installs no interval
    at all in a StackBlitz preview). *)
Definition keepAlive (t : Tick) (s : Session) : Session * list Effect :=
  let '(pingSuccessful, s1) := pingServiceWorker t s in
  if pingSuccessful then (s1, [])
  else if isHealthy t then (s1, [ConsoleWarn])
  else
    let '(s2, effects) := repair t s1 in
    (s2, ConsoleWarn :: ConsoleWarn :: effects).

(** The firings of the interval, one after the other. *)
Fixpoint run (ticks : list Tick) (s : Session) : Session * list Effect :=
  match ticks with
  | [] => (s, [])
  | t :: rest =>
      let '(s1, effects1) := keepAlive t s in
      let '(s2, effects2) := run rest s1 in
      (s2, effects1 ++ effects2)
  end.

End Supervisor.

(** The times at which [reinstallServiceWorker] was called. *)
Definition reinstallTimes (effects : list Effect) : list Z :=
  omap (λ e, match e with CallReinstall t => Some t | _ => None end) effects.

(** [30 * 60 * 1000] *)
Definition WINDOW : Z := 30 * 60 * 1000.

(** A firing whose ping times out and whose health check fails. *)
Definition failing (t : Z) : Tick :=
  {| ping := TimedOut; pingAt := t - 6000; settledAt := t - 3000;
     isHealthy := false; now := t; fault := NoFault |}.

(** What a repair and a suppressed repair look like from outside. *)
Definition repaired (t : Z) : list Effect :=
  [ConsoleWarn; ConsoleWarn; CallReinstall t;
   UnregisterAll; CachesCleared; Register; ConsoleLog].
Definition suppressed : list Effect := [ConsoleWarn; ConsoleWarn; ConsoleError].

(** Firing times that are positive and strictly increasing. *)
Fixpoint ascending (lo : Z) (ticks : list Tick) : Prop :=
  match ticks with
  | [] => True
  | t :: rest => lo < now t ∧ ascending (now t) rest
  end.

(** Every time of the list is more than [WINDOW] after the third time
    before it, the three times before the list being [w3], [w2], [w1]. *)
Fixpoint spread (w3 w2 w1 : option Z) (times : list Z) : Prop :=
  match times with
  | [] => True
  | x :: rest =>
      match w3 with Some d => d + WINDOW < x | None => True end
      ∧ spread w2 w1 (Some x) rest
  end.

(** What the counter knows about the last three reinstalls [w3], [w2],
    [w1] (oldest first): the last one is the time recorded, the times
    are positive and increasing, and the counter is at least the number
    of reinstalls at the end that follow one another within less than
    [WINDOW]. *)
Definition recorded (m : ServiceWorkerMetadata) (w3 w2 w1 : option Z) : Prop :=
  lastReinstall m = w1 ∧ 0 ≤ reinstallCount m ∧
  (∀ b, w1 = Some b → 0 < b ∧ 1 ≤ reinstallCount m) ∧
  (∀ b c, w1 = Some b → w2 = Some c →
          c < b ∧ (b - c < WINDOW → 2 ≤ reinstallCount m)) ∧
  (∀ b c d, w1 = Some b → w2 = Some c → w3 = Some d →
            d < c ∧ (b - c < WINDOW → c - d < WINDOW → 3 ≤ reinstallCount m)) ∧
  (w1 = None → w2 = None) ∧ (w2 = None → w3 = None).

Lemma recorded_ext m m' w3 w2 w1 :
  reinstallCount m' = reinstallCount m →
  lastReinstall m' = lastReinstall m →
  recorded m w3 w2 w1 → recorded m' w3 w2 w1.
Proof. unfold recorded. by intros -> ->. Qed.

Lemma recorded_default : recorded defaultMetadata None None None.
Proof. unfold recorded. cbn. repeat split; done. Qed.

(** A reinstall that the test lets through comes more than [WINDOW]
    after the third reinstall before it. *)
Lemma mayReinstall_spaced t m w3 w2 w1 :
  recorded m w3 w2 w1 →
  (∀ b, w1 = Some b → b < t) →
  mayReinstall t m = true →
  match w3 with Some d => d + WINDOW < t | None => True end.
Proof.
  intros (Hl & Hc0 & H1 & H2 & H3 & Hn1 & Hn2) Hlo Hmay.
  destruct w3 as [d|]; [|done].
  destruct w2 as [c|]; [|by specialize (Hn2 eq_refl)].
  destruct w1 as [b|]; [|by specialize (Hn1 eq_refl)].
  specialize (Hlo b eq_refl).
  destruct (H2 b c eq_refl eq_refl) as [Hcb _].
  destruct (H3 b c d eq_refl eq_refl eq_refl) as [Hdc H3'].
  unfold mayReinstall in Hmay. rewrite Hl in Hmay. fold WINDOW in Hmay.
  apply orb_true_iff in Hmay as [Hlt%Z.ltb_lt|Hlt%Z.ltb_lt]; [|lia].
  destruct (Z_lt_dec (b - c) WINDOW) as [Hbc|Hbc]; [|lia].
  destruct (Z_lt_dec (c - d) WINDOW) as [Hcd|Hcd]; [|lia].
  specialize (H3' Hbc Hcd). lia.
Qed.

Lemma mayReinstall_recorded t m m' w3 w2 w1 :
  recorded m w3 w2 w1 →
  (∀ b, w1 = Some b → b < t) →
  0 < t →
  reinstallCount m' = nextCount t m →
  lastReinstall m' = Some t →
  recorded m' w2 w1 (Some t).
Proof.
  intros (Hl & Hc0 & H1 & H2 & H3 & Hn1 & Hn2) Hlo Hpos Hc' Hl'.
  assert (1 ≤ nextCount t m) as Hone.
  { unfold nextCount. destruct (lastReinstall m); [|done].
    destruct (_ && _); lia. }
  assert (∀ b, w1 = Some b → t - b < WINDOW →
               nextCount t m = reinstallCount m + 1) as Hclose.
  { intros b Hb Hlt. destruct (H1 b Hb) as [Hbpos _].
    unfold nextCount. rewrite Hl, Hb. fold WINDOW.
    rewrite (proj2 (Z.eqb_neq b 0)) by lia.
    rewrite (proj2 (Z.ltb_lt (t - WINDOW) b)) by lia. done. }
  unfold recorded. rewrite Hc', Hl'. split_and!; try done; try lia.
  - by intros b [= <-].
  - intros b c [= <-] Hc. split; [by apply Hlo|].
    intros Hlt. rewrite (Hclose c Hc Hlt). destruct (H1 c Hc). lia.
  - intros b c d [= <-] Hc Hd. destruct (H2 c d Hc Hd) as [Hdc Htwo].
    split; [done|]. intros Hlt1 Hlt2. rewrite (Hclose c Hc Hlt1).
    specialize (Htwo Hlt2). lia.
Qed.

Section Throttle.
Variable toISOString : Z → string.

Local Abbreviation get := getServiceWorkerMetadata.

Lemma pingServiceWorker_keeps t s :
  reinstallCount (get (pingServiceWorker toISOString true t s).2)
    = reinstallCount (get s) ∧
  lastReinstall (get (pingServiceWorker toISOString true t s).2)
    = lastReinstall (get s).
Proof.
  unfold pingServiceWorker, saveServiceWorkerMetadata.
  destruct (ping t) as [| | |[|]]; done.
Qed.

Lemma mayReinstall_ext now m m' :
  reinstallCount m' = reinstallCount m →
  lastReinstall m' = lastReinstall m →
  mayReinstall now m' = mayReinstall now m ∧ nextCount now m' = nextCount now m.
Proof. unfold mayReinstall, nextCount. by intros -> ->. Qed.

(** A firing either leaves the counter and the time of the last
    reinstall alone and calls no reinstall, or the test let it through:
    it calls one reinstall and records it. *)
Lemma keepAlive_cases t s :
  let m := get s in
  let m' := get (keepAlive toISOString true t s).1 in
  let times := reinstallTimes (keepAlive toISOString true t s).2 in
  (reinstallCount m' = reinstallCount m ∧
   lastReinstall m' = lastReinstall m ∧ times = []) ∨
  (mayReinstall (now t) m = true ∧
   reinstallCount m' = nextCount (now t) m ∧
   lastReinstall m' = Some (now t) ∧ times = [now t]).
Proof.
  cbn zeta. unfold keepAlive.
  destruct (pingServiceWorker_keeps t s) as [Hc Hl].
  destruct (pingServiceWorker toISOString true t s) as [pingSuccessful s1].
  cbn [snd] in Hc, Hl.
  destruct pingSuccessful; [by left|].
  destruct (isHealthy t); [by left|].
  destruct (mayReinstall_ext (now t) (get s) (get s1) Hc Hl) as [Hmay Hnext].
  unfold repair. rewrite Hmay, Hnext.
  destruct (mayReinstall (now t) (get s)) eqn:Hm.
  - right. cbn. repeat split; try done. by destruct (fault t).
  - left. by cbn.
Qed.

(** A firing whose ping times out and whose health check fails. *)
Lemma keepAlive_failing t s :
  let m := get s in
  let m' := get (keepAlive toISOString true (failing t) s).1 in
  (keepAlive toISOString true (failing t) s).2
    = (if mayReinstall t m then repaired t else suppressed) ∧
  reinstallCount m'
    = (if mayReinstall t m then nextCount t m else reinstallCount m) ∧
  lastReinstall m'
    = (if mayReinstall t m then Some t else lastReinstall m).
Proof.
  cbn zeta. unfold keepAlive.
  destruct (pingServiceWorker_keeps (failing t) s) as [Hc Hl].
  destruct (pingServiceWorker toISOString true (failing t) s)
    as [pingSuccessful s1] eqn:Hping.
  assert (pingSuccessful = false) as ->.
  { revert Hping. unfold pingServiceWorker. cbn. by intros [= <- _]. }
  cbn [snd isHealthy failing] in *.
  destruct (mayReinstall_ext t (get s) (get s1) Hc Hl) as [Hmay Hnext].
  unfold repair. cbn [now fault failing]. rewrite Hmay, Hnext.
  by destruct (mayReinstall t (get s)).
Qed.

Lemma run_cons t rest s :
  run toISOString true (t :: rest) s =
    ((run toISOString true rest (keepAlive toISOString true t s).1).1,
     (keepAlive toISOString true t s).2
       ++ (run toISOString true rest (keepAlive toISOString true t s).1).2).
Proof.
  cbn [run]. destruct (keepAlive toISOString true t s) as [s1 e1].
  cbn [fst snd]. by destruct (run toISOString true rest s1) as [s2 e2].
Qed.

(** From a session whose counter knows the last three reinstalls, with
    the firings coming later and in increasing order, every reinstall
    called is more than [WINDOW] after the third one before it. *)
Lemma run_spread : ∀ ticks s lo w3 w2 w1,
  recorded (get s) w3 w2 w1 →
  0 ≤ lo →
  (∀ b, w1 = Some b → b ≤ lo) →
  ascending lo ticks →
  spread w3 w2 w1 (reinstallTimes (run toISOString true ticks s).2).
Proof.
  induction ticks as [|t rest IH]; intros s lo w3 w2 w1 Hrec Hlo Hw [];
    [done|].
  rewrite run_cons. cbn [snd]. unfold reinstallTimes at 1.
  rewrite omap_app. fold (reinstallTimes (keepAlive toISOString true t s).2).
  fold (reinstallTimes
          (run toISOString true rest (keepAlive toISOString true t s).1).2).
  destruct (keepAlive_cases t s) as [(Hc & Hl & ->)|(Hmay & Hc & Hl & ->)].
  - cbn [app]. apply (IH _ (now t)); try done; try lia.
    + by apply (recorded_ext (get s)).
    + intros b Hb. specialize (Hw b Hb). lia.
  - cbn [app spread]. split.
    + apply (mayReinstall_spaced (now t) (get s) w3 w2 w1); try done.
      intros b Hb. specialize (Hw b Hb). lia.
    + apply (IH _ (now t)); try done; try lia.
      * apply (mayReinstall_recorded (now t) (get s) _ w3 w2 w1);
          try done; try lia.
        intros b Hb. specialize (Hw b Hb). lia.
      * intros b [= <-]. lia.
Qed.

End Throttle.

Lemma spread_third a b x rest r' :
  spread a b (Some x) rest → rest !! 2%nat = Some r' → x + WINDOW < r'.
Proof.
  destruct rest as [|y [|z [|r'' rest]]]; try done.
  cbn. intros (_ & _ & Hx & _) [= <-]. done.
Qed.

Lemma spread_lookup : ∀ times w3 w2 w1 (i : nat) r r',
  spread w3 w2 w1 times →
  times !! i = Some r → times !! (i + 3)%nat = Some r' →
  r + WINDOW < r'.
Proof.
  induction times as [|x rest IH]; intros w3 w2 w1 i r r' Hs Hi Hj;
    [done|].
  destruct Hs as [_ Hs]. destruct i as [|i].
  - cbn in Hi, Hj. injection Hi as <-. by apply (spread_third w2 w1 x rest).
  - cbn in Hi, Hj. by apply (IH w2 w1 (Some x) i).
Qed.

Lemma mayReinstall_eq t m c l :
  reinstallCount m = c → lastReinstall m = l →
  mayReinstall t m =
    (c <? 3) || match l with
                | None => true
                | Some last => last <? t - WINDOW
                end.
Proof. by intros <- <-. Qed.

Lemma nextCount_eq t m c l :
  reinstallCount m = c → lastReinstall m = l →
  nextCount t m =
    match l with
    | Some last => if negb (last =? 0) && (t - WINDOW <? last)
                   then c + 1 else 1
    | None => 1
    end.
Proof. by intros <- <-. Qed.

(** One more failing firing, from the counter and the time of the last
    reinstall before it: either the test lets the repair through, or it
    does not. *)
Lemma failing_repaired toISOString t s c l c' :
  reinstallCount (getServiceWorkerMetadata s) = c →
  lastReinstall (getServiceWorkerMetadata s) = l →
  (c <? 3) || match l with
              | None => true
              | Some last => last <? t - WINDOW
              end = true →
  match l with
  | Some last => if negb (last =? 0) && (t - WINDOW <? last)
                 then c + 1 else 1
  | None => 1
  end = c' →
  ∃ s', keepAlive toISOString true (failing t) s = (s', repaired t) ∧
        reinstallCount (getServiceWorkerMetadata s') = c' ∧
        lastReinstall (getServiceWorkerMetadata s') = Some t.
Proof.
  intros Hc Hl Hgo Hnext.
  pose proof (keepAlive_failing toISOString t s) as H. cbn zeta in H.
  rewrite (mayReinstall_eq t _ c l Hc Hl), Hgo in H.
  rewrite (nextCount_eq t _ c l Hc Hl), Hnext in H.
  destruct (keepAlive toISOString true (failing t) s) as [s' e].
  cbn [fst snd] in H. destruct H as (-> & H2 & H3). by exists s'.
Qed.

Lemma failing_suppressed toISOString t s c l :
  reinstallCount (getServiceWorkerMetadata s) = c →
  lastReinstall (getServiceWorkerMetadata s) = l →
  (c <? 3) || match l with
              | None => true
              | Some last => last <? t - WINDOW
              end = false →
  ∃ s', keepAlive toISOString true (failing t) s = (s', suppressed) ∧
        reinstallCount (getServiceWorkerMetadata s') = c ∧
        lastReinstall (getServiceWorkerMetadata s') = l.
Proof.
  intros Hc Hl Hgo.
  pose proof (keepAlive_failing toISOString t s) as H. cbn zeta in H.
  rewrite (mayReinstall_eq t _ c l Hc Hl), Hgo, Hc, Hl in H.
  destruct (keepAlive toISOString true (failing t) s) as [s' e].
  cbn [fst snd] in H. destruct H as (-> & H2 & H3). by exists s'.
Qed.

Lemma run_step toISOString t rest s s1 e1 s2 e2 :
  keepAlive toISOString true t s = (s1, e1) →
  run toISOString true rest s1 = (s2, e2) →
  run toISOString true (t :: rest) s = (s2, e1 ++ e2).
Proof. intros H1 H2. cbn [run]. by rewrite H1, H2. Qed.

(** Decides the comparisons of a goal from the linear facts at hand. *)
Ltac compare_times :=
  repeat match goal with
  | |- context [?a <? ?b] =>
      first [ rewrite (proj2 (Z.ltb_lt a b)) by lia
            | rewrite (proj2 (Z.ltb_ge a b)) by lia ]
  | |- context [?a =? ?b] =>
      first [ rewrite (proj2 (Z.eqb_neq a b)) by lia
            | rewrite (proj2 (Z.eqb_eq a b)) by lia ]
  end.

(** C8.  With [sessionStorage] taking the writes and the interval firing
    at positive, increasing times, from a fresh session: whatever the
    pings and health checks meet, a reinstall is always called more than
    thirty minutes after the third reinstall before it, so no thirty
    minutes see more than three; and when failing firings come at
    [t1 < t2 < t3 < t4 < t5] with [t2] less than thirty minutes after
    [t1], [t3] less than thirty minutes after [t2], [t4] within thirty
    minutes of [t3] and [t5] more than thirty minutes after [t3], the
    first three each unregister, clear the caches and register, the
    fourth only logs an error and leaves the counter at 3, and the fifth
    reinstalls again with the counter back at 1. *)
Theorem keepAlive_reinstall_throttle
    (toISOString : Z → string) (ticks : list Tick) (t1 t2 t3 t4 t5 : Z) :
  ascending 0 ticks →
  0 < t1 → t1 < t2 → t2 < t3 → t3 < t4 → t4 < t5 →
  t2 - t1 < WINDOW → t3 - t2 < WINDOW →
  t4 - t3 ≤ WINDOW → WINDOW < t5 - t3 →
  (∀ (i : nat) r r',
     reinstallTimes (run toISOString true ticks None).2 !! i = Some r →
     reinstallTimes (run toISOString true ticks None).2 !! (i + 3)%nat
       = Some r' →
     r + WINDOW < r') ∧
  (run toISOString true
     [failing t1; failing t2; failing t3; failing t4] None).2
    = repaired t1 ++ repaired t2 ++ repaired t3 ++ suppressed ∧
  reinstallCount
    (getServiceWorkerMetadata
       (run toISOString true
          [failing t1; failing t2; failing t3; failing t4] None).1) = 3 ∧
  (run toISOString true
     [failing t1; failing t2; failing t3; failing t4; failing t5] None).2
    = repaired t1 ++ repaired t2 ++ repaired t3 ++ suppressed ++ repaired t5 ∧
  reinstallCount
    (getServiceWorkerMetadata
       (run toISOString true
          [failing t1; failing t2; failing t3; failing t4; failing t5]
          None).1) = 1.
Proof.
  intros Hasc H1 H12 H23 H34 H45 Hw12 Hw23 Hw34 Hw35. split.
  { intros i r r'.
    apply (spread_lookup _ None None None).
    apply (run_spread toISOString ticks None 0);
      [apply recorded_default|done..]. }
  destruct (failing_repaired toISOString t1 None 0 None 1)
    as (s1 & K1 & C1 & L1); [done..|].
  destruct (failing_repaired toISOString t2 s1 1 (Some t1) 2 C1 L1)
    as (s2 & K2 & C2 & L2); [done|by compare_times|].
  destruct (failing_repaired toISOString t3 s2 2 (Some t2) 3 C2 L2)
    as (s3 & K3 & C3 & L3); [done|by compare_times|].
  destruct (failing_suppressed toISOString t4 s3 3 (Some t3) C3 L3)
    as (s4 & K4 & C4 & L4); [by compare_times|].
  destruct (failing_repaired toISOString t5 s4 3 (Some t3) 1 C4 L4)
    as (s5 & K5 & C5 & L5); [by compare_times..|].
  assert (run toISOString true
            [failing t1; failing t2; failing t3; failing t4] None
          = (s4, repaired t1 ++ repaired t2 ++ repaired t3 ++ suppressed ++ []))
    as R4.
  { repeat (eapply run_step; [eassumption|]). reflexivity. }
  assert (run toISOString true
            [failing t1; failing t2; failing t3; failing t4; failing t5] None
          = (s5, repaired t1 ++ repaired t2 ++ repaired t3 ++ suppressed
                   ++ repaired t5 ++ []))
    as R5.
  { repeat (eapply run_step; [eassumption|]). reflexivity. }
  rewrite R4, R5, !app_nil_r. cbn [fst snd]. done.
Qed.

(** ** The supervisor, run *)

Definition stampOf (t : Z) : string := "t+" +:+ pretty t.

(** Firings thirty seconds apart: a failure, a ping that is answered,
    a failure whose health check succeeds, and two more failures. *)
Definition morning : list Tick :=
  [failing 1700000030000;
   {| ping := Replied true; pingAt := 1700000060000;
      settledAt := 1700000060004; isHealthy := true;
      now := 1700000060004; fault := NoFault |};
   {| ping := TimedOut; pingAt := 1700000090000;
      settledAt := 1700000093000; isHealthy := true;
      now := 1700000093010; fault := NoFault |};
   failing 1700000120000;
   failing 1700000150000;
   failing 1700000180000;
   failing 1700000210000].

Example run_morning :
  reinstallTimes (run stampOf true morning None).2
    = [1700000030000; 1700000120000; 1700000150000] ∧
  reinstallCount (getServiceWorkerMetadata (run stampOf true morning None).1)
    = 3.
Proof. split; vm_compute; reflexivity. Qed.

(** When [sessionStorage] refuses the writes nothing is counted. *)
Example run_morning_unwritable :
  reinstallTimes (run stampOf false morning None).2
    = [1700000030000; 1700000120000; 1700000150000;
       1700000180000; 1700000210000].
Proof. vm_compute. reflexivity. Qed.

Lemma keepAlive_reinstall_throttle_witness :
  (∀ (i : nat) r r',
     reinstallTimes (run stampOf true morning None).2 !! i = Some r →
     reinstallTimes (run stampOf true morning None).2 !! (i + 3)%nat
       = Some r' →
     r + WINDOW < r') ∧
  (run stampOf true
     [failing 1700000030000; failing 1700000060000; failing 1700000090000;
      failing 1700000120000] None).2
    = repaired 1700000030000 ++ repaired 1700000060000
        ++ repaired 1700000090000 ++ suppressed ∧
  reinstallCount
    (getServiceWorkerMetadata
       (run stampOf true
          [failing 1700000030000; failing 1700000060000;
           failing 1700000090000; failing 1700000120000] None).1) = 3 ∧
  (run stampOf true
     [failing 1700000030000; failing 1700000060000; failing 1700000090000;
      failing 1700000120000; failing 1700001890001] None).2
    = repaired 1700000030000 ++ repaired 1700000060000
        ++ repaired 1700000090000 ++ suppressed ++ repaired 1700001890001 ∧
  reinstallCount
    (getServiceWorkerMetadata
       (run stampOf true
          [failing 1700000030000; failing 1700000060000;
           failing 1700000090000; failing 1700000120000;
           failing 1700001890001] None).1) = 1.
Proof.
  apply (keepAlive_reinstall_throttle stampOf morning
           1700000030000 1700000060000 1700000090000 1700000120000
           1700001890001);
    try (unfold WINDOW; lia).
  cbn. lia.
Defined.

(* --------------------------------------------------------------------- *)
(** ** What the session record never exceeds *)

Lemma pushError_length e errs : (length (pushError e errs) ≤ 10)%nat.
Proof.
  unfold pushError. cbv zeta.
  destruct (10 <? length (errs ++ [e]))%nat eqn:Hlong.
  - apply Nat.ltb_lt in Hlong. rewrite length_drop. lia.
  - by apply Nat.ltb_ge in Hlong.
Qed.

(** The error log of the record has at most ten entries and the
    reinstall counter is between 0 and 3. *)
Definition bounded (s : Session) : Prop :=
  (length (errors (getServiceWorkerMetadata s)) ≤ 10)%nat ∧
  0 ≤ reinstallCount (getServiceWorkerMetadata s) ≤ 3.

Section Bounds.
Variable toISOString : Z → string.
Variable writable : bool.

Lemma pingServiceWorker_bounded t s :
  bounded s → bounded (pingServiceWorker toISOString writable t s).2.
Proof.
  unfold bounded, pingServiceWorker, saveServiceWorkerMetadata.
  intros [He Hc]. pose proof pushError_length as Hp.
  destruct (ping t) as [| | |[|]], writable; cbn; auto.
Qed.

Lemma nextCount_bounded now m :
  0 ≤ reinstallCount m ≤ 3 → mayReinstall now m = true →
  0 ≤ nextCount now m ≤ 3.
Proof.
  unfold mayReinstall, nextCount. cbv zeta. intros Hc Hmay.
  destruct (lastReinstall m) as [last|]; [|lia].
  destruct (negb (last =? 0) && (now - 30 * 60 * 1000 <? last)) eqn:Hin;
    [|lia].
  apply andb_true_iff in Hin as [_ Hin%Z.ltb_lt].
  apply orb_true_iff in Hmay as [Hlt%Z.ltb_lt|Hold%Z.ltb_lt]; lia.
Qed.

Lemma repair_bounded t s : bounded s → bounded (repair toISOString writable t s).1.
Proof.
  unfold bounded, repair, saveServiceWorkerMetadata. cbv zeta.
  intros [He Hc].
  destruct (mayReinstall (now t) (getServiceWorkerMetadata s)) eqn:Hmay;
    destruct writable; cbn; auto.
  - split; [done|]. by apply nextCount_bounded.
  - split; [apply pushError_length|done].
Qed.

Lemma keepAlive_bounded t s :
  bounded s → bounded (keepAlive toISOString writable t s).1.
Proof.
  intros Hb. unfold keepAlive.
  pose proof (pingServiceWorker_bounded t s Hb) as Hp.
  destruct (pingServiceWorker toISOString writable t s) as [[|] s1];
    cbn [snd] in Hp; [done|].
  destruct (isHealthy t); [done|].
  pose proof (repair_bounded t s1 Hp) as Hr.
  by destruct (repair toISOString writable t s1) as [s2 effects].
Qed.

Lemma run_bounded : ∀ ticks s,
  bounded s → bounded (run toISOString writable ticks s).1.
Proof.
  induction ticks as [|t rest IH]; intros s Hb; [done|].
  cbn [run]. pose proof (keepAlive_bounded t s Hb) as Hk.
  destruct (keepAlive toISOString writable t s) as [s1 e1].
  specialize (IH s1 Hk).
  by destruct (run toISOString writable rest s1) as [s2 e2].
Qed.

(** X18.  The session record stays small.  From a fresh session, or from
    any record within the bounds, whatever the firings meet, whatever
    the clock reads and whether or not [sessionStorage] takes the
    writes: the error log never has more than ten entries and the
    reinstall counter never leaves 0..3. *)
Theorem run_keeps_the_record_bounded (ticks : list Tick) :
  (length (errors (getServiceWorkerMetadata
                     (run toISOString writable ticks None).1)) ≤ 10)%nat ∧
  0 ≤ reinstallCount (getServiceWorkerMetadata
                        (run toISOString writable ticks None).1) ≤ 3 ∧
  (∀ s, bounded s → bounded (run toISOString writable ticks s).1).
Proof.
  assert (bounded None) as Hfresh by (unfold bounded; cbn; lia).
  destruct (run_bounded ticks None Hfresh) as [He Hc].
  split_and!; [done|lia|lia|apply run_bounded].
Qed.

End Bounds.

(** ** The keep-alive against the worker of service-worker.js *)

(** What the listener on [messageChannel.port1] receives: the messages
    posted on the port that went with the request, not those posted to
    the client. *)
Definition port1 (posts : list (ServiceWorker.Target * ServiceWorker.Reply))
    : list ServiceWorker.Reply :=
  omap (λ post, match post.1 with
                | ServiceWorker.ToPort => Some post.2
                | ServiceWorker.ToSource => None
                end) posts.

(** What the promise inside [pingServiceWorker] settles on: the first
    message on the port, or the timeout. *)
Definition pingOutcome (inbox : list ServiceWorker.Reply) : PingOutcome :=
  match inbox with
  | [] => TimedOut
  | ServiceWorker.KEEP_ALIVE_RESPONSE _ :: _ => Replied true
  | _ :: _ => Replied false
  end.

(** The value of [checkServiceWorkerHealth] when it has a registration
    and a controller: [status.isResponding] of the first message on the
    port if that is a [HEALTH_STATUS], else [false]. *)
Definition healthOutcome (inbox : list ServiceWorker.Reply) : bool :=
  match inbox with
  | ServiceWorker.HEALTH_STATUS status _ :: _ =>
      ServiceWorker.isResponding status
  | _ => false
  end.

(** One firing of the interval in a page controlled (or not) by the
    worker [w]: the page posts [KEEP_ALIVE] and then [HEALTH_CHECK], each
    with a port; the worker handles them with its message listener. *)
Definition firingAgainst (controller : bool) (keysError : option string)
    (clock1 clock2 : nat → Z) (w : ServiceWorker.Worker)
    (pingAt settledAt now : Z) (fault : ReinstallFault) : Tick :=
  let answer1 :=
    ServiceWorker.onmessage keysError clock1
      {| ServiceWorker.data := Some ServiceWorker.KEEP_ALIVE;
         ServiceWorker.source := true |} w in
  let answer2 :=
    ServiceWorker.onmessage keysError clock2
      {| ServiceWorker.data := Some ServiceWorker.HEALTH_CHECK;
         ServiceWorker.source := true |} answer1.1 in
  {| ping := if controller then pingOutcome (port1 answer1.2)
             else NoController;
     pingAt := pingAt;
     settledAt := settledAt;
     isHealthy := controller && healthOutcome (port1 answer2.2);
     now := now;
     fault := fault |}.

Lemma port1_onmessage keysError clock event w :
  port1 (ServiceWorker.onmessage keysError clock event w).2 = [].
Proof.
  destruct (port1 _) as [|reply inbox] eqn:Hp; [done|exfalso].
  assert (reply ∈ port1 (ServiceWorker.onmessage keysError clock event w).2)
    as Hin by (rewrite Hp; by left).
  unfold port1 in Hin. apply list_elem_of_omap in Hin as ([target r] & Hin & Hsome).
  apply ServiceWorker.onmessage_targets in Hin as [-> _]. done.
Qed.

Section Against.
Variable toISOString : Z → string.
Variable writable : bool.

Lemma pingServiceWorker_keeps_record t s :
  reinstallCount (getServiceWorkerMetadata
                    (pingServiceWorker toISOString writable t s).2)
    = reinstallCount (getServiceWorkerMetadata s) ∧
  lastReinstall (getServiceWorkerMetadata
                   (pingServiceWorker toISOString writable t s).2)
    = lastReinstall (getServiceWorkerMetadata s).
Proof.
  unfold pingServiceWorker, saveServiceWorkerMetadata.
  destruct (ping t) as [| | |[|]], writable; done.
Qed.

(** A firing whose ping is not answered with [KEEP_ALIVE_RESPONSE] and
    whose health check fails goes to the repair branch. *)
Lemma keepAlive_unanswered t s :
  ping t ≠ Replied true → isHealthy t = false →
  (keepAlive toISOString writable t s).2
  = ConsoleWarn :: ConsoleWarn ::
      (if mayReinstall (now t) (getServiceWorkerMetadata s)
       then CallReinstall (now t) :: reinstallServiceWorker (fault t)
       else [ConsoleError]).
Proof.
  intros Hping Hsick. unfold keepAlive.
  destruct (pingServiceWorker_keeps_record t s) as [Hc Hl].
  destruct (pingServiceWorker toISOString writable t s)
    as [pingSuccessful s1] eqn:Hp.
  assert (pingSuccessful = false) as ->.
  { revert Hp. unfold pingServiceWorker.
    destruct (ping t) as [| | |[|]]; try done; by intros [= <- _]. }
  rewrite Hsick. cbn [snd] in Hc, Hl.
  destruct (mayReinstall_ext (now t) _ _ Hc Hl) as [Hmay _].
  unfold repair. rewrite Hmay.
  by destruct (mayReinstall (now t) (getServiceWorkerMetadata s)).
Qed.

(** X19.  The worker never answers on the port.  The message listener of
    service-worker.js posts its [KEEP_ALIVE_RESPONSE] and [HEALTH_STATUS]
    on [event.source]; [pingServiceWorker] and [checkServiceWorkerHealth]
    listen on the port of their own [MessageChannel].  So in a page
    served by this worker the ping of every firing times out (or finds no
    controller) and the health check fails, whatever state the worker is
    in: every firing goes to the repair branch, and from a fresh session
    the first firing already unregisters the worker, deletes the caches
    and registers again. *)
Theorem keepAlive_against_service_worker (controller : bool)
    (keysError : option string) (clock1 clock2 : nat → Z)
    (w : ServiceWorker.Worker) (pingAt settledAt now : Z)
    (fault : ReinstallFault) :
  ping (firingAgainst controller keysError clock1 clock2 w
          pingAt settledAt now fault)
    = (if controller then TimedOut else NoController) ∧
  isHealthy (firingAgainst controller keysError clock1 clock2 w
               pingAt settledAt now fault) = false ∧
  (∀ s,
     (keepAlive toISOString writable
        (firingAgainst controller keysError clock1 clock2 w
           pingAt settledAt now fault) s).2
     = ConsoleWarn :: ConsoleWarn ::
         (if mayReinstall now (getServiceWorkerMetadata s)
          then CallReinstall now :: reinstallServiceWorker fault
          else [ConsoleError])) ∧
  (keepAlive toISOString writable
     (firingAgainst controller keysError clock1 clock2 w
        pingAt settledAt now NoFault) None).2
  = repaired now.
Proof.
  assert (∀ f,
            ping (firingAgainst controller keysError clock1 clock2 w
                    pingAt settledAt now f)
              = (if controller then TimedOut else NoController) ∧
            isHealthy (firingAgainst controller keysError clock1 clock2 w
                         pingAt settledAt now f) = false) as Hmeets.
  { intros f. unfold firingAgainst. cbn [ping isHealthy].
    rewrite !port1_onmessage. cbn [pingOutcome healthOutcome].
    by destruct controller. }
  assert (∀ f s,
            (keepAlive toISOString writable
               (firingAgainst controller keysError clock1 clock2 w
                  pingAt settledAt now f) s).2
            = ConsoleWarn :: ConsoleWarn ::
                (if mayReinstall now (getServiceWorkerMetadata s)
                 then CallReinstall now :: reinstallServiceWorker f
                 else [ConsoleError])) as Hrepair.
  { intros f s. destruct (Hmeets f) as [Hping Hsick].
    rewrite keepAlive_unanswered; [done| |done].
    rewrite Hping. by destruct controller. }
  split_and!; [apply Hmeets..|apply Hrepair|].
  by rewrite Hrepair.
Qed.

End Against.

(** ** Registration and start-up *)

(** A registration as [registerServiceWorker] looks at it. *)
Record Registration : Type := { reg_active : bool; reg_scope : string }.

(** What [navigator.serviceWorker.register] raced against five seconds
    comes to. *)
Inductive RegisterOutcome : Type :=
| Registers
| RegisterTimesOut
| RegisterThrows.

(** The browser as the module meets it.  [getRegistrations] is [None]
    when the call rejects. *)
Record Browser : Type :=
  { isStackBlitz : bool;
    serviceWorkerInNavigator : bool;
    locationOrigin : string;
    getRegistrations : option (list Registration);
    registerOutcome : RegisterOutcome;
    onLine : bool;
    cachesInWindow : bool;
    cachesKeysRejects : bool }.

(** The state of the page: whether the module variable
    [serviceWorkerRegistration] is set, the keep-alive intervals
    installed, the [sw_metadata] item of [sessionStorage], and the
    [lastOnlineTimestamp] item of [localStorage], which only this
    module writes, as the number it parses to. *)
Record Page : Type :=
  { serviceWorkerRegistration : bool;
    keepAliveIntervals : nat;
    session : Session;
    lastOnlineTimestamp : option Z }.

Definition freshPage : Page :=
  {| serviceWorkerRegistration := false; keepAliveIntervals := 0;
     session := None; lastOnlineTimestamp := None |}.

(** [60 * 60 * 1000] *)
Definition oneHour : Z := 60 * 60 * 1000.

Section Startup.
Variable writable : bool.
Variable browser : Browser.

(** [setupKeepAlive], called outside a StackBlitz preview. *)
Definition setupKeepAlive (p : Page) : Page :=
  if isStackBlitz browser then p
  else {| serviceWorkerRegistration := serviceWorkerRegistration p;
          keepAliveIntervals := S (keepAliveIntervals p);
          session := session p;
          lastOnlineTimestamp := lastOnlineTimestamp p |}.

(** [reinstallServiceWorker] on the page: a reinstall that goes through
    sets [serviceWorkerRegistration]. *)
Definition reinstall (f : ReinstallFault) (p : Page) : Page * list Effect :=
  if isStackBlitz browser then (p, [])
  else
    (match f with
     | NoFault =>
         {| serviceWorkerRegistration := true;
            keepAliveIntervals := keepAliveIntervals p;
            session := session p;
            lastOnlineTimestamp := lastOnlineTimestamp p |}
     | _ => p
     end,
     reinstallServiceWorker f).

(** [registerServiceWorker]; the boolean tells whether a registration is
    returned. *)
Definition registerServiceWorker (p : Page) : bool * Page :=
  if isStackBlitz browser then (false, p)
  else if negb (serviceWorkerInNavigator browser) then (false, p)
  else if serviceWorkerRegistration p then (true, p)
  else
    match getRegistrations browser with
    | None => (false, p)
    | Some registrations =>
        match List.find (λ reg, reg_active reg
                                && includes (reg_scope reg)
                                     (locationOrigin browser))
                registrations with
        | Some existingRegistration =>
            (true,
             setupKeepAlive
               {| serviceWorkerRegistration := true;
                  keepAliveIntervals := keepAliveIntervals p;
                  session := session p;
                  lastOnlineTimestamp := lastOnlineTimestamp p |})
        | None =>
            match registerOutcome browser with
            | RegisterThrows => (false, p)
            | RegisterTimesOut => (false, p)
            | Registers =>
                let metadata := getServiceWorkerMetadata (session p) in
                (true,
                 setupKeepAlive
                   {| serviceWorkerRegistration := true;
                      keepAliveIntervals := keepAliveIntervals p;
                      session :=
                        saveServiceWorkerMetadata writable
                          {| lastPing := lastPing metadata;
                             lastResponse := lastResponse metadata;
                             status := active;
                             errors := errors metadata;
                             reinstallCount := reinstallCount metadata;
                             lastReinstall := lastReinstall metadata |}
                          (session p);
                      lastOnlineTimestamp := lastOnlineTimestamp p |})
            end
        end
    end.

(** [initPWA]: its result, the page it leaves and what it did to the
    worker and the caches.  [now] is the reading of the clock that is
    stored, [now'] the one compared with the time stored before.
    ([checkInstallability] and [setupUpdateHandler] only add listeners.) *)
Definition initPWA (f : ReinstallFault) (now now' : Z) (p : Page)
    : bool * Page * list Effect :=
  if isStackBlitz browser then (false, p, [ConsoleLog])
  else if onLine browser then
    let lastOnline := lastOnlineTimestamp p in
    let p1 := {| serviceWorkerRegistration := serviceWorkerRegistration p;
                 keepAliveIntervals := keepAliveIntervals p;
                 session := session p;
                 lastOnlineTimestamp := Some now |} in
    match lastOnline with
    | Some t =>
        let timeSinceLastOnline := now' - t in
        if oneHour <? timeSinceLastOnline then
          if cachesInWindow browser && cachesKeysRejects browser
          then (false, p1, [ConsoleLog; ConsoleError])
          else
            let '(p2, effects) := reinstall f p1 in
            (true, (registerServiceWorker p2).2,
             ConsoleLog ::
               (if cachesInWindow browser then [CachesCleared] else [])
               ++ CallReinstall now' :: effects)
        else (true, (registerServiceWorker p1).2, [])
    | None => (true, (registerServiceWorker p1).2, [])
    end
  else (true, (registerServiceWorker p).2, []).

End Startup.

(** The calls a page can make, one after the other. *)
Inductive Call : Type :=
| CallInitPWA (writable : bool) (browser : Browser) (f : ReinstallFault)
    (now now' : Z)
| CallRegisterServiceWorker (writable : bool) (browser : Browser).

Definition call (p : Page) (c : Call) : Page :=
  match c with
  | CallInitPWA writable browser f now now' =>
      (initPWA writable browser f now now' p).1.2
  | CallRegisterServiceWorker writable browser =>
      (registerServiceWorker writable browser p).2
  end.

(** At most one interval, and none without a registration. *)
Definition oneInterval (p : Page) : Prop :=
  (keepAliveIntervals p ≤ 1)%nat ∧
  (keepAliveIntervals p = 1%nat → serviceWorkerRegistration p = true).

Lemma registerServiceWorker_oneInterval writable browser p :
  oneInterval p → oneInterval (registerServiceWorker writable browser p).2.
Proof.
  intros Hone. pose proof Hone as [Hle Hreg].
  unfold registerServiceWorker, setupKeepAlive.
  destruct (isStackBlitz browser) eqn:Hsb; [exact Hone|].
  destruct (negb _); [exact Hone|].
  destruct (serviceWorkerRegistration p) eqn:Hset; [exact Hone|].
  assert (keepAliveIntervals p = 0%nat) as Hzero.
  { destruct (keepAliveIntervals p) as [|[|n]]; [done| |lia].
    by specialize (Hreg eq_refl). }
  destruct (getRegistrations browser) as [registrations|]; [|exact Hone].
  destruct (List.find _ registrations);
    [|destruct (registerOutcome browser); [|exact Hone..]];
    split; cbn; rewrite ?Hzero; done || lia.
Qed.

Lemma reinstall_oneInterval browser f p :
  oneInterval p → oneInterval (reinstall browser f p).1.
Proof.
  intros Hone. pose proof Hone as [Hle Hreg]. unfold reinstall.
  destruct (isStackBlitz browser); [exact Hone|].
  destruct f; try exact Hone. by split.
Qed.

Lemma initPWA_oneInterval writable browser f now now' p :
  oneInterval p → oneInterval (initPWA writable browser f now now' p).1.2.
Proof.
  intros Hone.
  assert (oneInterval
            {| serviceWorkerRegistration := serviceWorkerRegistration p;
               keepAliveIntervals := keepAliveIntervals p;
               session := session p;
               lastOnlineTimestamp := Some now |}) as Hone1 by exact Hone.
  unfold initPWA.
  destruct (isStackBlitz browser); [exact Hone|].
  destruct (onLine browser);
    [|by apply registerServiceWorker_oneInterval].
  destruct (lastOnlineTimestamp p) as [t|];
    [|by apply registerServiceWorker_oneInterval].
  cbv zeta. destruct (oneHour <? now' - t);
    [|by apply registerServiceWorker_oneInterval].
  destruct (_ && _); [exact Hone1|].
  pose proof (reinstall_oneInterval browser f _ Hone1) as Hr.
  destruct (reinstall browser f _) as [p2 effects]. cbn [fst snd] in *.
  by apply registerServiceWorker_oneInterval.
Qed.

(** X20.  One keep-alive interval at most.  However often, and in whatever
    browser state, a page calls [initPWA] and [registerServiceWorker] one
    after the other, it never has more than one keep-alive interval
    running, and never one without [serviceWorkerRegistration] being
    set. *)
Theorem calls_install_one_interval_at_most (calls : list Call) :
  (keepAliveIntervals (foldl call freshPage calls) ≤ 1)%nat ∧
  (keepAliveIntervals (foldl call freshPage calls) = 1%nat →
   serviceWorkerRegistration (foldl call freshPage calls) = true).
Proof.
  assert (∀ p, oneInterval p → oneInterval (foldl call p calls)) as Hall.
  { induction calls as [|c calls IH]; intros p Hp; [done|].
    cbn [foldl]. apply IH. destruct c; cbn [call].
    - by apply initPWA_oneInterval.
    - by apply registerServiceWorker_oneInterval. }
  apply Hall. split; [cbn; lia|done].
Qed.

Section Recovery.
Variable writable : bool.
Variable browser : Browser.

Lemma registerServiceWorker_session p :
  reinstallCount (getServiceWorkerMetadata
                    (session (registerServiceWorker writable browser p).2))
    = reinstallCount (getServiceWorkerMetadata (session p)) ∧
  lastReinstall (getServiceWorkerMetadata
                   (session (registerServiceWorker writable browser p).2))
    = lastReinstall (getServiceWorkerMetadata (session p)).
Proof.
  unfold registerServiceWorker, setupKeepAlive, saveServiceWorkerMetadata.
  destruct (isStackBlitz browser); [done|].
  destruct (negb _); [done|].
  destruct (serviceWorkerRegistration p); [done|].
  destruct (getRegistrations browser) as [registrations|]; [|done].
  destruct (List.find _ registrations); [done|].
  destruct (registerOutcome browser); try done.
  by destruct writable.
Qed.

Lemma reinstall_session f p : session (reinstall browser f p).1 = session p.
Proof.
  unfold reinstall. destruct (isStackBlitz browser); [done|]. by destruct f.
Qed.

Lemma initPWA_session f now now' p :
  reinstallCount
    (getServiceWorkerMetadata
       (session (initPWA writable browser f now now' p).1.2))
    = reinstallCount (getServiceWorkerMetadata (session p)) ∧
  lastReinstall
    (getServiceWorkerMetadata
       (session (initPWA writable browser f now now' p).1.2))
    = lastReinstall (getServiceWorkerMetadata (session p)).
Proof.
  set (p1 := {| serviceWorkerRegistration := serviceWorkerRegistration p;
                keepAliveIntervals := keepAliveIntervals p;
                session := session p;
                lastOnlineTimestamp := Some now |}).
  unfold initPWA. fold p1.
  destruct (isStackBlitz browser) eqn:Hsb; [done|].
  destruct (onLine browser);
    [|cbn [fst snd]; apply registerServiceWorker_session].
  destruct (lastOnlineTimestamp p) as [t|];
    [|cbn [fst snd]; apply (registerServiceWorker_session p1)].
  cbv zeta. destruct (oneHour <? now' - t);
    [|cbn [fst snd]; apply (registerServiceWorker_session p1)].
  destruct (_ && _); [done|].
  pose proof (reinstall_session f p1) as Hs.
  destruct (reinstall browser f p1) as [p2 effects]. cbn [fst snd] in *.
  destruct (registerServiceWorker_session p2) as [-> ->].
  by rewrite Hs.
Qed.

(** X21.  The recovery of [initPWA] goes round the throttle.  [initPWA]
    never touches the reinstall counter or the time of the last
    reinstall; and when the page is online, the time stored as
    [lastOnlineTimestamp] is more than an hour old and listing the caches
    does not fail, it calls [reinstallServiceWorker], whatever the
    counter says, even right after the keep-alive loop has used up its
    three reinstalls. *)
Theorem initPWA_reinstall_is_not_throttled (f : ReinstallFault)
    (now now' : Z) (p : Page) :
  reinstallCount
    (getServiceWorkerMetadata
       (session (initPWA writable browser f now now' p).1.2))
    = reinstallCount (getServiceWorkerMetadata (session p)) ∧
  lastReinstall
    (getServiceWorkerMetadata
       (session (initPWA writable browser f now now' p).1.2))
    = lastReinstall (getServiceWorkerMetadata (session p)) ∧
  (∀ t,
     isStackBlitz browser = false →
     onLine browser = true →
     lastOnlineTimestamp p = Some t →
     oneHour < now' - t →
     cachesInWindow browser && cachesKeysRejects browser = false →
     reinstallTimes (initPWA writable browser f now now' p).2 = [now'] ∧
     (initPWA writable browser f now now' p).2
     = ConsoleLog ::
         (if cachesInWindow browser then [CachesCleared] else [])
         ++ CallReinstall now' :: reinstallServiceWorker f).
Proof.
  destruct (initPWA_session f now now' p) as [Hc Hl].
  split_and!; [done..|].
  intros t Hsb Hon Hlast Hlong Hcaches. unfold initPWA, reinstall.
  rewrite Hsb, Hon, Hlast. cbv zeta.
  rewrite (proj2 (Z.ltb_lt _ _) Hlong), Hcaches. cbn [fst snd].
  split; [|done]. unfold reinstallTimes.
  destruct (cachesInWindow browser), f; done.
Qed.

(** X22.  After a recovery the page runs without keep-alive.  In a browser
    with service workers, online, with working caches, where
    [getRegistrations] answers and a registration would go through: when
    [initPWA] runs on a page that has no registration yet, it normally
    leaves the registration set and one more keep-alive interval running;
    but when it first reinstalls the worker, after more than an hour
    away, and the reinstall goes through, [registerServiceWorker] finds
    the registration set and returns at once, and no keep-alive interval
    is installed. *)
Theorem initPWA_recovery_installs_no_keep_alive (now now' : Z) (p : Page)
    (registrations : list Registration) :
  isStackBlitz browser = false →
  serviceWorkerInNavigator browser = true →
  onLine browser = true →
  cachesKeysRejects browser = false →
  getRegistrations browser = Some registrations →
  registerOutcome browser = Registers →
  serviceWorkerRegistration p = false →
  (∀ f,
     match lastOnlineTimestamp p with
     | Some t => now' - t ≤ oneHour
     | None => True
     end →
     (initPWA writable browser f now now' p).1.1 = true ∧
     serviceWorkerRegistration (initPWA writable browser f now now' p).1.2
       = true ∧
     keepAliveIntervals (initPWA writable browser f now now' p).1.2
       = S (keepAliveIntervals p)) ∧
  (∀ t,
     lastOnlineTimestamp p = Some t → oneHour < now' - t →
     (initPWA writable browser NoFault now now' p).1.1 = true ∧
     serviceWorkerRegistration
       (initPWA writable browser NoFault now now' p).1.2 = true ∧
     keepAliveIntervals (initPWA writable browser NoFault now now' p).1.2
       = keepAliveIntervals p).
Proof.
  intros Hsb Hsw Hon Hcaches Hregs Hreg Hnone.
  assert (∀ q, serviceWorkerRegistration q = false →
               serviceWorkerRegistration
                 (registerServiceWorker writable browser q).2 = true ∧
               keepAliveIntervals (registerServiceWorker writable browser q).2
                 = S (keepAliveIntervals q)) as Hfresh.
  { intros q Hq. unfold registerServiceWorker, setupKeepAlive.
    rewrite Hsb, Hsw, Hq, Hregs, Hreg. cbn [negb].
    by destruct (List.find _ registrations). }
  set (p1 := {| serviceWorkerRegistration := serviceWorkerRegistration p;
                keepAliveIntervals := keepAliveIntervals p;
                session := session p;
                lastOnlineTimestamp := Some now |}).
  split.
  - intros f Hrecent. unfold initPWA. fold p1. rewrite Hsb, Hon.
    destruct (lastOnlineTimestamp p) as [t|]; cbv zeta.
    + rewrite (proj2 (Z.ltb_ge _ _) Hrecent). cbn [fst snd].
      split; [done|]. by apply (Hfresh p1).
    + cbn [fst snd]. split; [done|]. by apply (Hfresh p1).
  - intros t Hlast Hlong. unfold initPWA, reinstall.
    rewrite Hsb, Hon, Hlast. cbv zeta.
    rewrite (proj2 (Z.ltb_lt _ _) Hlong), Hcaches, andb_false_r.
    cbn [fst snd]. unfold registerServiceWorker.
    rewrite Hsb, Hsw. done.
Qed.

End Recovery.

(** ** Start-up, run *)

Definition chrome : Browser :=
  {| isStackBlitz := false;
     serviceWorkerInNavigator := true;
     locationOrigin := "https://nesttask.example";
     getRegistrations := Some [];
     registerOutcome := Registers;
     onLine := true;
     cachesInWindow := true;
     cachesKeysRejects := false |}.

(** A page opened again two hours after it was last online. *)
Definition returning : Page :=
  {| serviceWorkerRegistration := false; keepAliveIntervals := 0;
     session := None; lastOnlineTimestamp := Some 1700000000000 |}.

Lemma initPWA_recovery_installs_no_keep_alive_witness :
  (∀ f,
     match lastOnlineTimestamp returning with
     | Some t => 1700007200001 - t ≤ oneHour
     | None => True
     end →
     (initPWA true chrome f 1700007200000 1700007200001 returning).1.1
       = true ∧
     serviceWorkerRegistration
       (initPWA true chrome f 1700007200000 1700007200001 returning).1.2
       = true ∧
     keepAliveIntervals
       (initPWA true chrome f 1700007200000 1700007200001 returning).1.2
       = S (keepAliveIntervals returning)) ∧
  (∀ t,
     lastOnlineTimestamp returning = Some t →
     oneHour < 1700007200001 - t →
     (initPWA true chrome NoFault 1700007200000 1700007200001
        returning).1.1 = true ∧
     serviceWorkerRegistration
       (initPWA true chrome NoFault 1700007200000 1700007200001
          returning).1.2 = true ∧
     keepAliveIntervals
       (initPWA true chrome NoFault 1700007200000 1700007200001
          returning).1.2
       = keepAliveIntervals returning).
Proof.
  apply (initPWA_recovery_installs_no_keep_alive true chrome
           1700007200000 1700007200001 returning []); reflexivity.
Defined.

(** The first visit installs the interval; the visit after two hours
    away reinstalls the worker and installs none. *)
Example initPWA_sample :
  keepAliveIntervals
    (initPWA true chrome NoFault 1700000000000 1700000000001 freshPage).1.2
    = 1%nat ∧
  initPWA true chrome NoFault 1700007200000 1700007200001 returning
  = (true,
     {| serviceWorkerRegistration := true; keepAliveIntervals := 0;
        session := None; lastOnlineTimestamp := Some 1700007200000 |},
     [ConsoleLog; CachesCleared; CallReinstall 1700007200001;
      UnregisterAll; CachesCleared; Register; ConsoleLog]).
Proof. split; vm_compute; reflexivity. Qed.

(** A recovery whose registration fails, followed by three failing
    firings of the interval the later registration installs: four
    reinstalls within two minutes, the first of them not counted. *)
Example initPWA_then_keepAlive :
  reinstallTimes
    ((initPWA true chrome RegisterFails 1700007200000 1700007200001
        returning).2
     ++ (run stampOf true
           [failing 1700007230000; failing 1700007260000;
            failing 1700007290000; failing 1700007320000]
           (session
              (initPWA true chrome RegisterFails 1700007200000
                 1700007200001 returning).1.2)).2)
  = [1700007200001; 1700007230000; 1700007260000; 1700007290000] ∧
  keepAliveIntervals
    (initPWA true chrome RegisterFails 1700007200000 1700007200001
       returning).1.2 = 1%nat.
Proof. split; vm_compute; reflexivity. Qed.

(** The worker of service-worker.js, answering a ping. *)
Example firingAgainst_sample :
  (ServiceWorker.onmessage None (λ i, 1700000030000 + Z.of_nat i)
     {| ServiceWorker.data := Some ServiceWorker.KEEP_ALIVE;
        ServiceWorker.source := true |} ServiceWorker.freshWorker).2
  = [(ServiceWorker.ToSource,
      ServiceWorker.KEEP_ALIVE_RESPONSE 1700000030000)] ∧
  ping (firingAgainst true None (λ i, 1700000030000 + Z.of_nat i)
          (λ i, 1700000033000 + Z.of_nat i) ServiceWorker.freshWorker
          1700000030000 1700000033000 1700000036000 NoFault)
  = TimedOut.
Proof. split; vm_compute; reflexivity. Qed.

End Pwa.

(* ===================================================================== *)
(** * src/hooks/useData.ts, [useData] *)
(* ===================================================================== *)

Module UseData.
Import JS.

Inductive LogEntry : Type :=
| Log (message : string)
| LogError (message : string) (error : Error).

Section Hook.
Context {T : Type}.

(** [if (x)] on a value of the data type. *)
Variable truthyT : T → bool.

(** [getCachedData] of utils/prefetch, which is not part of the sources
    at hand: what it returns for a key, [None] standing for [null] or
    [undefined]. *)
Variable getCachedData : string → option T.

Variable toISOString : Z → string.

(** What the hook returns at a render. *)
Record View : Type :=
  { data : option T; loading : bool; error : option Error }.

(** [const memoryCache = new Map<string, { data; timestamp }>()] *)
Local Abbreviation MemoryCache := (gmap string (T * string)).

(** The initial values given to [useState]: what the hook returns at the
    first render, before any effect has run. *)
Definition initial : View :=
  {| data := None; loading := true; error := None |}.

Definition setData (d : option T) (v : View) : View :=
  {| data := d; loading := loading v; error := error v |}.
Definition setLoading (b : bool) (v : View) : View :=
  {| data := data v; loading := b; error := error v |}.
Definition setError (e : option Error) (v : View) : View :=
  {| data := data v; loading := loading v; error := e |}.

(** The cached value [fetchData] goes on with, if there is one. *)
Definition cacheHit (cacheKey : string) : option T :=
  match getCachedData cacheKey with
  | Some cachedData => if truthyT cachedData then Some cachedData else None
  | None => None
  end.

(** [fetchData] from its start to the [await]: the state updates are
    applied together when the effect returns. *)
Definition fetchDataStart (cacheKey : string) (v : View)
    : View * list LogEntry :=
  let v := setError None (setLoading true v) in
  match cacheHit cacheKey with
  | Some cachedData =>
      (setLoading false (setData (Some cachedData) v),
       [Log ("Using cached data for " +:+ cacheKey)])
  | None => (v, [Log ("Fetching fresh data for " +:+ cacheKey)])
  end.

(** [fetchData] from the [await] on, once the promise of the fetcher has
    settled at time [now]. *)
Definition fetchDataResume (cacheKey : string) (now : Z)
    (settled : T + Error) (v : View) (cache : MemoryCache)
    : View * MemoryCache * list LogEntry :=
  match cacheHit cacheKey with
  | Some _ =>
      match settled with
      | inl freshData =>
          (setLoading false (setData (Some freshData) v),
           <[cacheKey := (freshData, toISOString now)]> cache, [])
      | inr err =>
          (setLoading false v, cache,
           [LogError ("Background fetch failed for " +:+ cacheKey +:+ ":") err])
      end
  | None =>
      match settled with
      | inl freshData =>
          (setLoading false (setData (Some freshData) v),
           <[cacheKey := (freshData, toISOString now)]> cache, [])
      | inr err =>
          (setLoading false (setError (Some err) v), cache,
           [LogError ("Error fetching data for " +:+ cacheKey +:+ ":") err])
      end
  end.

(** The second effect: [if (onlineData) memoryCache.set(cacheKey, ...)]. *)
Definition storeOnlineData (cacheKey : string) (onlineData : option T)
    (mountedAt : Z) (cache : MemoryCache) : MemoryCache :=
  match onlineData with
  | Some d =>
      if truthyT d then <[cacheKey := (d, toISOString mountedAt)]> cache
      else cache
  | None => cache
  end.

(** A mount of [useData]: what the hook returns render after render (the
    first render, the render after the effects have run, and the render
    after the fetcher has settled, if it does), the memory cache and the
    console at the end. *)
Definition useData (cacheKey : string) (onlineData : option T)
    (fetcher : Promise T) (mountedAt settledAt : Z) (cache : MemoryCache)
    : list View * MemoryCache * list LogEntry :=
  let '(v1, log1) := fetchDataStart cacheKey initial in
  let cache1 := storeOnlineData cacheKey onlineData mountedAt cache in
  match fetcher with
  | Pending => ([initial; v1], cache1, log1)
  | Resolved freshData =>
      let '(v2, cache2, log2) :=
        fetchDataResume cacheKey settledAt (inl freshData) v1 cache1 in
      ([initial; v1; v2], cache2, log1 ++ log2)
  | Rejected err =>
      let '(v2, cache2, log2) :=
        fetchDataResume cacheKey settledAt (inr err) v1 cache1 in
      ([initial; v1; v2], cache2, log1 ++ log2)
  end.

(** The hit the hook does have, on [getCachedData] of utils/prefetch.
    When [getCachedData] has a truthy value for the key, a mount of
    [useData] first returns the initial state, with no data and
    [loading] set; the render after the effects returns the cached value
    with [loading] cleared, and from then on [loading] is never set and
    [error] never set; when the fetcher resolves the hook returns its
    result and the memory cache holds it; when the fetcher rejects the
    hook goes on returning the cached value and the error only reaches
    the console. *)
Lemma useData_cache_hit
    (cacheKey : string) (onlineData : option T) (fetcher : Promise T)
    (mountedAt settledAt : Z) (cache : gmap string (T * string))
    (cached : T) :
  getCachedData cacheKey = Some cached →
  truthyT cached = true →
  ∃ views cache' console,
    useData cacheKey onlineData fetcher mountedAt settledAt cache
      = (views, cache', console) ∧
    views !! 0%nat = Some initial ∧
    views !! 1%nat
      = Some {| data := Some cached; loading := false; error := None |} ∧
    (∀ (i : nat) v, views !! S i = Some v →
                    loading v = false ∧ error v = None) ∧
    match fetcher with
    | Resolved freshData =>
        views !! 2%nat
          = Some {| data := Some freshData; loading := false; error := None |} ∧
        cache' !! cacheKey = Some (freshData, toISOString settledAt)
    | Rejected err =>
        views !! 2%nat
          = Some {| data := Some cached; loading := false; error := None |} ∧
        cache' = storeOnlineData cacheKey onlineData mountedAt cache ∧
        console =
          [Log ("Using cached data for " +:+ cacheKey);
           LogError ("Background fetch failed for " +:+ cacheKey +:+ ":") err]
    | Pending => length views = 2%nat
    end.
Proof.
  intros Hget Htruthy.
  assert (cacheHit cacheKey = Some cached) as Hhit.
  { unfold cacheHit. by rewrite Hget, Htruthy. }
  unfold useData, fetchDataStart, fetchDataResume. rewrite Hhit.
  destruct fetcher as [freshData|err|]; cbn;
    eexists _, _, _; (split; [reflexivity|]); cbn;
    (split; [done|]); (split; [done|]); split.
  - intros [|[|i]] v; cbn; [by intros [= <-]..|done].
  - split; [done|]. by rewrite lookup_insert_eq.
  - intros [|[|i]] v; cbn; [by intros [= <-]..|done].
  - done.
  - intros [|i] v; cbn; [by intros [= <-]|done].
  - done.
Qed.

(** On a miss the error of the fetcher is surfaced. *)
Lemma useData_cache_miss_failure
    (cacheKey : string) (onlineData : option T) (err : Error)
    (mountedAt settledAt : Z) (cache : gmap string (T * string)) :
  getCachedData cacheKey = None →
  (useData cacheKey onlineData (Rejected err) mountedAt settledAt cache).1.1
  = [initial; initial;
     {| data := None; loading := false; error := Some err |}].
Proof.
  intros Hget. unfold useData, fetchDataStart, fetchDataResume, cacheHit.
  by rewrite Hget.
Qed.

End Hook.

(** ** The hook, run *)

Definition prefetched (key : string) : option string :=
  if String.eqb key "tasks" then Some "[cached tasks]" else None.

Definition nonEmpty (d : string) : bool := negb (String.eqb d "").

Definition stampOf (t : Z) : string := "t+" +:+ pretty t.

(** Even with a value of [getCachedData] for the key, the first thing
    the hook returns has no data and shows [loading]. *)
Example useData_first_render_loading :
  prefetched "tasks" = Some "[cached tasks]" ∧
  nonEmpty "[cached tasks]" = true ∧
  (useData nonEmpty prefetched stampOf "tasks" None
     (Resolved "[fresh tasks]") 0 250 ∅).1.1
  = [ {| data := None; loading := true; error := None |};
      {| data := Some "[cached tasks]"; loading := false; error := None |};
      {| data := Some "[fresh tasks]"; loading := false; error := None |} ].
Proof. split_and!; vm_compute; reflexivity. Qed.

(** A background fetch that fails after a hit on [getCachedData]. *)
Example useData_cache_hit_sample :
  ∃ views cache' console,
    useData nonEmpty prefetched stampOf "tasks" None
      (Rejected (mkError TypeErrorC "Failed to fetch")) 0 250 ∅
      = (views, cache', console) ∧
    views !! 0%nat = Some initial ∧
    views !! 1%nat
      = Some {| data := Some "[cached tasks]"; loading := false;
                error := None |} ∧
    (∀ (i : nat) v, views !! S i = Some v →
                    loading v = false ∧ error v = None) ∧
    views !! 2%nat
      = Some {| data := Some "[cached tasks]"; loading := false;
                error := None |} ∧
    cache' = storeOnlineData nonEmpty stampOf "tasks" None 0 ∅ ∧
    console =
      [Log ("Using cached data for " +:+ "tasks");
       LogError ("Background fetch failed for " +:+ "tasks" +:+ ":")
         (mkError TypeErrorC "Failed to fetch")].
Proof.
  apply (useData_cache_hit nonEmpty prefetched stampOf "tasks" None
           (Rejected (mkError TypeErrorC "Failed to fetch")) 0 250 ∅
           "[cached tasks]"); reflexivity.
Qed.

(** C9, where the code departs from it.  The hook never reads its memory
    cache: [memoryCache] is written under "Update memory cache", and
    what [fetchData] looks up is [getCachedData] of utils/prefetch.
    Whatever entry [memoryCache] holds for the key, when
    [getCachedData] has nothing for it the hook shows [loading] with no
    data until the fetcher has settled; a fetcher that rejects leaves
    it with no data and the error set, and one that resolves with its
    result.  The entry is neither returned nor served on. *)
Theorem useData_memoryCache_entry_not_served {T : Type}
    (truthyT : T → bool) (toISOString : Z → string)
    (cacheKey : string) (entry : T * string)
    (cache : gmap string (T * string)) (onlineData : option T)
    (freshData : T) (err : Error) (mountedAt settledAt : Z) :
  (<[cacheKey := entry]> cache) !! cacheKey = Some entry ∧
  (useData truthyT (λ _, None) toISOString cacheKey onlineData Pending
     mountedAt settledAt (<[cacheKey := entry]> cache)).1.1
  = [initial; initial] ∧
  (useData truthyT (λ _, None) toISOString cacheKey onlineData
     (Rejected err) mountedAt settledAt (<[cacheKey := entry]> cache)).1.1
  = [initial; initial;
     {| data := None; loading := false; error := Some err |}] ∧
  (useData truthyT (λ _, None) toISOString cacheKey onlineData
     (Resolved freshData) mountedAt settledAt
     (<[cacheKey := entry]> cache)).1.1
  = [initial; initial;
     {| data := Some freshData; loading := false; error := None |}].
Proof. split_and!; [apply lookup_insert_eq|done..]. Qed.

(** The same key mounted twice, with nothing in utils/prefetch.  The
    first mount fetches the tasks and writes them into [memoryCache];
    the second, whose fetcher fails, finds them there and still shows
    [loading] and then the error, with no data. *)
Example useData_memoryCache_sample :
  (useData nonEmpty (λ _, None) stampOf "tasks" None
     (Resolved "[fresh tasks]") 0 250 ∅).1.2
  = {[ "tasks" := ("[fresh tasks]", "t+250") ]} ∧
  (useData nonEmpty (λ _, None) stampOf "tasks" None
     (Rejected (mkError TypeErrorC "Failed to fetch")) 1000 1250
     {[ "tasks" := ("[fresh tasks]", "t+250") ]}).1.1
  = [ {| data := None; loading := true; error := None |};
      {| data := None; loading := true; error := None |};
      {| data := None; loading := false;
         error := Some (mkError TypeErrorC "Failed to fetch") |} ].
Proof. split; vm_compute; reflexivity. Qed.

(* --------------------------------------------------------------------- *)
(** ** The miss, the memory cache, the named hooks *)

Section Mount.
Context {T : Type}.
Variable truthyT : T → bool.
Variable getCachedData : string → option T.
Variable toISOString : Z → string.

(** [useTasks], [useRoutines], [useUserData] *)
Definition useTasks (onlineData : option T) (fetcher : Promise T)
    (mountedAt settledAt : Z) (cache : gmap string (T * string))
    : list View * gmap string (T * string) * list LogEntry :=
  useData truthyT getCachedData toISOString "tasks" onlineData fetcher
    mountedAt settledAt cache.

Definition useRoutines (onlineData : option T) (fetcher : Promise T)
    (mountedAt settledAt : Z) (cache : gmap string (T * string))
    : list View * gmap string (T * string) * list LogEntry :=
  useData truthyT getCachedData toISOString "routines" onlineData fetcher
    mountedAt settledAt cache.

Definition useUserData (onlineData : option T) (fetcher : Promise T)
    (mountedAt settledAt : Z) (cache : gmap string (T * string))
    : list View * gmap string (T * string) * list LogEntry :=
  useData truthyT getCachedData toISOString "user_data" onlineData fetcher
    mountedAt settledAt cache.

(** [clearCache] *)
Definition clearCache (cache : gmap string (T * string))
    : gmap string (T * string) := ∅.

(** X23.  A mount without a usable cached value.  When [getCachedData] has
    nothing for the key, or only a falsy value, the hook shows [loading]
    with no data and no error until the fetcher settles, and for ever if
    it never does; when the fetcher resolves, the hook returns its result
    with [loading] cleared and the memory cache holds the result with the
    time it arrived; when it rejects, the hook returns the error, with
    [loading] cleared and still no data, and the memory cache is as the
    second effect left it. *)
Theorem useData_cache_miss
    (cacheKey : string) (onlineData : option T) (fetcher : Promise T)
    (mountedAt settledAt : Z) (cache : gmap string (T * string)) :
  (∀ cached, getCachedData cacheKey = Some cached → truthyT cached = false) →
  ∃ views cache' console,
    useData truthyT getCachedData toISOString cacheKey onlineData fetcher
      mountedAt settledAt cache = (views, cache', console) ∧
    views !! 0%nat = Some initial ∧
    views !! 1%nat = Some initial ∧
    match fetcher with
    | Resolved freshData =>
        views = [initial; initial;
                 {| data := Some freshData; loading := false;
                    error := None |}] ∧
        cache' !! cacheKey = Some (freshData, toISOString settledAt)
    | Rejected err =>
        views = [initial; initial;
                 {| data := None; loading := false; error := Some err |}] ∧
        cache' = storeOnlineData truthyT toISOString cacheKey onlineData
                   mountedAt cache ∧
        console =
          [Log ("Fetching fresh data for " +:+ cacheKey);
           LogError ("Error fetching data for " +:+ cacheKey +:+ ":") err]
    | Pending => views = [initial; initial]
    end.
Proof.
  intros Hmiss.
  assert (cacheHit truthyT getCachedData cacheKey = None) as Hhit.
  { unfold cacheHit. destruct (getCachedData cacheKey) as [cached|] eqn:Hget;
      [|done]. by rewrite (Hmiss cached). }
  unfold useData, fetchDataStart, fetchDataResume. rewrite Hhit.
  destruct fetcher as [freshData|err|]; cbn;
    eexists _, _, _; (split; [reflexivity|]); cbn;
    (split; [done|]); (split; [done|]).
  - split; [done|]. by rewrite lookup_insert_eq.
  - done.
  - done.
Qed.

(** X24.  The memory cache is written, never read.  What the hook returns,
    render after render, and what it logs do not depend on the memory
    cache in any way.  A mount changes the cache under its own key only:
    the entry ends up holding what the fetcher resolved with, stamped
    with the time it arrived, even when that is falsy and whatever
    [onlineData] was; failing that a truthy [onlineData], stamped with
    the time of the mount; and failing that what it held before.  So the
    three named hooks never overwrite each other's entries, and
    [clearCache] changes nothing that a later mount returns. *)
Theorem useData_memory_cache
    (cacheKey : string) (onlineData : option T) (fetcher : Promise T)
    (mountedAt settledAt : Z) (cache : gmap string (T * string)) :
  (∀ cache2,
     (useData truthyT getCachedData toISOString cacheKey onlineData fetcher
        mountedAt settledAt cache2).1.1
     = (useData truthyT getCachedData toISOString cacheKey onlineData fetcher
          mountedAt settledAt cache).1.1 ∧
     (useData truthyT getCachedData toISOString cacheKey onlineData fetcher
        mountedAt settledAt cache2).2
     = (useData truthyT getCachedData toISOString cacheKey onlineData fetcher
          mountedAt settledAt cache).2) ∧
  (∀ k, k ≠ cacheKey →
     (useData truthyT getCachedData toISOString cacheKey onlineData fetcher
        mountedAt settledAt cache).1.2 !! k = cache !! k) ∧
  (useData truthyT getCachedData toISOString cacheKey onlineData fetcher
     mountedAt settledAt cache).1.2 !! cacheKey
  = match fetcher with
    | Resolved freshData => Some (freshData, toISOString settledAt)
    | _ =>
        match onlineData with
        | Some d => if truthyT d then Some (d, toISOString mountedAt)
                    else cache !! cacheKey
        | None => cache !! cacheKey
        end
    end ∧
  (useTasks onlineData fetcher mountedAt settledAt cache).1.2 !! "routines"
    = cache !! "routines" ∧
  (useTasks onlineData fetcher mountedAt settledAt cache).1.2 !! "user_data"
    = cache !! "user_data" ∧
  (useRoutines onlineData fetcher mountedAt settledAt cache).1.2 !! "tasks"
    = cache !! "tasks" ∧
  (useRoutines onlineData fetcher mountedAt settledAt cache).1.2 !! "user_data"
    = cache !! "user_data" ∧
  (useUserData onlineData fetcher mountedAt settledAt cache).1.2 !! "tasks"
    = cache !! "tasks" ∧
  (useUserData onlineData fetcher mountedAt settledAt cache).1.2 !! "routines"
    = cache !! "routines" ∧
  (useData truthyT getCachedData toISOString cacheKey onlineData fetcher
     mountedAt settledAt (clearCache cache)).1.1
  = (useData truthyT getCachedData toISOString cacheKey onlineData fetcher
       mountedAt settledAt cache).1.1.
Proof.
  assert (∀ key c k, k ≠ key →
            (useData truthyT getCachedData toISOString key onlineData
               fetcher mountedAt settledAt c).1.2 !! k = c !! k) as Hother.
  { intros key c k Hk.
    unfold useData, fetchDataStart, fetchDataResume, storeOnlineData.
    destruct (cacheHit truthyT getCachedData key),
      fetcher as [freshData|err|], onlineData as [d|];
      cbn; try destruct (truthyT d); by rewrite ?lookup_insert_ne. }
  assert (∀ cache2,
            (useData truthyT getCachedData toISOString cacheKey onlineData
               fetcher mountedAt settledAt cache2).1.1
            = (useData truthyT getCachedData toISOString cacheKey onlineData
                 fetcher mountedAt settledAt cache).1.1 ∧
            (useData truthyT getCachedData toISOString cacheKey onlineData
               fetcher mountedAt settledAt cache2).2
            = (useData truthyT getCachedData toISOString cacheKey onlineData
                 fetcher mountedAt settledAt cache).2) as Hblind.
  { intros cache2.
    unfold useData, fetchDataStart, fetchDataResume.
    by destruct (cacheHit truthyT getCachedData cacheKey),
      fetcher as [freshData|err|]. }
  split_and!; try (by apply Hother); [exact Hblind| |apply Hblind].
  - unfold useData, fetchDataStart, fetchDataResume, storeOnlineData.
    destruct (cacheHit truthyT getCachedData cacheKey),
      fetcher as [freshData|err|], onlineData as [d|];
      cbn; try destruct (truthyT d); by rewrite ?lookup_insert_eq.
Qed.

End Mount.

Lemma useData_cache_miss_witness :
  ∃ views cache' console,
    useData nonEmpty prefetched stampOf "routines" (Some "[online routines]")
      (Rejected (mkError TypeErrorC "Failed to fetch")) 0 250 ∅
      = (views, cache', console) ∧
    views !! 0%nat = Some initial ∧
    views !! 1%nat = Some initial ∧
    views = [initial; initial;
             {| data := None; loading := false;
                error := Some (mkError TypeErrorC "Failed to fetch") |}] ∧
    cache' = storeOnlineData nonEmpty stampOf "routines"
               (Some "[online routines]") 0 ∅ ∧
    console =
      [Log ("Fetching fresh data for " +:+ "routines");
       LogError ("Error fetching data for " +:+ "routines" +:+ ":")
         (mkError TypeErrorC "Failed to fetch")].
Proof.
  apply (useData_cache_miss nonEmpty prefetched stampOf "routines"
           (Some "[online routines]")
           (Rejected (mkError TypeErrorC "Failed to fetch")) 0 250 ∅).
  intros cached. vm_compute. discriminate.
Defined.

End UseData.
